(** * Sorted association chains and hash directories of C_containers

    A shallow embedding of [src/queues.c], [src/deepqueues.c],
    [src/hashtabs.c] and [src/deephashtabs.c], and the properties of the
    chain / directory pair stated over it.

    Conventions of the embedding.
    - A C pointer to a link node is an [option ptr]: [None] is [NULL],
      [Some a] is the address [a].  The link nodes of one chain live in the
      node store [q_nodes] of that chain: [malloc] picks an address that is
      not allocated in it, [free] deletes the address.  Nodes are only ever
      reached through the chain that allocated them, so every chain carries
      its own store.
    - A [size_t] or [uint64_t] is a [Z] in [0, 2^64); [++] and [--] wrap.
      The [int] a comparator returns is a [Z].
    - A call has an [outcome]: it returns ([Done]), it has undefined
      behaviour ([Undefined]: a [NULL] or dangling pointer is dereferenced,
      a [NULL] function pointer is called, an object is read past its end),
      it never returns ([Diverges]) or it terminates the process through
      [error(1, ...)] ([Fatal]).  Allocation is assumed to succeed.
    - The reentrant [_r] twins of the operations differ from the plain ones
      only in calling [cmp_r] / [hash_r] with one more argument; the plain
      ones are embedded, and [queues_map_r], which the rehash uses. *)

From Stdlib Require Import ZArith Lia.
From stdpp Require Import gmap list sorting.

Set Warnings "-clear-no-such-hyp,-level-tolerance".

(** ** Outcomes *)

Inductive outcome (T : Type) : Type :=
| Done (v : T)
| Undefined
| Diverges
| Fatal.
Arguments Done {T} v.
Arguments Undefined {T}.
Arguments Diverges {T}.
Arguments Fatal {T}.

#[global] Instance outcome_ret : MRet outcome := @Done.
#[global] Instance outcome_bind : MBind outcome := λ T U f m,
  match m with
  | Done v => f v
  | Undefined => Undefined
  | Diverges => Diverges
  | Fatal => Fatal
  end.

(** A call through a function pointer; [NULL] cannot be called. *)
Definition call {F : Type} (f : option F) : outcome F :=
  match f with Some g => Done g | None => Undefined end.

(** ** Machine integers *)

Definition SIZE_MAX : Z := 2 ^ 64 - 1.

(** [n] as a [size_t] / [uint64_t]. *)
Definition to_size_t (n : Z) : Z := n mod 2 ^ 64.

(** [n++] and [n--] on a [size_t]. *)
Definition size_incr (n : Z) : Z := to_size_t (n + 1).
Definition size_decr (n : Z) : Z := to_size_t (n - 1).

(** ** Link nodes (struct queues_node_t, struct dqueues_node_t)

    Both node structs have the same three fields; the payload [n_x] is the
    caller's object for the shallow chain and the chain's own copy of its
    bytes for the deep chain. *)

Abbreviation ptr := positive.

Record node_t (A : Type) : Type := Node {
  n_x : A;
  n_prev : option ptr;
  n_next : option ptr;
}.
Arguments Node {A} n_x n_prev n_next.
Arguments n_x {A} _.
Arguments n_prev {A} _.
Arguments n_next {A} _.

Section node_store.
Context {A : Type}.
Implicit Types (m : gmap ptr (node_t A)) (p : option ptr) (a : ptr).

(** [malloc(sizeof(node))]: an address that is not allocated. *)
Definition malloc m : ptr := fresh (dom m).

(** Reading the node [p] points to. *)
Definition load_node m p : outcome (node_t A) :=
  match p with
  | None => Undefined
  | Some a => match m !! a with Some n => Done n | None => Undefined end
  end.

(** [a->x = v], [a->prev = v], [a->next = v]. *)
Definition store_x m a (v : A) : outcome (gmap ptr (node_t A)) :=
  n ← load_node m (Some a);
  Done (<[a := Node v (n_prev n) (n_next n)]> m).
Definition store_prev m a (v : option ptr) : outcome (gmap ptr (node_t A)) :=
  n ← load_node m (Some a);
  Done (<[a := Node (n_x n) v (n_next n)]> m).
Definition store_next m a (v : option ptr) : outcome (gmap ptr (node_t A)) :=
  n ← load_node m (Some a);
  Done (<[a := Node (n_x n) (n_prev n) v]> m).

(** [p->prev = v] and [p->next = v] through a pointer that may be [NULL]. *)
Definition store_prev_at m p (v : option ptr) : outcome (gmap ptr (node_t A)) :=
  match p with None => Undefined | Some a => store_prev m a v end.
Definition store_next_at m p (v : option ptr) : outcome (gmap ptr (node_t A)) :=
  match p with None => Undefined | Some a => store_next m a v end.

(** [free(a)]. *)
Definition free_node m a : outcome (gmap ptr (node_t A)) :=
  match m !! a with Some _ => Done (delete a m) | None => Undefined end.
End node_store.
(** ** The shallow chain: queues.c *)

Section queues.
Context {A Y : Type}.

(** struct queues_t, with the nodes its [head] and [tail] lead to. *)
Record queues_t : Type := Queue {
  q_size : Z;
  q_cmp : option (A → A → Z);
  q_cmp_r : option (A → A → Y → Z);
  q_head : option ptr;
  q_tail : option ptr;
  q_nodes : gmap ptr (node_t A);
}.

Definition queues_new (cmp : option (A → A → Z))
    (cmp_r : option (A → A → Y → Z)) : outcome queues_t :=
  match cmp, cmp_r with
  | None, None => Fatal
  | _, _ => Done (Queue 0 cmp cmp_r None None ∅)
  end.

(** The scan of the body in [queues_enqueu], started at [tmp]; the store is
    not written before the scan ends, so a scan longer than the store has
    nodes is in a cycle and never ends. *)
Fixpoint enqueu_body (fuel : nat) (q : queues_t) (x : A) (tmp : ptr)
    : outcome queues_t :=
  match fuel with
  | O => Diverges
  | S fuel =>
    tn ← load_node (q_nodes q) (Some tmp);
    match n_next tn with
    | None => Done q
    | Some nx =>
      nn ← load_node (q_nodes q) (Some nx);
      cmp ← call (q_cmp q);
      let c := cmp x (n_x nn) in
      if (c =? -1)%Z then
        let new := malloc (q_nodes q) in
        let m := <[new := Node x (Some tmp) (Some nx)]> (q_nodes q) in
        m ← store_prev m nx (Some new);
        m ← store_next m tmp (Some new);
        Done (Queue (size_incr (q_size q)) (q_cmp q) (q_cmp_r q)
                    (q_head q) (q_tail q) m)
      else if (c =? 0)%Z then Done q
      else if (c =? 1)%Z then enqueu_body fuel q x nx
      else Diverges
    end
  end.

Definition queues_enqueu (q : queues_t) (x : A) : outcome queues_t :=
  match q_head q with
  | None =>
    (* queue is empty *)
    let new := malloc (q_nodes q) in
    Done (Queue 1 (q_cmp q) (q_cmp_r q) (Some new) (Some new)
                (<[new := Node x None None]> (q_nodes q)))
  | Some h =>
    (* check tail *)
    tl ← load_node (q_nodes q) (q_tail q);
    cmp ← call (q_cmp q);
    let c := cmp x (n_x tl) in
    if (c =? 0)%Z then Done q
    else if (c =? 1)%Z then
      let new := malloc (q_nodes q) in
      let m := <[new := Node x (q_tail q) None]> (q_nodes q) in
      m ← store_next_at m (q_tail q) (Some new);
      Done (Queue (size_incr (q_size q)) (q_cmp q) (q_cmp_r q)
                  (q_head q) (Some new) m)
    else
      (* check head *)
      hd ← load_node (q_nodes q) (Some h);
      let c := cmp x (n_x hd) in
      if (c =? -1)%Z then
        let new := malloc (q_nodes q) in
        let m := <[new := Node x None (Some h)]> (q_nodes q) in
        m ← store_prev m h (Some new);
        Done (Queue (size_incr (q_size q)) (q_cmp q) (q_cmp_r q)
                    (Some new) (q_tail q) m)
      else if (c =? 0)%Z then Done q
      else
        (* check body *)
        enqueu_body (S (size (q_nodes q))) q x h
  end.

Definition queues_dequeue_front (q : queues_t) : outcome (queues_t * option A) :=
  match q_head q with
  | None => Done (q, None)
  | Some h =>
    hd ← load_node (q_nodes q) (Some h);
    let tl := match n_next hd with None => None | Some _ => q_tail q end in
    m ← free_node (q_nodes q) h;
    m ← match n_next hd with
        | None => Done m
        | Some h' => store_prev m h' None
        end;
    Done (Queue (size_decr (q_size q)) (q_cmp q) (q_cmp_r q)
                (n_next hd) tl m, Some (n_x hd))
  end.

Definition queues_dequeue_back (q : queues_t) : outcome (queues_t * option A) :=
  match q_tail q with
  | None => Done (q, None)
  | Some t =>
    tl ← load_node (q_nodes q) (Some t);
    let hd := match n_prev tl with None => None | Some _ => q_head q end in
    m ← free_node (q_nodes q) t;
    m ← match n_prev tl with
        | None => Done m
        | Some t' => store_next m t' None
        end;
    Done (Queue (size_decr (q_size q)) (q_cmp q) (q_cmp_r q)
                hd (n_prev tl) m, Some (n_x tl))
  end.

(** The loop of [queues_find]; any comparator result other than [-1] and
    [0] moves on to the next node. *)
Fixpoint find_loop (fuel : nat) (q : queues_t) (x : A) (tmp : option ptr)
    : outcome (option A) :=
  match fuel with
  | O => Diverges
  | S fuel =>
    match tmp with
    | None => Done None
    | Some _ =>
      tn ← load_node (q_nodes q) tmp;
      cmp ← call (q_cmp q);
      let c := cmp x (n_x tn) in
      if (c =? -1)%Z then Done None
      else if (c =? 0)%Z then Done (Some (n_x tn))
      else find_loop fuel q x (n_next tn)
    end
  end.

Definition queues_find (q : option queues_t) (x : A) : outcome (option A) :=
  match q with
  | None => Done None
  | Some q => find_loop (S (size (q_nodes q))) q x (q_head q)
  end.

(** Unlinking the body node [tmp] in [queues_remove]; every field is read
    again after each store, as the C statements do. *)
Definition remove_unlink (q : queues_t) (tmp : ptr) : outcome (queues_t * option A) :=
  tn ← load_node (q_nodes q) (Some tmp);
  m ← store_next_at (q_nodes q) (n_prev tn) (n_next tn);
  tn ← load_node m (Some tmp);
  m ← store_prev_at m (n_next tn) (n_prev tn);
  tn ← load_node m (Some tmp);
  m ← free_node m tmp;
  Done (Queue (size_decr (q_size q)) (q_cmp q) (q_cmp_r q)
              (q_head q) (q_tail q) m, Some (n_x tn)).

(** The scan of the body in [queues_remove], from [tmp] up to the tail. *)
Fixpoint remove_body (fuel : nat) (q : queues_t) (x : A) (tmp : option ptr)
    : outcome (queues_t * option A) :=
  match fuel with
  | O => Diverges
  | S fuel =>
    if decide (tmp = q_tail q) then Done (q, None)
    else
      tn ← load_node (q_nodes q) tmp;
      cmp ← call (q_cmp q);
      let c := cmp x (n_x tn) in
      if (c =? -1)%Z then Done (q, None)
      else if (c =? 0)%Z then
        match tmp with
        | None => Undefined
        | Some a => remove_unlink q a
        end
      else if (c =? 1)%Z then remove_body fuel q x (n_next tn)
      else Diverges
  end.

Definition queues_remove (q : option queues_t) (x : A)
    : outcome (option queues_t * option A) :=
  match q with
  | None => Done (None, None)
  | Some q =>
    match q_head q with
    | None => Done (Some q, None)
    | Some h =>
      (* check head *)
      hd ← load_node (q_nodes q) (Some h);
      cmp ← call (q_cmp q);
      let c := cmp x (n_x hd) in
      if (c =? -1)%Z then Done (Some q, None)
      else if (c =? 0)%Z then
        m ← match n_next hd with
            | None => Done (q_nodes q)
            | Some h' => store_prev (q_nodes q) h' None
            end;
        hd' ← load_node m (Some h);
        m ← free_node m h;
        Done (Some (Queue (size_decr (q_size q)) (q_cmp q) (q_cmp_r q)
                          (n_next hd') (q_tail q) m), Some (n_x hd'))
      else
        (* check tail *)
        tl ← load_node (q_nodes q) (q_tail q);
        let c := cmp x (n_x tl) in
        if (c =? 0)%Z then
          m ← match n_prev tl with
              | None => Done (q_nodes q)
              | Some t' => store_next (q_nodes q) t' None
              end;
          tl' ← load_node m (q_tail q);
          m ← match q_tail q with
              | None => Undefined
              | Some t => free_node m t
              end;
          Done (Some (Queue (size_decr (q_size q)) (q_cmp q) (q_cmp_r q)
                            (q_head q) (n_prev tl') m), Some (n_x tl'))
        else if (c =? 1)%Z then Done (Some q, None)
        else
          (* check body *)
          '(q', r) ← remove_body (S (size (q_nodes q))) q x (n_next hd);
          Done (Some q', r)
    end
  end.

(** [queues_map_r]: [apply] receives the address of the [x] field, which it
    may overwrite, and the object [y] points to, of type [St] here. *)
Fixpoint map_r_loop {St : Type} (fuel : nat)
    (apply : A → St → outcome (A * St * Z))
    (m : gmap ptr (node_t A)) (tmp : option ptr) (y : St)
    : outcome (gmap ptr (node_t A) * St * Z) :=
  match fuel with
  | O => Diverges
  | S fuel =>
    match tmp with
    | None => Done (m, y, 1%Z)
    | Some a =>
      tn ← load_node m tmp;
      '(x', y', r) ← apply (n_x tn) y;
      m ← store_x m a x';
      if (r <? 0)%Z then Done (m, y', (-1)%Z)
      else
        tn ← load_node m tmp;
        map_r_loop fuel apply m (n_next tn) y'
    end
  end.

Definition queues_map_r {St : Type} (q : option queues_t)
    (apply : A → St → outcome (A * St * Z)) (y : St)
    : outcome (option queues_t * St * Z) :=
  match q with
  | None => Done (None, y, 1%Z)
  | Some q =>
    '(m, y', r) ← map_r_loop (S (size (q_nodes q))) apply (q_nodes q) (q_head q) y;
    Done (Some (Queue (q_size q) (q_cmp q) (q_cmp_r q) (q_head q) (q_tail q) m),
          y', r)
  end.

Definition queues_size (q : queues_t) : Z := q_size q.

End queues.
Arguments queues_t : clear implicits.

(** ** The deep chain: deepqueues.c

    The payload of a node is the chain's own copy of the first [size] bytes
    of the caller's object. *)

Abbreviation bytes := (list Byte.byte).

(** [memcpy(dst, src, n)] into fresh storage: the [n] bytes copied; reading
    past the end of [src] is undefined. *)
Definition memcpy (n : Z) (src : bytes) : outcome bytes :=
  if (n <=? Z.of_nat (length src))%Z
  then Done (take (Z.to_nat n) src)
  else Undefined.

Section dqueues.
Context {Y : Type}.

(** struct dqueues_t: [dq_size] is the size of a payload, [dq_nmems] the
    number of members. *)
Record dqueues_t : Type := DQueue {
  dq_size : Z;
  dq_nmems : Z;
  dq_cmp : option (bytes → bytes → Z);
  dq_cmp_r : option (bytes → bytes → Y → Z);
  dq_head : option ptr;
  dq_tail : option ptr;
  dq_nodes : gmap ptr (node_t bytes);
}.

Definition dqueues_new (cmp : option (bytes → bytes → Z))
    (cmp_r : option (bytes → bytes → Y → Z)) (size : Z) : outcome dqueues_t :=
  match cmp, cmp_r with
  | None, None => Fatal
  | _, _ => Done (DQueue size 0 cmp cmp_r None None ∅)
  end.

(** The scan of the body in [dqueues_enqueu]. *)
Fixpoint denqueu_body (fuel : nat) (q : dqueues_t) (x : bytes) (tmp : ptr)
    : outcome dqueues_t :=
  match fuel with
  | O => Diverges
  | S fuel =>
    tn ← load_node (dq_nodes q) (Some tmp);
    match n_next tn with
    | None => Done q
    | Some nx =>
      nn ← load_node (dq_nodes q) (Some nx);
      cmp ← call (dq_cmp q);
      let c := cmp x (n_x nn) in
      if (c =? -1)%Z then
        let new := malloc (dq_nodes q) in
        copy ← memcpy (dq_size q) x;
        let m := <[new := Node copy (Some tmp) (Some nx)]> (dq_nodes q) in
        m ← store_prev m nx (Some new);
        m ← store_next m tmp (Some new);
        Done (DQueue (dq_size q) (size_incr (dq_nmems q)) (dq_cmp q)
                     (dq_cmp_r q) (dq_head q) (dq_tail q) m)
      else if (c =? 0)%Z then Done q
      else if (c =? 1)%Z then denqueu_body fuel q x nx
      else Diverges
    end
  end.

Definition dqueues_enqueu (q : dqueues_t) (x : bytes) : outcome dqueues_t :=
  match dq_head q with
  | None =>
    (* queue is empty *)
    let new := malloc (dq_nodes q) in
    copy ← memcpy (dq_size q) x;
    Done (DQueue (dq_size q) 1 (dq_cmp q) (dq_cmp_r q) (Some new) (Some new)
                 (<[new := Node copy None None]> (dq_nodes q)))
  | Some h =>
    (* check tail *)
    tl ← load_node (dq_nodes q) (dq_tail q);
    cmp ← call (dq_cmp q);
    let c := cmp x (n_x tl) in
    if (c =? 0)%Z then Done q
    else if (c =? 1)%Z then
      let new := malloc (dq_nodes q) in
      copy ← memcpy (dq_size q) x;
      let m := <[new := Node copy (dq_tail q) None]> (dq_nodes q) in
      m ← store_next_at m (dq_tail q) (Some new);
      Done (DQueue (dq_size q) (size_incr (dq_nmems q)) (dq_cmp q)
                   (dq_cmp_r q) (dq_head q) (Some new) m)
    else
      (* check head *)
      hd ← load_node (dq_nodes q) (Some h);
      let c := cmp x (n_x hd) in
      if (c =? -1)%Z then
        let new := malloc (dq_nodes q) in
        copy ← memcpy (dq_size q) x;
        let m := <[new := Node copy None (Some h)]> (dq_nodes q) in
        m ← store_prev m h (Some new);
        Done (DQueue (dq_size q) (size_incr (dq_nmems q)) (dq_cmp q)
                     (dq_cmp_r q) (Some new) (dq_tail q) m)
      else if (c =? 0)%Z then Done q
      else
        (* check body *)
        denqueu_body (S (size (dq_nodes q))) q x h
  end.

(** The loop of [dqueues_find]. *)
Fixpoint dfind_loop (fuel : nat) (q : dqueues_t) (x : bytes)
    (tmp : option ptr) : outcome (option bytes) :=
  match fuel with
  | O => Diverges
  | S fuel =>
    match tmp with
    | None => Done None
    | Some _ =>
      tn ← load_node (dq_nodes q) tmp;
      cmp ← call (dq_cmp q);
      let c := cmp x (n_x tn) in
      if (c =? -1)%Z then Done None
      else if (c =? 0)%Z then Done (Some (n_x tn))
      else dfind_loop fuel q x (n_next tn)
    end
  end.

Definition dqueues_find (q : option dqueues_t) (x : bytes)
    : outcome (option bytes) :=
  match q with
  | None => Done None
  | Some q => dfind_loop (S (size (dq_nodes q))) q x (dq_head q)
  end.

Definition dqueues_size (q : dqueues_t) : Z := dq_nmems q.

End dqueues.
Arguments dqueues_t : clear implicits.

(** ** The prime ladder (hashtabs.c and deephashtabs.c) *)

Definition NPRIMES : Z := 45.

Definition _primes : list Z :=
  [11; 17; 29; 43; 67; 101; 151; 227; 347; 521; 787; 1181; 1777; 2671; 4007;
   6011; 9029; 13553; 20333; 30509; 45763; 68659; 103001; 154501; 231779;
   347671; 521519; 782297; 1173463; 1760203; 2640317; 3960497; 5940761;
   8911141; 13366711; 20050081; 30075127; 45112693; 67669079; 101503627;
   152255461; 228383273; 342574909; 513862367; 770793589; SIZE_MAX]%Z.

(** [_primes[i]]; [cap_index] is only ever written by [_get_cap_index], so
    the index is in range. *)
Definition prime_at (i : Z) : Z := nth (Z.to_nat i) _primes 0%Z.

(** The loop [for ( i = 0; i < NPRIMES && n >= _primes[i]; i++ );] from [i]
    on; it leaves by its condition after at most [NPRIMES] rounds. *)
Fixpoint get_cap_index_from (rounds : nat) (n i : Z) : Z :=
  match rounds with
  | O => i
  | S rounds =>
    if ((i <? NPRIMES) && (n >=? prime_at i))%Z
    then get_cap_index_from rounds n (i + 1)%Z
    else i
  end.

Definition _get_cap_index (n : Z) : Z :=
  get_cap_index_from (S (Z.to_nat NPRIMES)) n 0%Z.

(** An array read [a[i]]. *)
Definition array_get {T : Type} (a : list T) (i : nat) : outcome T :=
  match a !! i with Some v => Done v | None => Undefined end.

(** [calloc(nmemb, size)] for an array of pointers.  A request of
    [nmemb * size] bytes that does not fit a [size_t] cannot be met and the
    call returns [NULL]: this is what the [SIZE_MAX] slots of the last rung
    of the ladder ask for.  A request that fits is taken to succeed, as
    [malloc] is throughout, and gives [nmemb] slots that are all [NULL].
    The [NULL] array is the array without a slot, so that every read
    [a[i]] of it is undefined. *)
Definition calloc {T : Type} (nmemb size : Z) : list (option T) :=
  if (nmemb * size <=? SIZE_MAX)%Z then replicate (Z.to_nat nmemb) None
  else [].

(** [sizeof(queues_t)] and [sizeof(dqueues_t)]: the size of a pointer. *)
Definition sizeof_ptr : Z := 8.

(** ** The shallow directory: hashtabs.c *)

Section hashtabs.
Context {A Y H : Type}.

(** struct hashtabs_t; a slot of the bucket array [A] is [NULL] or the chain
    it owns, and [A] itself is without a slot when [calloc] returned
    [NULL]. *)
Record hashtabs_t : Type := Hashtab {
  t_size : Z;
  t_load : Z;
  t_cap_index : Z;
  t_cmp : option (A → A → Z);
  t_cmp_r : option (A → A → Y → Z);
  t_hash : option (A → Z);
  t_hash_r : option (A → H → Z);
  t_A : list (option (queues_t A Y));
}.

(** [t->A = v]. *)
Definition set_A (t : hashtabs_t) (v : list (option (queues_t A Y))) : hashtabs_t :=
  Hashtab (t_size t) (t_load t) (t_cap_index t) (t_cmp t) (t_cmp_r t)
          (t_hash t) (t_hash_r t) v.

Definition hashtabs_new (cmp : option (A → A → Z))
    (cmp_r : option (A → A → Y → Z)) (hash : option (A → Z))
    (hash_r : option (A → H → Z)) (n : Z) : hashtabs_t :=
  let cap_index := _get_cap_index n in
  Hashtab 0 0 cap_index cmp cmp_r hash hash_r
          (calloc (prime_at cap_index) sizeof_ptr).

Definition hashtabs_insert (t : hashtabs_t) (x : A) : outcome hashtabs_t :=
  hash ← call (t_hash t);
  let val := Z.to_nat (to_size_t (hash x) mod prime_at (t_cap_index t)) in
  slot ← array_get (t_A t) val;
  '(load, q) ← match slot with
               | None =>
                 q ← queues_new (t_cmp t) (t_cmp_r t);
                 Done (size_incr (t_load t), q)
               | Some q => Done (t_load t, q)
               end;
  q ← queues_enqueu q x;
  Done (Hashtab (size_incr (t_size t)) load (t_cap_index t) (t_cmp t)
                (t_cmp_r t) (t_hash t) (t_hash_r t)
                (<[val := Some q]> (t_A t))).

(** The loop of [hashtabs_remove] from slot [i] on, [n] slots to go. *)
Fixpoint remove_slots (n i : nat) (t : hashtabs_t) (x : A)
    : outcome (hashtabs_t * option A) :=
  match n with
  | O => Done (t, None)
  | S n =>
    slot ← array_get (t_A t) i;
    '(q, r) ← queues_remove slot x;
    let t := set_A t (<[i := q]> (t_A t)) in
    match r with
    | Some v =>
      q ← match q with Some q => Done q | None => Undefined end;
      let load := if (queues_size q =? 0)%Z
                  then size_decr (t_load t) else t_load t in
      Done (Hashtab (size_decr (t_size t)) load (t_cap_index t) (t_cmp t)
                    (t_cmp_r t) (t_hash t) (t_hash_r t) (t_A t), Some v)
    | None => remove_slots n (S i) t x
    end
  end.

Definition hashtabs_remove (t : hashtabs_t) (x : A)
    : outcome (hashtabs_t * option A) :=
  remove_slots (Z.to_nat (prime_at (t_cap_index t))) 0 t x.

(** The loop of [hashtabs_find]. *)
Fixpoint find_slots (n i : nat) (t : hashtabs_t) (x : A) : outcome (option A) :=
  match n with
  | O => Done None
  | S n =>
    slot ← array_get (t_A t) i;
    r ← queues_find slot x;
    match r with
    | Some v => Done (Some v)
    | None => find_slots n (S i) t x
    end
  end.

Definition hashtabs_find (t : hashtabs_t) (x : A) : outcome (option A) :=
  find_slots (Z.to_nat (prime_at (t_cap_index t))) 0 t x.

(** The loop of [hashtabs_map_r]. *)
Fixpoint map_r_slots {St : Type} (n i : nat) (t : hashtabs_t)
    (apply : A → St → outcome (A * St * Z)) (y : St)
    : outcome (hashtabs_t * St * Z) :=
  match n with
  | O => Done (t, y, 1%Z)
  | S n =>
    slot ← array_get (t_A t) i;
    '(q, y, r) ← queues_map_r slot apply y;
    let t := set_A t (<[i := q]> (t_A t)) in
    if (r <? 0)%Z then Done (t, y, (-1)%Z)
    else map_r_slots n (S i) t apply y
  end.

Definition hashtabs_map_r {St : Type} (t : hashtabs_t)
    (apply : A → St → outcome (A * St * Z)) (y : St)
    : outcome (hashtabs_t * St * Z) :=
  map_r_slots (Z.to_nat (prime_at (t_cap_index t))) 0 t apply y.

Definition hashtabs_capacity (t : hashtabs_t) : Z := prime_at (t_cap_index t).

(** rehash_t: the directory being filled and the two context pointers. *)
Record rehash_t : Type := Rehash {
  r_t : hashtabs_t;
  r_hash_arg : option H;
  r_queue_arg : option Y;
}.

Definition _rehash (x : A) (y : rehash_t) : outcome (A * rehash_t * Z) :=
  t ← hashtabs_insert (r_t y) x;
  Done (x, Rehash t (r_hash_arg y) (r_queue_arg y), 1%Z).

(** The loop of [hashtabs_rehash]; the result of [queues_map_r] is dropped. *)
Fixpoint rehash_slots (n i : nat) (t : hashtabs_t) (rehash : rehash_t)
    : outcome (hashtabs_t * rehash_t) :=
  match n with
  | O => Done (t, rehash)
  | S n =>
    slot ← array_get (t_A t) i;
    '(q, rehash, _) ← queues_map_r slot _rehash rehash;
    rehash_slots n (S i) (set_A t (<[i := q]> (t_A t))) rehash
  end.

(** [hashtabs_rehash t] gives [t] as the call leaves it and the directory it
    returns. *)
Definition hashtabs_rehash (t : hashtabs_t) : outcome (hashtabs_t * hashtabs_t) :=
  let rehash :=
    Rehash (hashtabs_new (t_cmp t) (t_cmp_r t) (t_hash t) (t_hash_r t)
                         (prime_at (t_cap_index t)))
           None None in
  '(t, rehash) ← rehash_slots (Z.to_nat (prime_at (t_cap_index t))) 0 t rehash;
  Done (t, r_t rehash).

Definition hashtabs_size (t : hashtabs_t) : Z := t_size t.

Definition hashtabs_loadfactor (t : hashtabs_t) : Z :=
  if (t_load t =? 0)%Z then 0%Z else (t_size t / t_load t)%Z.

End hashtabs.
Arguments hashtabs_t : clear implicits.
Arguments rehash_t : clear implicits.

(** ** The deep directory: deephashtabs.c *)

Section dhashtabs.
Context {Y H : Type}.

(** struct dhashtabs_t: [dt_nmems] is documented as the number of elements
    and [dt_size] as the size of a data object. *)
Record dhashtabs_t : Type := DHashtab {
  dt_nmems : Z;
  dt_size : Z;
  dt_load : Z;
  dt_cap_index : Z;
  dt_cmp : option (bytes → bytes → Z);
  dt_cmp_r : option (bytes → bytes → Y → Z);
  dt_hash : option (bytes → Z);
  dt_hash_r : option (bytes → H → Z);
  dt_A : list (option (dqueues_t Y));
}.

Definition dhashtabs_new (cmp : option (bytes → bytes → Z))
    (cmp_r : option (bytes → bytes → Y → Z)) (hash : option (bytes → Z))
    (hash_r : option (bytes → H → Z)) (n size : Z) : dhashtabs_t :=
  let cap_index := _get_cap_index n in
  DHashtab 0 size 0 cap_index cmp cmp_r hash hash_r
           (calloc (prime_at cap_index) sizeof_ptr).

Definition dhashtabs_insert (t : dhashtabs_t) (x : bytes) : outcome dhashtabs_t :=
  hash ← call (dt_hash t);
  let val := Z.to_nat (to_size_t (hash x) mod prime_at (dt_cap_index t)) in
  slot ← array_get (dt_A t) val;
  '(load, q) ← match slot with
               | None =>
                 q ← dqueues_new (dt_cmp t) (dt_cmp_r t) (dt_size t);
                 Done (size_incr (dt_load t), q)
               | Some q => Done (dt_load t, q)
               end;
  q ← dqueues_enqueu q x;
  Done (DHashtab (dt_nmems t) (size_incr (dt_size t)) load (dt_cap_index t)
                 (dt_cmp t) (dt_cmp_r t) (dt_hash t) (dt_hash_r t)
                 (<[val := Some q]> (dt_A t))).

(** The loop of [dhashtabs_find]. *)
Fixpoint dfind_slots (n i : nat) (t : dhashtabs_t) (x : bytes)
    : outcome (option bytes) :=
  match n with
  | O => Done None
  | S n =>
    slot ← array_get (dt_A t) i;
    r ← dqueues_find slot x;
    match r with
    | Some v => Done (Some v)
    | None => dfind_slots n (S i) t x
    end
  end.

Definition dhashtabs_find (t : dhashtabs_t) (x : bytes) : outcome (option bytes) :=
  dfind_slots (Z.to_nat (prime_at (dt_cap_index t))) 0 t x.

Definition dhashtabs_capacity (t : dhashtabs_t) : Z := prime_at (dt_cap_index t).

Definition dhashtabs_size (t : dhashtabs_t) : Z := dt_size t.

End dhashtabs.
Arguments dhashtabs_t : clear implicits.

(** ** The shallow chain: traversal without context, and disposal *)

Section queues_more.
Context {A Y : Type}.

(** [queues_map]: [apply] receives the address of the [x] field, which it
    may overwrite. *)
Fixpoint map_loop (fuel : nat) (apply : A → outcome (A * Z))
    (m : gmap ptr (node_t A)) (tmp : option ptr)
    : outcome (gmap ptr (node_t A) * Z) :=
  match fuel with
  | O => Diverges
  | S fuel =>
    match tmp with
    | None => Done (m, 1%Z)
    | Some a =>
      tn ← load_node m tmp;
      '(x', r) ← apply (n_x tn);
      m ← store_x m a x';
      if (r <? 0)%Z then Done (m, (-1)%Z)
      else
        tn ← load_node m tmp;
        map_loop fuel apply m (n_next tn)
    end
  end.

Definition queues_map (q : option (queues_t A Y))
    (apply : A → outcome (A * Z)) : outcome (option (queues_t A Y) * Z) :=
  match q with
  | None => Done (None, 1%Z)
  | Some q =>
    '(m, r) ← map_loop (S (size (q_nodes q))) apply (q_nodes q) (q_head q);
    Done (Some (Queue (q_size q) (q_cmp q) (q_cmp_r q) (q_head q) (q_tail q) m),
          r)
  end.

(** The loop of [queues_free]: the head node is read, then freed.  Every
    round frees a node, so the loop ends within as many rounds as the store
    has nodes. *)
Fixpoint free_loop (fuel : nat) (m : gmap ptr (node_t A)) (head : option ptr)
    : outcome (gmap ptr (node_t A)) :=
  match fuel with
  | O => Diverges
  | S fuel =>
    match head with
    | None => Done m
    | Some a =>
      tn ← load_node m head;
      m ← free_node m a;
      free_loop fuel m (n_next tn)
    end
  end.

(** [queues_free(&q)]: the handle as the call leaves it, and the nodes of
    the chain that are still allocated then. *)
Definition queues_free (q : option (queues_t A Y))
    : outcome (option (queues_t A Y) * gmap ptr (node_t A)) :=
  match q with
  | None => Done (None, ∅)
  | Some q =>
    m ← free_loop (S (size (q_nodes q))) (q_nodes q) (q_head q);
    Done (None, m)
  end.
End queues_more.

(** ** The deep chain: dequeues, keyed removal and traversal *)

Section dqueues_more.
Context {Y : Type}.

Definition dqueues_dequeue_front (q : dqueues_t Y)
    : outcome (dqueues_t Y * option bytes) :=
  match dq_head q with
  | None => Done (q, None)
  | Some h =>
    hd ← load_node (dq_nodes q) (Some h);
    let tl := match n_next hd with None => None | Some _ => dq_tail q end in
    m ← free_node (dq_nodes q) h;
    m ← match n_next hd with
        | None => Done m
        | Some h' => store_prev m h' None
        end;
    Done (DQueue (dq_size q) (size_decr (dq_nmems q)) (dq_cmp q) (dq_cmp_r q)
                 (n_next hd) tl m, Some (n_x hd))
  end.

Definition dqueues_dequeue_back (q : dqueues_t Y)
    : outcome (dqueues_t Y * option bytes) :=
  match dq_tail q with
  | None => Done (q, None)
  | Some t =>
    tl ← load_node (dq_nodes q) (Some t);
    let hd := match n_prev tl with None => None | Some _ => dq_head q end in
    m ← free_node (dq_nodes q) t;
    m ← match n_prev tl with
        | None => Done m
        | Some t' => store_next m t' None
        end;
    Done (DQueue (dq_size q) (size_decr (dq_nmems q)) (dq_cmp q) (dq_cmp_r q)
                 hd (n_prev tl) m, Some (n_x tl))
  end.

(** Unlinking the body node [tmp] in [dqueues_remove]. *)
Definition dremove_unlink (q : dqueues_t Y) (tmp : ptr)
    : outcome (dqueues_t Y * option bytes) :=
  tn ← load_node (dq_nodes q) (Some tmp);
  m ← store_next_at (dq_nodes q) (n_prev tn) (n_next tn);
  tn ← load_node m (Some tmp);
  m ← store_prev_at m (n_next tn) (n_prev tn);
  tn ← load_node m (Some tmp);
  m ← free_node m tmp;
  Done (DQueue (dq_size q) (size_decr (dq_nmems q)) (dq_cmp q) (dq_cmp_r q)
               (dq_head q) (dq_tail q) m, Some (n_x tn)).

(** The scan of the body in [dqueues_remove]. *)
Fixpoint dremove_body (fuel : nat) (q : dqueues_t Y) (x : bytes)
    (tmp : option ptr) : outcome (dqueues_t Y * option bytes) :=
  match fuel with
  | O => Diverges
  | S fuel =>
    if decide (tmp = dq_tail q) then Done (q, None)
    else
      tn ← load_node (dq_nodes q) tmp;
      cmp ← call (dq_cmp q);
      let c := cmp x (n_x tn) in
      if (c =? -1)%Z then Done (q, None)
      else if (c =? 0)%Z then
        match tmp with
        | None => Undefined
        | Some a => dremove_unlink q a
        end
      else if (c =? 1)%Z then dremove_body fuel q x (n_next tn)
      else Diverges
  end.

Definition dqueues_remove (q : option (dqueues_t Y)) (x : bytes)
    : outcome (option (dqueues_t Y) * option bytes) :=
  match q with
  | None => Done (None, None)
  | Some q =>
    match dq_head q with
    | None => Done (Some q, None)
    | Some h =>
      (* check head *)
      hd ← load_node (dq_nodes q) (Some h);
      cmp ← call (dq_cmp q);
      let c := cmp x (n_x hd) in
      if (c =? -1)%Z then Done (Some q, None)
      else if (c =? 0)%Z then
        m ← match n_next hd with
            | None => Done (dq_nodes q)
            | Some h' => store_prev (dq_nodes q) h' None
            end;
        hd' ← load_node m (Some h);
        m ← free_node m h;
        Done (Some (DQueue (dq_size q) (size_decr (dq_nmems q)) (dq_cmp q)
                           (dq_cmp_r q) (n_next hd') (dq_tail q) m),
              Some (n_x hd'))
      else
        (* check tail *)
        tl ← load_node (dq_nodes q) (dq_tail q);
        let c := cmp x (n_x tl) in
        if (c =? 0)%Z then
          m ← match n_prev tl with
              | None => Done (dq_nodes q)
              | Some t' => store_next (dq_nodes q) t' None
              end;
          tl' ← load_node m (dq_tail q);
          m ← match dq_tail q with
              | None => Undefined
              | Some t => free_node m t
              end;
          Done (Some (DQueue (dq_size q) (size_decr (dq_nmems q)) (dq_cmp q)
                             (dq_cmp_r q) (dq_head q) (n_prev tl') m),
                Some (n_x tl'))
        else if (c =? 1)%Z then Done (Some q, None)
        else
          (* check body *)
          '(q', r) ← dremove_body (S (size (dq_nodes q))) q x (n_next hd);
          Done (Some q', r)
    end
  end.

(** [dqueues_map_r]; its loop is that of [queues_map_r], on the copies. *)
Definition dqueues_map_r {St : Type} (q : option (dqueues_t Y))
    (apply : bytes → St → outcome (bytes * St * Z)) (y : St)
    : outcome (option (dqueues_t Y) * St * Z) :=
  match q with
  | None => Done (None, y, 1%Z)
  | Some q =>
    '(m, y', r) ← map_r_loop (S (size (dq_nodes q))) apply (dq_nodes q)
                    (dq_head q) y;
    Done (Some (DQueue (dq_size q) (dq_nmems q) (dq_cmp q) (dq_cmp_r q)
                       (dq_head q) (dq_tail q) m), y', r)
  end.
End dqueues_more.

(** ** The shallow chain: the reentrant twins

    [queues_enqueu_r], [queues_find_r] and [queues_remove_r] are the plain
    operations with every [q->cmp(a, b)] replaced by [q->cmp_r(a, b, y)]. *)

Section queues_r.
Context {A Y : Type}.

Fixpoint enqueu_body_r (fuel : nat) (q : queues_t A Y) (x : A) (y : Y)
    (tmp : ptr) : outcome (queues_t A Y) :=
  match fuel with
  | O => Diverges
  | S fuel =>
    tn ← load_node (q_nodes q) (Some tmp);
    match n_next tn with
    | None => Done q
    | Some nx =>
      nn ← load_node (q_nodes q) (Some nx);
      cmp_r ← call (q_cmp_r q);
      let c := cmp_r x (n_x nn) y in
      if (c =? -1)%Z then
        let new := malloc (q_nodes q) in
        let m := <[new := Node x (Some tmp) (Some nx)]> (q_nodes q) in
        m ← store_prev m nx (Some new);
        m ← store_next m tmp (Some new);
        Done (Queue (size_incr (q_size q)) (q_cmp q) (q_cmp_r q)
                    (q_head q) (q_tail q) m)
      else if (c =? 0)%Z then Done q
      else if (c =? 1)%Z then enqueu_body_r fuel q x y nx
      else Diverges
    end
  end.

Definition queues_enqueu_r (q : queues_t A Y) (x : A) (y : Y)
    : outcome (queues_t A Y) :=
  match q_head q with
  | None =>
    (* queue is empty *)
    let new := malloc (q_nodes q) in
    Done (Queue 1 (q_cmp q) (q_cmp_r q) (Some new) (Some new)
                (<[new := Node x None None]> (q_nodes q)))
  | Some h =>
    (* check tail *)
    tl ← load_node (q_nodes q) (q_tail q);
    cmp_r ← call (q_cmp_r q);
    let c := cmp_r x (n_x tl) y in
    if (c =? 0)%Z then Done q
    else if (c =? 1)%Z then
      let new := malloc (q_nodes q) in
      let m := <[new := Node x (q_tail q) None]> (q_nodes q) in
      m ← store_next_at m (q_tail q) (Some new);
      Done (Queue (size_incr (q_size q)) (q_cmp q) (q_cmp_r q)
                  (q_head q) (Some new) m)
    else
      (* check head *)
      hd ← load_node (q_nodes q) (Some h);
      let c := cmp_r x (n_x hd) y in
      if (c =? -1)%Z then
        let new := malloc (q_nodes q) in
        let m := <[new := Node x None (Some h)]> (q_nodes q) in
        m ← store_prev m h (Some new);
        Done (Queue (size_incr (q_size q)) (q_cmp q) (q_cmp_r q)
                    (Some new) (q_tail q) m)
      else if (c =? 0)%Z then Done q
      else
        (* check body *)
        enqueu_body_r (S (size (q_nodes q))) q x y h
  end.

Fixpoint find_loop_r (fuel : nat) (q : queues_t A Y) (x : A) (y : Y)
    (tmp : option ptr) : outcome (option A) :=
  match fuel with
  | O => Diverges
  | S fuel =>
    match tmp with
    | None => Done None
    | Some _ =>
      tn ← load_node (q_nodes q) tmp;
      cmp_r ← call (q_cmp_r q);
      let c := cmp_r x (n_x tn) y in
      if (c =? -1)%Z then Done None
      else if (c =? 0)%Z then Done (Some (n_x tn))
      else find_loop_r fuel q x y (n_next tn)
    end
  end.

Definition queues_find_r (q : option (queues_t A Y)) (x : A) (y : Y)
    : outcome (option A) :=
  match q with
  | None => Done None
  | Some q => find_loop_r (S (size (q_nodes q))) q x y (q_head q)
  end.

Fixpoint remove_body_r (fuel : nat) (q : queues_t A Y) (x : A) (y : Y)
    (tmp : option ptr) : outcome (queues_t A Y * option A) :=
  match fuel with
  | O => Diverges
  | S fuel =>
    if decide (tmp = q_tail q) then Done (q, None)
    else
      tn ← load_node (q_nodes q) tmp;
      cmp_r ← call (q_cmp_r q);
      let c := cmp_r x (n_x tn) y in
      if (c =? -1)%Z then Done (q, None)
      else if (c =? 0)%Z then
        match tmp with
        | None => Undefined
        | Some a => remove_unlink q a
        end
      else if (c =? 1)%Z then remove_body_r fuel q x y (n_next tn)
      else Diverges
  end.

Definition queues_remove_r (q : option (queues_t A Y)) (x : A) (y : Y)
    : outcome (option (queues_t A Y) * option A) :=
  match q with
  | None => Done (None, None)
  | Some q =>
    match q_head q with
    | None => Done (Some q, None)
    | Some h =>
      (* check head *)
      hd ← load_node (q_nodes q) (Some h);
      cmp_r ← call (q_cmp_r q);
      let c := cmp_r x (n_x hd) y in
      if (c =? -1)%Z then Done (Some q, None)
      else if (c =? 0)%Z then
        m ← match n_next hd with
            | None => Done (q_nodes q)
            | Some h' => store_prev (q_nodes q) h' None
            end;
        hd' ← load_node m (Some h);
        m ← free_node m h;
        Done (Some (Queue (size_decr (q_size q)) (q_cmp q) (q_cmp_r q)
                          (n_next hd') (q_tail q) m), Some (n_x hd'))
      else
        (* check tail *)
        tl ← load_node (q_nodes q) (q_tail q);
        let c := cmp_r x (n_x tl) y in
        if (c =? 0)%Z then
          m ← match n_prev tl with
              | None => Done (q_nodes q)
              | Some t' => store_next (q_nodes q) t' None
              end;
          tl' ← load_node m (q_tail q);
          m ← match q_tail q with
              | None => Undefined
              | Some t => free_node m t
              end;
          Done (Some (Queue (size_decr (q_size q)) (q_cmp q) (q_cmp_r q)
                            (q_head q) (n_prev tl') m), Some (n_x tl'))
        else if (c =? 1)%Z then Done (Some q, None)
        else
          (* check body *)
          '(q', r) ← remove_body_r (S (size (q_nodes q))) q x y (n_next hd);
          Done (Some q', r)
    end
  end.

(** The chain [q] with its plain comparator field set to [c]. *)
Definition set_cmp (c : option (A → A → Z)) (q : queues_t A Y)
    : queues_t A Y :=
  Queue (q_size q) c (q_cmp_r q) (q_head q) (q_tail q) (q_nodes q).

(** The comparator [cmp_r] with its context fixed to [y]. *)
Definition close_cmp (cmp_r : option (A → A → Y → Z)) (y : Y)
    : option (A → A → Z) :=
  match cmp_r with Some f => Some (λ a b, f a b y) | None => None end.
End queues_r.

(** ** The shallow directory: traversal without context *)

Section hashtabs_more.
Context {A Y H : Type}.

(** The loop of [hashtabs_map]. *)
Fixpoint map_slots (n i : nat) (t : hashtabs_t A Y H)
    (apply : A → outcome (A * Z)) : outcome (hashtabs_t A Y H * Z) :=
  match n with
  | O => Done (t, 1%Z)
  | S n =>
    slot ← array_get (t_A t) i;
    '(q, r) ← queues_map slot apply;
    let t := set_A t (<[i := q]> (t_A t)) in
    if (r <? 0)%Z then Done (t, (-1)%Z)
    else map_slots n (S i) t apply
  end.

Definition hashtabs_map (t : hashtabs_t A Y H) (apply : A → outcome (A * Z))
    : outcome (hashtabs_t A Y H * Z) :=
  map_slots (Z.to_nat (prime_at (t_cap_index t))) 0 t apply.
End hashtabs_more.

(** ** The standard hash function (hashtabs.c and deephashtabs.c)

    [hashtabs_stdhash(_a, _n)] and [dhashtabs_stdhash(_a, _n)] read the
    count [n] behind [_n] and hash the [n] words of 32 bits behind [_a]. *)

(** The three lines that scramble one word, in 64-bit arithmetic. *)
Definition stdhash_mix (x : Z) : Z :=
  let x := to_size_t (Z.lxor (Z.shiftr x 16) x * 0x45d9f3b) in
  let x := to_size_t (Z.lxor (Z.shiftr x 16) x * 0x45d9f3b) in
  Z.lxor (Z.shiftr x 16) x.

(** [seed ^= x + 0x9e3779b9 + (seed << 6) + (seed >> 2)]. *)
Definition stdhash_step (seed x : Z) : Z :=
  Z.lxor seed
    (to_size_t (x + 0x9e3779b9 + to_size_t (Z.shiftl seed 6)
                + Z.shiftr seed 2)).

Fixpoint stdhash_loop (rounds : nat) (a : list Z) (i : nat) (seed : Z)
    : outcome Z :=
  match rounds with
  | O => Done seed
  | S rounds =>
    x ← array_get a i;
    stdhash_loop rounds a (S i) (stdhash_step seed (stdhash_mix x))
  end.

Definition hashtabs_stdhash (a : list Z) (n : Z) : outcome Z :=
  stdhash_loop (Z.to_nat n) a 0 n.
(** ** What a chain stores

    A chain is described by the list [l] of its nodes from head to tail,
    each with its address and payload.  [dlseg m pv l nx] says that the
    store [m] holds the nodes of [l] linked in both directions, the first
    one pointing back to [pv] and the last one on to [nx]. *)

Section chain_rep.
Context {A : Type}.
Implicit Types (m : gmap ptr (node_t A)) (l : list (ptr * A)).
Implicit Types (p pv nx : option ptr) (a : ptr).

Definition first_ptr l (d : option ptr) : option ptr :=
  match l with [] => d | (a, _) :: _ => Some a end.

Definition last_ptr l (d : option ptr) : option ptr :=
  match last l with None => d | Some (a, _) => Some a end.

Fixpoint dlseg m pv l nx : Prop :=
  match l with
  | [] => True
  | (a, v) :: l' =>
    m !! a = Some (Node v pv (first_ptr l' nx)) ∧ dlseg m (Some a) l' nx
  end.

(** The links of a whole chain.  Nothing is said of the tail pointer of an
    empty chain. *)
Record chain_links m (hd tl : option ptr) l : Prop := ChainLinks {
  links_nodup : NoDup l.*1;
  links_seg : dlseg m None l None;
  links_head : hd = first_ptr l None;
  links_tail : l ≠ [] → tl = last_ptr l None;
}.
End chain_rep.
(** ** What the chain operations compute on the stored sequence

    The functions below follow the control flow of the C operations on the
    sequence of payloads from head to tail; [queues_refine] shows that the
    operations on the linked nodes compute them. *)

Section chain_model.
Context {A : Type} (cmp : A → A → Z).
Implicit Types (x y : A) (xs ys : list A).

(** The comparator only returns [-1], [0] or [1]. *)
Definition cmp_range : Prop :=
  ∀ a b, cmp a b = (-1)%Z ∨ cmp a b = 0%Z ∨ cmp a b = 1%Z.

(** The body scan of the insertion, on the nodes after [tmp]. *)
Fixpoint scan_vals x ys : list A :=
  match ys with
  | [] => []
  | y :: ys' =>
    if (cmp x y =? -1)%Z then x :: ys
    else if (cmp x y =? 0)%Z then ys
    else y :: scan_vals x ys'
  end.

Definition enq_vals x xs : list A :=
  match xs with
  | [] => [x]
  | h :: rest =>
    let t := List.last xs h in
    if (cmp x t =? 0)%Z then xs
    else if (cmp x t =? 1)%Z then xs ++ [x]
    else if (cmp x h =? -1)%Z then x :: xs
    else if (cmp x h =? 0)%Z then xs
    else h :: scan_vals x rest
  end.

Fixpoint find_vals x xs : option A :=
  match xs with
  | [] => None
  | y :: ys =>
    if (cmp x y =? -1)%Z then None
    else if (cmp x y =? 0)%Z then Some y
    else find_vals x ys
  end.

(** The body scan of the removal, on the nodes after the head; the last
    one is the tail, where the scan stops. *)
Fixpoint rscan_vals x ys : list A * option A :=
  match ys with
  | [] => ([], None)
  | y :: ys' =>
    match ys' with
    | [] => (ys, None)
    | _ :: _ =>
      if (cmp x y =? -1)%Z then (ys, None)
      else if (cmp x y =? 0)%Z then (ys', Some y)
      else let '(r, o) := rscan_vals x ys' in (y :: r, o)
    end
  end.

Definition remove_vals x xs : list A * option A :=
  match xs with
  | [] => ([], None)
  | h :: rest =>
    if (cmp x h =? -1)%Z then (xs, None)
    else if (cmp x h =? 0)%Z then (rest, Some h)
    else
      let t := List.last xs h in
      if (cmp x t =? 0)%Z then (removelast xs, Some t)
      else if (cmp x t =? 1)%Z then (xs, None)
      else let '(r, o) := rscan_vals x rest in (h :: r, o)
  end.

(** One pass over the payloads with a callback that updates the object
    behind its context pointer. *)
Fixpoint visit {St : Type} (g : A → St → outcome St) xs (y : St)
    : outcome St :=
  match xs with
  | [] => Done y
  | v :: xs' => y' ← g v y; visit g xs' y'
  end.
End chain_model.
Arguments visit {A St} g xs y.
(** A chain handle [q] with comparator [cmp] whose nodes are those of [l]. *)

Section chain_rep_def.
Context {A Y : Type} (cmp : A → A → Z).
Implicit Types (q : queues_t A Y) (l : list (ptr * A)).

Record chain_rep q l : Prop := ChainRep {
  rep_cmp : q_cmp q = Some cmp;
  rep_links : chain_links (q_nodes q) (q_head q) (q_tail q) l;
}.
End chain_rep_def.
(** ** Linear orders and ascending sequences *)

(** A three-way comparator of a linear order: it answers [-1], [0] or [1],
    swapping the arguments negates the answer, "less than" is transitive and
    arguments that compare equal compare alike with everything. *)
Record LinearOrder {A : Type} (cmp : A → A → Z) : Prop := {
  lo_range : cmp_range cmp;
  lo_refl : ∀ a, cmp a a = 0%Z;
  lo_antisym : ∀ a b, cmp b a = (- cmp a b)%Z;
  lo_trans : ∀ a b c, cmp a b = (-1)%Z → cmp b c = (-1)%Z → cmp a c = (-1)%Z;
  lo_eq_l : ∀ a b c, cmp a b = 0%Z → cmp a c = cmp b c;
}.

Section sorted_defs.
Context {A : Type} (cmp : A → A → Z).
Implicit Types (x y v w : A) (xs ys : list A).

Definition below x y : Prop := cmp x y = (-1)%Z.

(** Ascending from head to tail; [ascending_adjacent] gives the reading on
    neighbours. *)
Definition ascending xs : Prop := StronglySorted below xs.

(** The sorted insertion and removal the chain operations amount to on an
    ascending sequence. *)
Fixpoint ins x xs : list A :=
  match xs with
  | [] => [x]
  | y :: ys =>
    if (cmp x y =? -1)%Z then x :: xs
    else if (cmp x y =? 0)%Z then xs
    else y :: ins x ys
  end.

Fixpoint del x xs : list A * option A :=
  match xs with
  | [] => ([], None)
  | y :: ys =>
    if (cmp x y =? -1)%Z then (xs, None)
    else if (cmp x y =? 0)%Z then (ys, Some y)
    else let '(r, o) := del x ys in (y :: r, o)
  end.

End sorted_defs.

(** ** Well-formed chains, traversal and runs of operations *)

Section chain_ok_def.
Context {A Y : Type}.
Implicit Types (q : queues_t A Y).

(** The chain [q] holds the payloads [xs] from head to tail, in ascending
    order under its comparator [cmp]. *)
Definition chain_ok (cmp : A → A → Z) q (xs : list A) : Prop :=
  ∃ l, chain_rep cmp q l ∧ l.*2 = xs ∧ ascending cmp xs.

(** Traversing the chain from head to tail with [queues_map_r], the callback
    appending each payload to the list behind its context pointer. *)
Definition collect (v : A) (acc : list A) : outcome (A * list A * Z) :=
  Done (v, acc ++ [v], 1%Z).

Definition queues_to_list q : outcome (list A) :=
  '(_, xs, _) ← queues_map_r (Some q) collect [];
  Done xs.

(** The operations that change a chain. *)
Inductive chain_op : Type :=
| Enqueu (x : A)
| Remove (x : A)
| DequeueFront
| DequeueBack.

Definition run_op q (op : chain_op) : outcome (queues_t A Y) :=
  match op with
  | Enqueu x => queues_enqueu q x
  | Remove x =>
    '(q', _) ← queues_remove (Some q) x;
    match q' with Some q' => Done q' | None => Undefined end
  | DequeueFront => '(q', _) ← queues_dequeue_front q; Done q'
  | DequeueBack => '(q', _) ← queues_dequeue_back q; Done q'
  end.

Fixpoint run_ops q (ops : list chain_op) : outcome (queues_t A Y) :=
  match ops with
  | [] => Done q
  | op :: ops => q' ← run_op q op; run_ops q' ops
  end.
End chain_ok_def.
Arguments chain_op : clear implicits.

(** The deep chain [q] holds the copies [xs] from head to tail, in ascending
    order under its comparator [cmp]. *)
Definition dchain_ok {Y : Type} (cmp : bytes → bytes → Z) (q : dqueues_t Y)
    (xs : list bytes) : Prop :=
  ∃ l, dq_cmp q = Some cmp ∧
       chain_links (dq_nodes q) (dq_head q) (dq_tail q) l ∧
       l.*2 = xs ∧ ascending cmp xs.

(** ** Well-formed directories *)

Section directory_def.
Context {A Y H : Type}.
Implicit Types (t : hashtabs_t A Y H) (bs : list (list A)) (x : A).

(** The slot [hashtabs_insert] sends [x] to. *)
Definition slot_of (hash : A → Z) (cap_index : Z) (x : A) : nat :=
  Z.to_nat (to_size_t (hash x) mod prime_at cap_index).

(** A slot of the bucket array and the payloads it stands for. *)
Definition slot_ok (cmp : A → A → Z) (s : option (queues_t A Y))
    (b : list A) : Prop :=
  match s with None => b = [] | Some q => chain_ok cmp q b end.

(** No two keys of the list compare equal: the list has no repetition, and
    keys in it that compare equal are the same key. *)
Definition distinct_keys (cmp : A → A → Z) (ks : list A) : Prop :=
  NoDup ks ∧ ∀ v w, v ∈ ks → w ∈ ks → cmp v w = 0%Z → v = w.

(** The directory [t] has comparator [cmp], hash function [hash], and its
    slots hold the buckets [bs], in slot order. *)
Record hashtabs_ok (cmp : A → A → Z) (hash : A → Z) t bs : Prop := HashtabsOk {
  ok_cmp : t_cmp t = Some cmp;
  ok_hash : t_hash t = Some hash;
  ok_cap : (0 ≤ t_cap_index t ≤ NPRIMES)%Z;
  ok_len : length (t_A t) = Z.to_nat (prime_at (t_cap_index t));
  ok_slots : Forall2 (slot_ok cmp) (t_A t) bs;
  ok_size : (0 ≤ t_size t ≤ SIZE_MAX)%Z;
  ok_load : (0 ≤ t_load t ≤ SIZE_MAX)%Z;
}.

(** A directory whose entries are pairwise distinct and counted by [size]
    at least once each; [directory_reachable] shows that the directories
    built by inserts and removals are such when the hash function respects
    the comparator. *)
Definition directory_ok (cmp : A → A → Z) (hash : A → Z) t bs : Prop :=
  hashtabs_ok cmp hash t bs ∧ distinct_keys cmp (concat bs) ∧
  (Z.of_nat (length (concat bs)) ≤ t_size t)%Z.

(** The hash function sends keys that compare equal to the same value. *)
Definition hash_respects (cmp : A → A → Z) (hash : A → Z) : Prop :=
  ∀ a b, cmp a b = 0%Z → hash a = hash b.

(** Every key sits in the bucket of the slot it hashes to. *)
Definition placed (hash : A → Z) (cap_index : Z) bs : Prop :=
  ∀ i b v, bs !! i = Some b → v ∈ b → slot_of hash cap_index v = i.

(** The invariant of the runs of inserts and removals: the keys are placed,
    [size] counts each entry at least once, and [k] more operations do not
    wrap it. *)
Definition run_inv (cmp : A → A → Z) (hash : A → Z) (k : nat) t bs : Prop :=
  hashtabs_ok cmp hash t bs ∧ placed hash (t_cap_index t) bs ∧
  (Z.of_nat (length (concat bs)) ≤ t_size t)%Z ∧
  (t_size t + Z.of_nat k ≤ SIZE_MAX)%Z.

(** What the directory operations compute on the buckets. *)
Fixpoint find_buckets (cmp : A → A → Z) x bs : option A :=
  match bs with
  | [] => None
  | b :: bs' =>
    match find_vals cmp x b with
    | Some v => Some v
    | None => find_buckets cmp x bs'
    end
  end.

Fixpoint remove_buckets (cmp : A → A → Z) x bs : list (list A) * option A :=
  match bs with
  | [] => ([], None)
  | b :: bs' =>
    match del cmp x b with
    | (b', Some v) => (b' :: bs', Some v)
    | (b', None) =>
      let '(r, o) := remove_buckets cmp x bs' in (b' :: r, o)
    end
  end.

(** Insertion on the buckets of a directory with capacity index
    [cap_index]. *)
Definition insert_bucket (cmp : A → A → Z) (hash : A → Z) (cap_index : Z)
    bs x : list (list A) :=
  let i := slot_of hash cap_index x in
  match bs !! i with
  | Some b => <[i := ins cmp x b]> bs
  | None => bs
  end.

(** Inserting the keys [ks] one after the other. *)
Definition insert_all t (ks : list A) : outcome (hashtabs_t A Y H) :=
  visit (λ x t, hashtabs_insert t x) ks t.

(** Full traversal with [hashtabs_map_r], collecting the entries. *)
Definition hashtabs_to_list t : outcome (list A) :=
  '(_, xs, _) ← hashtabs_map_r t collect [];
  Done xs.

(** The number of chains that hold at least one entry. *)
Definition chain_nonempty (s : option (queues_t A Y)) : bool :=
  match s with
  | Some q => match q_head q with Some _ => true | None => false end
  | None => false
  end.

Definition nonempty_chains t : Z :=
  Z.of_nat (length (List.filter chain_nonempty (t_A t))).

(** The operations that change a directory. *)
Inductive dir_op : Type :=
| Insert (x : A)
| Delete (x : A).

Definition run_dir_op t (op : dir_op) : outcome (hashtabs_t A Y H) :=
  match op with
  | Insert x => hashtabs_insert t x
  | Delete x => '(t', _) ← hashtabs_remove t x; Done t'
  end.

Fixpoint run_dir_ops t (ops : list dir_op) : outcome (hashtabs_t A Y H) :=
  match ops with
  | [] => Done t
  | op :: ops => t' ← run_dir_op t op; run_dir_ops t' ops
  end.
End directory_def.
Arguments dir_op : clear implicits.

(** ** The size field and the nodes of a chain *)

(** A well-formed chain whose size field counts its entries and whose store
    holds one node per entry, with room for [k] more entries before the
    count wraps. *)
Definition chain_sized {A Y : Type} (cmp : A → A → Z) (k : nat)
    (q : queues_t A Y) (xs : list A) : Prop :=
  chain_ok cmp q xs ∧ queues_size q = Z.of_nat (length xs) ∧
  size (q_nodes q) = length xs ∧
  (Z.of_nat (length xs) + Z.of_nat k ≤ SIZE_MAX)%Z.

(** [q'] has one node more than [q], or one node less, and a size field
    moved to match. *)
Definition chain_grown {A Y : Type} (q q' : queues_t A Y) : Prop :=
  q_size q' = match q_head q with
              | Some _ => size_incr (q_size q)
              | None => 1%Z
              end ∧
  size (q_nodes q') = S (size (q_nodes q)).

Definition chain_shrunk {A Y : Type} (q q' : queues_t A Y) : Prop :=
  q_size q' = size_decr (q_size q) ∧
  size (q_nodes q) = S (size (q_nodes q')).

(** ** What a traversal with a callback computes on the stored sequence *)

(** The callback is run on the payloads from head to tail; each call may
    replace the payload and updates the context; the first call that returns
    a negative value ends the traversal with [-1], and a traversal that
    reaches the end returns [1]. *)
Fixpoint map_vals {A St : Type} (apply : A → St → outcome (A * St * Z))
    (xs : list A) (y : St) : outcome (list A * St * Z) :=
  match xs with
  | [] => Done ([], y, 1%Z)
  | v :: xs' =>
    '(v', y', r) ← apply v y;
    if (r <? 0)%Z then Done (v' :: xs', y', (-1)%Z)
    else
      '(vs, y'', r') ← map_vals apply xs' y';
      Done (v' :: vs, y'', r')
  end.

(** ** The load counter *)

(** The load counter of [t] is the number of chains that hold an entry, no
    chain is allocated and empty, and the load is at most the size. *)
Definition load_ok {A Y H : Type} (t : hashtabs_t A Y H) : Prop :=
  t_load t = nonempty_chains t ∧
  Forall (λ s, s = None ∨ chain_nonempty s = true) (t_A t) ∧
  (t_load t ≤ t_size t)%Z.

(** ** The deep chain seen as a shallow chain of its copies *)

Section dqueues_view.
Context {Y : Type}.

(** The shallow chain with the fields of the deep chain [q], [nmems] for
    [size]. *)
Definition dq_view (q : dqueues_t Y) : queues_t bytes Y :=
  Queue (dq_nmems q) (dq_cmp q) (dq_cmp_r q) (dq_head q) (dq_tail q)
        (dq_nodes q).

(** The deep chain for payloads of [size] bytes with the fields of [q]. *)
Definition dq_of (size : Z) (q : queues_t bytes Y) : dqueues_t Y :=
  DQueue size (q_size q) (q_cmp q) (q_cmp_r q) (q_head q) (q_tail q)
         (q_nodes q).

(** The operations that change a deep chain. *)
Inductive dchain_op : Type :=
| DEnqueu (x : bytes)
| DRemove (x : bytes)
| DDequeueFront
| DDequeueBack.

Definition drun_op (q : dqueues_t Y) (op : dchain_op) : outcome (dqueues_t Y) :=
  match op with
  | DEnqueu x => dqueues_enqueu q x
  | DRemove x =>
    '(q', _) ← dqueues_remove (Some q) x;
    match q' with Some q' => Done q' | None => Undefined end
  | DDequeueFront => '(q', _) ← dqueues_dequeue_front q; Done q'
  | DDequeueBack => '(q', _) ← dqueues_dequeue_back q; Done q'
  end.

Fixpoint drun_ops (q : dqueues_t Y) (ops : list dchain_op)
    : outcome (dqueues_t Y) :=
  match ops with
  | [] => Done q
  | op :: ops => q' ← drun_op q op; drun_ops q' ops
  end.

(** The shallow operation that a deep one corresponds to. *)
Definition shallow_op (op : dchain_op) : chain_op bytes :=
  match op with
  | DEnqueu x => Enqueu x
  | DRemove x => Remove x
  | DDequeueFront => DequeueFront
  | DDequeueBack => DequeueBack
  end.

(** The records an operation passes in have [size] bytes. *)
Definition op_sized (size : Z) (op : dchain_op) : Prop :=
  match op with
  | DEnqueu x => Z.of_nat (length x) = size
  | _ => True
  end.

(** Traversal of the deep chain, collecting the copies. *)
Definition dqueues_to_list (q : dqueues_t Y) : outcome (list bytes) :=
  '(_, xs, _) ← dqueues_map_r (Some q) collect [];
  Done xs.
End dqueues_view.

(** ** Primality by trial division *)

(** No [e] with [d ≤ e], [e * e ≤ n] and [e < d + fuel] divides [n]. *)
Fixpoint no_divisor (fuel : nat) (d n : Z) : bool :=
  match fuel with
  | O => true
  | S fuel =>
    if (n <? d * d)%Z then true
    else if (n mod d =? 0)%Z then false
    else no_divisor fuel (d + 1)%Z n
  end.

Definition is_prime (n : Z) : bool :=
  (1 <? n)%Z && no_divisor (Z.to_nat (Z.sqrt n)) 2 n.

(** One pass over the entries with a callback that reads them: it updates
    the context and says whether to go on; the first negative answer ends
    the pass with [-1], and a pass that reaches the end gives [1]. *)
Fixpoint visit_until {A St : Type} (g : A → St → outcome (St * Z))
    (xs : list A) (y : St) : outcome (St * Z) :=
  match xs with
  | [] => Done (y, 1%Z)
  | v :: xs' =>
    '(y', r) ← g v y;
    if (r <? 0)%Z then Done (y', (-1)%Z) else visit_until g xs' y'
  end.

(** ** Draining a chain *)

(** [n] calls of [queues_dequeue_front], or of [queues_dequeue_back],
    collecting what they return. *)
Fixpoint drain_front {A Y : Type} (n : nat) (q : queues_t A Y)
    : outcome (queues_t A Y * list (option A)) :=
  match n with
  | O => Done (q, [])
  | S n =>
    '(q, r) ← queues_dequeue_front q;
    '(q, rs) ← drain_front n q;
    Done (q, r :: rs)
  end.

Fixpoint drain_back {A Y : Type} (n : nat) (q : queues_t A Y)
    : outcome (queues_t A Y * list (option A)) :=
  match n with
  | O => Done (q, [])
  | S n =>
    '(q, r) ← queues_dequeue_back q;
    '(q, rs) ← drain_back n q;
    Done (q, r :: rs)
  end.

(** ** Concrete chains and directories

    Integer keys under the usual order, hashed to themselves, and four-byte
    records compared and hashed by their little-endian value. *)

Definition zcmp (a b : Z) : Z :=
  match (a ?= b)%Z with Lt => (-1)%Z | Eq => 0%Z | Gt => 1%Z end.

Definition zhash (a : Z) : Z := a.

(** The value of an outcome that returned, [d] otherwise. *)
Definition returned {T : Type} (d : T) (o : outcome T) : T :=
  match o with Done v => v | _ => d end.

(** [queues_new(zcmp, NULL)]. *)
Definition zchain : queues_t Z unit := Queue 0 (Some zcmp) None None None ∅.

(** [hashtabs_new(zcmp, NULL, zhash, NULL, n)]. *)
Definition ztable (n : Z) : hashtabs_t Z unit unit :=
  hashtabs_new (Some zcmp) None (Some zhash) None n.

(** The directory expecting 5 elements, after inserting 5, 1
    and 3. *)
Definition ztable_513 : hashtabs_t Z unit unit :=
  returned (ztable 5) (insert_all (ztable 5) [5; 1; 3]%Z).

(** The chain holding 1, 3 and 5. *)
Definition zchain_135 : queues_t Z unit :=
  returned zchain (run_ops zchain [Enqueu 5; Enqueu 1; Enqueu 3]%Z).

Definition byte_key (b : bytes) : Z :=
  fold_right (λ c acc, Z.of_N (Byte.to_N c) + 256 * acc)%Z 0%Z b.

Definition bcmp (a b : bytes) : Z := zcmp (byte_key a) (byte_key b).

Definition bhash (a : bytes) : Z := byte_key a.

(** The four-byte records holding 5 and 7. *)
Definition rec5 : bytes := [Byte.x05; Byte.x00; Byte.x00; Byte.x00].
Definition rec7 : bytes := [Byte.x07; Byte.x00; Byte.x00; Byte.x00].

(** [dqueues_new(bcmp, NULL, 4)]. *)
Definition dchain : dqueues_t unit := DQueue 4 0 (Some bcmp) None None None ∅.

(** The deep chain holding copies of [rec5] and [rec7]. *)
Definition dchain_57 : dqueues_t unit :=
  returned dchain (q ← dqueues_enqueu dchain rec7; dqueues_enqueu q rec5).

(** [dhashtabs_new(bcmp, NULL, bhash, NULL, 5, 4)]: a deep directory for
    four-byte records, expecting 5 of them. *)
Definition dtable : dhashtabs_t unit unit :=
  dhashtabs_new (Some bcmp) None (Some bhash) None 5 4.


(** A comparator by sign, as [strcmp] answers: negative, zero or positive,
    not only [-1], [0] or [1]. *)
Definition zdiff (a b : Z) : Z := (a - b)%Z.

(** The hash function that keeps the keys of one decade together. *)
Definition ztens (a : Z) : Z := (a / 10)%Z.

(** [queues_new(zdiff, NULL)], and the chain after enqueueing 0, 1, 2, 3
    and 4, each accepted at the tail. *)
Definition zchain_diff : queues_t Z unit :=
  Queue 0 (Some zdiff) None None None ∅.

Definition zchain_diff_01234 : queues_t Z unit :=
  returned zchain_diff (run_ops zchain_diff (Enqueu <$> [0; 1; 2; 3; 4]%Z)).

(** [hashtabs_new(zdiff, NULL, ztens, NULL, 5)] after inserting 0, 1, 2, 3
    and 4, which share slot 0. *)
Definition ztable_diff_01234 : hashtabs_t Z unit unit :=
  let t := hashtabs_new (Some zdiff) None (Some ztens) None 5 in
  returned t (insert_all t [0; 1; 2; 3; 4]%Z).

(** Integer keys compared by their residue modulo 17: a linear order in
    which 5 and 22 compare equal. *)
Definition cmp17 (a b : Z) : Z := zcmp (a mod 17) (b mod 17).

(** [hashtabs_new(cmp17, NULL, zhash, NULL, 5)] after inserting 5 and 22:
    the two keys compare equal and sit in the slots 5 and 0. *)
Definition ztable17_5_22 : hashtabs_t Z unit unit :=
  let t := hashtabs_new (Some cmp17) None (Some zhash) None 5 in
  returned t (insert_all t [5; 22]%Z).
(** ** Stepping through the outcome monad *)

Section outcome_steps.
Context {A : Type}.
Implicit Types (m : gmap ptr (node_t A)) (a : ptr).

Lemma bind_Done {T U} (v : T) (f : T → outcome U) : (Done v ≫= f) = f v.
Proof. done. Qed.

Lemma bind_Done_inv {T U} (c : outcome T) (f : T → outcome U) (u : U) :
  c ≫= f = Done u → ∃ v, c = Done v ∧ f v = Done u.
Proof. destruct c; [eauto|done..]. Qed.

Lemma load_node_Some m a n : m !! a = Some n → load_node m (Some a) = Done n.
Proof. intros H. simpl. by rewrite H. Qed.

Lemma store_prev_Some m a n v :
  m !! a = Some n →
  store_prev m a v = Done (<[a := Node (n_x n) v (n_next n)]> m).
Proof. intros H. unfold store_prev. by rewrite (load_node_Some _ _ _ H). Qed.

Lemma store_next_Some m a n v :
  m !! a = Some n →
  store_next m a v = Done (<[a := Node (n_x n) (n_prev n) v]> m).
Proof. intros H. unfold store_next. by rewrite (load_node_Some _ _ _ H). Qed.

Lemma store_x_Some m a n v :
  m !! a = Some n →
  store_x m a v = Done (<[a := Node v (n_prev n) (n_next n)]> m).
Proof. intros H. unfold store_x. by rewrite (load_node_Some _ _ _ H). Qed.

Lemma free_node_Some m a n : m !! a = Some n → free_node m a = Done (delete a m).
Proof. intros H. unfold free_node. by rewrite H. Qed.
End outcome_steps.
(** Side conditions on addresses: distinctness and membership. *)
Lemma NoDup_mid {T} (l1 l2 : list T) a :
  NoDup (l1 ++ a :: l2) ↔ NoDup (l1 ++ l2) ∧ a ∉ l1 ∧ a ∉ l2.
Proof. rewrite !NoDup_app, NoDup_cons. set_solver. Qed.

Ltac nodup_norm :=
  repeat match goal with
  | H : @eq (list _) _ _ |- _ => clear H
  | H : context [ fst <$> (_ ++ _) ] |- _ => rewrite fmap_app in H
  | H : context [ fst <$> (_ :: _) ] |- _ => rewrite fmap_cons in H
  | H : context [ fst <$> [] ] |- _ => rewrite fmap_nil in H
  | H : context [ (_ ++ _) ++ _ ] |- _ => rewrite <-app_assoc in H
  | |- context [ fst <$> (_ ++ _) ] => rewrite fmap_app
  | |- context [ fst <$> (_ :: _) ] => rewrite fmap_cons
  | |- context [ fst <$> [] ] => rewrite fmap_nil
  | |- context [ (_ ++ _) ++ _ ] => rewrite <-app_assoc
  end; cbn [fst app] in *;
  repeat match goal with
  | H : NoDup (_ ++ _ :: _) |- _ => apply NoDup_mid in H as (H & ? & ?)
  | H : NoDup (_ :: _) |- _ => apply NoDup_cons in H as (? & H)
  | H : _ ∉ _ ++ _ |- _ => apply not_elem_of_app in H as (? & ?)
  | H : _ ∉ _ :: _ |- _ => apply not_elem_of_cons in H as (? & ?)
  | H : context [ _ ++ [] ] |- _ => rewrite app_nil_r in H
  end.
Ltac nodup :=
  nodup_norm;
  rewrite ?NoDup_mid, ?NoDup_cons, ?not_elem_of_app, ?not_elem_of_cons,
    ?app_nil_r;
  repeat split; try done; try congruence;
  try apply NoDup_nil_2; try apply not_elem_of_nil.
(** ** Facts on linked segments *)

Section chain_rep_facts.
Context {A : Type}.
Implicit Types (m : gmap ptr (node_t A)) (l : list (ptr * A)).
Implicit Types (p pv nx : option ptr) (a : ptr).

Lemma last_ptr_snoc l a v d : last_ptr (l ++ [(a, v)]) d = Some a.
Proof. unfold last_ptr. by rewrite last_snoc. Qed.

Lemma last_ptr_cons b w l d :
  last_ptr ((b, w) :: l) d = last_ptr l (Some b).
Proof.
  unfold last_ptr. destruct l as [|[c u] l]; [done|].
  rewrite last_cons_cons.
  destruct (last ((c, u) :: l)) as [[]|] eqn:E; [done|].
  by apply last_None in E.
Qed.

Lemma first_ptr_app l1 l2 d :
  first_ptr (l1 ++ l2) d = first_ptr l1 (first_ptr l2 d).
Proof. by destruct l1 as [|[] ?]. Qed.

Lemma last_ptr_app l1 l2 d :
  last_ptr (l1 ++ l2) d = last_ptr l2 (last_ptr l1 d).
Proof.
  induction l2 as [|[b w] l2 _] using rev_ind.
  - by rewrite app_nil_r.
  - by rewrite app_assoc, !last_ptr_snoc.
Qed.

Lemma dlseg_app m pv l1 l2 nx :
  dlseg m pv (l1 ++ l2) nx ↔
  dlseg m pv l1 (first_ptr l2 nx) ∧ dlseg m (last_ptr l1 pv) l2 nx.
Proof.
  revert pv. induction l1 as [|[a v] l1 IH]; intros pv.
  - simpl. unfold last_ptr. simpl. tauto.
  - rewrite last_ptr_cons. simpl. rewrite IH, first_ptr_app. tauto.
Qed.

(** Only the nodes of the segment matter. *)
Lemma dlseg_frame m m' pv l nx :
  (∀ a, a ∈ l.*1 → m' !! a = m !! a) →
  dlseg m pv l nx → dlseg m' pv l nx.
Proof.
  revert pv. induction l as [|[a v] l IH]; intros pv Hm; [done|].
  simpl. intros [Ha Hl]. split.
  - rewrite Hm; [done|]. simpl. apply elem_of_cons. by left.
  - apply IH; [|done]. intros b Hb. apply Hm. simpl.
    apply elem_of_cons. by right.
Qed.

Lemma dlseg_allocated m pv l nx a :
  dlseg m pv l nx → a ∈ l.*1 → is_Some (m !! a).
Proof.
  revert pv. induction l as [|[b v] l IH]; intros pv; simpl.
  - set_solver.
  - intros [Hb Hl] Ha. apply elem_of_cons in Ha as [Ha|Ha]; [|by eauto].
    subst a. by eexists.
Qed.

Lemma dlseg_dom m pv l nx :
  dlseg m pv l nx → list_to_set l.*1 ⊆ dom m.
Proof.
  intros Hl a Ha%elem_of_list_to_set. apply elem_of_dom.
  by eapply dlseg_allocated.
Qed.

Lemma dlseg_length m pv l nx :
  NoDup l.*1 → dlseg m pv l nx → length l ≤ size m.
Proof.
  intros Hnd Hl. rewrite <-(length_fmap fst l), <-size_dom.
  rewrite <-(size_list_to_set (C:=gset ptr) l.*1) by done.
  apply subseteq_size. by eapply dlseg_dom.
Qed.

Lemma dlseg_insert_ne m pv l nx a n :
  a ∉ l.*1 → dlseg m pv l nx → dlseg (<[a := n]> m) pv l nx.
Proof.
  intros Ha. apply dlseg_frame. intros b Hb.
  apply lookup_insert_ne. by intros ->.
Qed.

Lemma dlseg_delete_ne m pv l nx a :
  a ∉ l.*1 → dlseg m pv l nx → dlseg (delete a m) pv l nx.
Proof.
  intros Ha. apply dlseg_frame. intros b Hb.
  apply lookup_delete_ne. by intros ->.
Qed.

(** Changing what the first node points back to, or the last one on to. *)
Lemma dlseg_set_prev m pv pv' a v l nx :
  a ∉ l.*1 →
  dlseg m pv ((a, v) :: l) nx →
  dlseg (<[a := Node v pv' (first_ptr l nx)]> m) pv' ((a, v) :: l) nx.
Proof.
  intros Ha [_ Hl]. split; [by rewrite lookup_insert_eq|].
  by apply dlseg_insert_ne.
Qed.

Lemma dlseg_set_next m pv l a v nx nx' :
  a ∉ l.*1 →
  dlseg m pv (l ++ [(a, v)]) nx →
  dlseg (<[a := Node v (last_ptr l pv) nx']> m) pv (l ++ [(a, v)]) nx'.
Proof.
  intros Ha [Hl _]%dlseg_app. apply dlseg_app. split.
  - by apply dlseg_insert_ne.
  - simpl. by rewrite lookup_insert_eq.
Qed.

Lemma malloc_fresh m : m !! malloc m = None.
Proof. apply not_elem_of_dom. unfold malloc. apply is_fresh. Qed.

Lemma dlseg_malloc m pv l nx : dlseg m pv l nx → malloc m ∉ l.*1.
Proof.
  intros Hl Hin. destruct (dlseg_allocated _ _ _ _ _ Hl Hin) as [n Hn].
  by rewrite malloc_fresh in Hn.
Qed.
End chain_rep_facts.
(** ** The chain operations on linked nodes compute the chain model *)

Section queues_refine.
Context {A Y : Type} (cmp : A → A → Z).
Implicit Types (q : queues_t A Y) (l : list (ptr * A)) (x : A).

Local Abbreviation chain_rep := (chain_rep cmp).

Lemma chain_rep_inv q l :
  chain_rep q l →
  q_cmp q = Some cmp ∧ NoDup l.*1 ∧ dlseg (q_nodes q) None l None ∧
  q_head q = first_ptr l None ∧ (l ≠ [] → q_tail q = last_ptr l None).
Proof. intros [? []]. done. Qed.

Lemma enqueu_body_refine q x l2 : ∀ l1 a va fuel,
  cmp_range cmp →
  q_cmp q = Some cmp →
  NoDup (l1 ++ (a, va) :: l2).*1 →
  dlseg (q_nodes q) None (l1 ++ (a, va) :: l2) None →
  length l2 < fuel →
  ∃ q' l2',
    enqueu_body fuel q x a = Done q' ∧
    l2'.*2 = scan_vals cmp x l2.*2 ∧
    NoDup (l1 ++ (a, va) :: l2').*1 ∧
    dlseg (q_nodes q') None (l1 ++ (a, va) :: l2') None ∧
    last_ptr l2' (Some a) = last_ptr l2 (Some a) ∧
    q_cmp q' = q_cmp q ∧ q_cmp_r q' = q_cmp_r q ∧
    q_head q' = q_head q ∧ q_tail q' = q_tail q ∧
    (length l2' = length l2 → q' = q).
Proof.
  induction l2 as [|[b vb] l3 IH]; intros l1 a va fuel Hr Hc Hnd Hseg Hf.
  - destruct fuel as [|fuel]; [lia|].
    pose proof Hseg as Hseg0.
    apply dlseg_app in Hseg as [_ [Ha _]]. simpl in Ha.
    exists q, []. simpl. rewrite Ha. simpl. repeat split; done.
  - destruct fuel as [|fuel]; [simpl in Hf; lia|].
    pose proof Hseg as Hseg0.
    apply dlseg_app in Hseg as [Hl1 [Ha [Hb Hl3]]]. simpl in Ha, Hb.
    cbn [enqueu_body].
    rewrite (load_node_Some _ _ _ Ha), bind_Done. cbn [n_next].
    rewrite (load_node_Some _ _ _ Hb), bind_Done, Hc.
    cbn [call n_x]. rewrite bind_Done.
    cbn [fmap list_fmap scan_vals snd].
    destruct (Z.eqb_spec (cmp x vb) (-1)) as [E1|E1].
    { set (new := malloc (q_nodes q)).
      assert (Hnl : new ∉ (l1 ++ (a, va) :: (b, vb) :: l3).*1)
        by (by eapply dlseg_malloc).
      erewrite store_prev_Some; [|rewrite lookup_insert_ne; [done|nodup]].
      rewrite bind_Done. cbn [n_x n_next].
      erewrite store_next_Some; [|rewrite !lookup_insert_ne; [done|nodup..]].
      rewrite bind_Done. cbn [n_x n_prev].
      eexists _, ((new, x) :: (b, vb) :: l3).
      split_and!; try done; try (simpl; intros; lia).
      * nodup.
      * apply dlseg_app. split.
        -- do 3 (apply dlseg_insert_ne; [nodup|]). done.
        -- simpl. rewrite lookup_insert_eq.
           rewrite lookup_insert_ne, lookup_insert_ne, lookup_insert_eq
             by nodup.
           rewrite lookup_insert_ne, lookup_insert_eq by nodup.
           split_and!; [done..|].
           do 3 (apply dlseg_insert_ne; [nodup|]). done. }
    destruct (Z.eqb_spec (cmp x vb) 0) as [E0|E0].
    { exists q, ((b, vb) :: l3). split_and!; done. }
    destruct (Z.eqb_spec (cmp x vb) 1) as [E2|E2];
      [|destruct (Hr x vb) as [?|[?|?]]; done].
    destruct (IH (l1 ++ [(a, va)]) b vb fuel) as (q' & l3' & IH');
      [done|done|by rewrite <-app_assoc|by rewrite <-app_assoc
      |simpl in Hf; lia|].
    destruct IH' as (-> & Hv & Hnd' & Hseg' & Hlast & ? & ? & ? & ? & Hsame).
    rewrite <-app_assoc in Hnd', Hseg'. simpl in Hnd', Hseg'.
    exists q', ((b, vb) :: l3'). split_and!; try done; try congruence.
    * cbn [fmap list_fmap snd]. fold (snd <$> l3'). by rewrite Hv.
    * by rewrite !last_ptr_cons.
    * simpl. intros. apply Hsame. lia.
Qed.
Lemma queues_enqueu_refine q l x :
  cmp_range cmp →
  chain_rep q l →
  ∃ q' l',
    queues_enqueu q x = Done q' ∧
    chain_rep q' l' ∧
    l'.*2 = enq_vals cmp x l.*2 ∧
    q_cmp_r q' = q_cmp_r q ∧
    (length l' = length l → q' = q).
Proof.
  intros Hr (Hc & Hnd & Hseg & Hhd & Htl)%chain_rep_inv.
  unfold queues_enqueu. rewrite Hhd.
  destruct l as [|[h vh] l1].
  { (* queue is empty *)
    simpl. eexists _, [(_, x)]. split_and!; try done.
    split; [done|]. split; simpl; try done.
    - apply NoDup_singleton.
    - by rewrite lookup_insert_eq. }
  cbn [first_ptr].
  destruct (exists_last (l:=(h, vh) :: l1)) as (l0 & [t vt] & El); [done|].
  rewrite Htl by done. rewrite El in Hnd, Hseg |- *.
  rewrite last_ptr_snoc.
  pose proof Hseg as Hseg0.
  apply dlseg_app in Hseg as [Hl0 [Ht _]]. simpl in Ht.
  rewrite (load_node_Some _ _ _ Ht), bind_Done, Hc. cbn [call n_x]. rewrite bind_Done.
  unfold enq_vals. rewrite <-El. cbn [fmap list_fmap snd].
  assert (Hlast : List.last (vh :: l1.*2) vh = vt).
  { change (vh :: l1.*2) with (((h, vh) :: l1).*2).
    rewrite El, fmap_app. apply last_last. }
  rewrite Hlast.
  set (new := malloc (q_nodes q)).
  assert (Hnl : new ∉ (l0 ++ [(t, vt)]).*1) by (by eapply dlseg_malloc).
  assert (Hnew : q_nodes q !! new = None) by apply malloc_fresh.
  destruct (Z.eqb_spec (cmp x vt) 0) as [E0|E0].
  { exists q, ((h, vh) :: l1). split_and!; try done.
    split; [done|]. rewrite El. split; try done.
    by rewrite <-El. by rewrite <-El. }
  destruct (Z.eqb_spec (cmp x vt) 1) as [E1|E1].
  { (* check tail: append *)
    cbn [store_next_at].
    erewrite store_next_Some; [|rewrite lookup_insert_ne; [done|nodup]].
    rewrite bind_Done. cbn [n_x n_prev].
    eexists _, (((h, vh) :: l1) ++ [(new, x)]). split_and!; try done.
    - split; [done|]. cbn [q_head q_tail q_nodes]. rewrite El. split.
      + nodup.
      + apply dlseg_app. split.
        * simpl. apply (dlseg_set_next _ _ _ _ _ None); [nodup|].
          apply dlseg_insert_ne; [nodup|done].
        * rewrite last_ptr_snoc. simpl.
          rewrite lookup_insert_ne, lookup_insert_eq; [done|nodup].
      + by rewrite <-El.
      + intros _. by rewrite last_ptr_snoc.
    - rewrite fmap_app. done.
    - rewrite length_app. simpl. lia. }
  (* check head *)
  rewrite <-El in Hseg0, Hnd, Hnl.
  destruct Hseg0 as [Hh Hl1]. 
  rewrite (load_node_Some _ _ _ Hh), bind_Done. cbn [n_x].
  destruct (Z.eqb_spec (cmp x vh) (-1)) as [E2|E2].
  { erewrite store_prev_Some; [|rewrite lookup_insert_ne; [done|nodup]].
    rewrite bind_Done. cbn [n_x n_next].
    eexists _, ((new, x) :: (h, vh) :: l1). split_and!; try done.
    - split; [done|]. cbn [q_head q_tail q_nodes]. split.
      + nodup.
      + split; [rewrite lookup_insert_ne, lookup_insert_eq; [done|nodup]|].
        apply (dlseg_set_prev _ None); [nodup|].
        apply dlseg_insert_ne; [nodup|]. by split.
      + done.
      + intros _. rewrite last_ptr_cons, El, !last_ptr_snoc. done.
    - simpl. lia. }
  destruct (Z.eqb_spec (cmp x vh) 0) as [E3|E3].
  { exists q, ((h, vh) :: l1). split_and!; done. }
  (* check body *)
  destruct (enqueu_body_refine q x l1 [] h vh (S (size (q_nodes q))))
    as (q' & l1' & -> & Hv & Hnd' & Hseg' & Hlast' & Hc' & ? & Hh' & Ht' & Hsame);
    [done|done|done|by split| |].
  { assert (length ((h, vh) :: l1) ≤ size (q_nodes q)).
    { eapply dlseg_length; [done|]. by split. }
    simpl in *. lia. }
  exists q', ((h, vh) :: l1'). split_and!; try done.
  - split; [congruence|]. split; try done.
    + by rewrite Hh', Hhd.
    + intros _. rewrite Ht', Htl by done. by rewrite !last_ptr_cons.
  - cbn [fmap list_fmap snd]. fold (snd <$> l1'). by rewrite Hv.
  - simpl. intros. apply Hsame. lia.
Qed.

Lemma find_loop_refine q x l : ∀ pv fuel,
  q_cmp q = Some cmp →
  dlseg (q_nodes q) pv l None →
  length l < fuel →
  find_loop fuel q x (first_ptr l None) = Done (find_vals cmp x l.*2).
Proof.
  induction l as [|[a va] l IH]; intros pv fuel Hc Hseg Hf;
    (destruct fuel as [|fuel]; [simpl in Hf; lia|]); [done|].
  destruct Hseg as [Ha Hl]. cbn [find_loop first_ptr].
  rewrite (load_node_Some _ _ _ Ha), bind_Done, Hc.
  cbn [call n_x n_next fmap list_fmap find_vals snd]. rewrite bind_Done.
  destruct (cmp x va =? -1)%Z; [done|].
  destruct (cmp x va =? 0)%Z; [done|].
  eapply IH; [done..|simpl in Hf; lia].
Qed.

Lemma queues_find_refine q l x :
  chain_rep q l →
  queues_find (Some q) x = Done (find_vals cmp x l.*2).
Proof.
  intros (Hc & Hnd & Hseg & Hhd & Htl)%chain_rep_inv.
  unfold queues_find. rewrite Hhd.
  eapply find_loop_refine; [done..|].
  apply Nat.lt_succ_r. by eapply dlseg_length.
Qed.

Lemma remove_unlink_refine q l1 p vp a va n vn l5 :
  NoDup (l1 ++ (p, vp) :: (a, va) :: (n, vn) :: l5).*1 →
  dlseg (q_nodes q) None (l1 ++ (p, vp) :: (a, va) :: (n, vn) :: l5) None →
  ∃ m,
    remove_unlink q a =
      Done (Queue (size_decr (q_size q)) (q_cmp q) (q_cmp_r q)
                  (q_head q) (q_tail q) m, Some va) ∧
    dlseg m None (l1 ++ (p, vp) :: (n, vn) :: l5) None.
Proof.
  intros Hnd Hseg.
  apply dlseg_app in Hseg as (Hl1 & Hp & Ha & Hn & Hl5). simpl in Hp, Ha, Hn.
  unfold remove_unlink.
  rewrite (load_node_Some _ _ _ Ha), bind_Done. cbn [n_prev n_next store_next_at].
  rewrite (store_next_Some _ _ _ _ Hp), bind_Done. cbn [n_x n_prev].
  erewrite load_node_Some; [|rewrite lookup_insert_ne; [done|nodup]].
  rewrite bind_Done. cbn [n_prev n_next store_prev_at].
  erewrite store_prev_Some; [|rewrite lookup_insert_ne; [done|nodup]].
  rewrite bind_Done. cbn [n_x n_next].
  erewrite load_node_Some; [|rewrite !lookup_insert_ne; [done|nodup..]].
  rewrite bind_Done.
  erewrite free_node_Some; [|rewrite !lookup_insert_ne; [done|nodup..]].
  rewrite bind_Done. cbn [n_x].
  eexists. split; [done|].
  apply dlseg_app. split.
  - apply dlseg_delete_ne; [nodup|].
    do 2 (apply dlseg_insert_ne; [nodup|]). done.
  - simpl.
    rewrite lookup_delete_ne, lookup_insert_ne, lookup_insert_eq by nodup.
    rewrite lookup_delete_ne, lookup_insert_eq by nodup.
    split_and!; [done..|].
    apply dlseg_delete_ne; [nodup|].
    do 2 (apply dlseg_insert_ne; [nodup|]). done.
Qed.

Lemma rscan_vals_cons x y z ys :
  rscan_vals cmp x (y :: z :: ys) =
    if (cmp x y =? -1)%Z then (y :: z :: ys, None)
    else if (cmp x y =? 0)%Z then (z :: ys, Some y)
    else let '(r, o) := rscan_vals cmp x (z :: ys) in (y :: r, o).
Proof. done. Qed.

Lemma remove_body_refine q x t vt l2 : ∀ l1 p vp fuel,
  cmp_range cmp →
  q_cmp q = Some cmp →
  q_tail q = Some t →
  NoDup (l1 ++ (p, vp) :: l2 ++ [(t, vt)]).*1 →
  dlseg (q_nodes q) None (l1 ++ (p, vp) :: l2 ++ [(t, vt)]) None →
  length l2 < fuel →
  ∃ q' l2' r,
    remove_body fuel q x (first_ptr l2 (Some t)) = Done (q', r) ∧
    ((l2' ++ [(t, vt)]).*2, r) = rscan_vals cmp x (l2 ++ [(t, vt)]).*2 ∧
    NoDup (l1 ++ (p, vp) :: l2' ++ [(t, vt)]).*1 ∧
    dlseg (q_nodes q') None (l1 ++ (p, vp) :: l2' ++ [(t, vt)]) None ∧
    q_cmp q' = q_cmp q ∧ q_cmp_r q' = q_cmp_r q ∧
    q_head q' = q_head q ∧ q_tail q' = q_tail q ∧
    (r = None → q' = q) ∧
    (r ≠ None → q_size q' = size_decr (q_size q)).
Proof.
  induction l2 as [|[a va] l3 IH]; intros l1 p vp fuel Hr Hc Ht Hnd Hseg Hf;
    (destruct fuel as [|fuel]; [simpl in Hf; lia|]).
  - exists q, [], None. cbn [remove_body first_ptr]. rewrite Ht.
    rewrite decide_True by done. split_and!; done.
  - cbn [remove_body first_ptr]. rewrite Ht.
    rewrite decide_False by (intros [= ->]; nodup).
    pose proof Hseg as Hseg0.
    apply dlseg_app in Hseg as (Hl1 & Hp & Ha & Hl3). simpl in Hp, Ha.
    rewrite (load_node_Some _ _ _ Ha), bind_Done, Hc.
    cbn [call n_x n_next]. rewrite bind_Done.
    cbn [app] in Hnd, Hseg0.
    destruct (l3 ++ [(t, vt)]) as [|[n vn] l5] eqn:El5;
      [by destruct l3|].
    cbn [app fmap list_fmap snd]. rewrite El5.
    cbn [fmap list_fmap snd]. rewrite rscan_vals_cons.
    destruct (Z.eqb_spec (cmp x va) (-1)) as [E1|E1].
    { exists q, ((a, va) :: l3), None. simpl. rewrite El5.
      split_and!; done. }
    destruct (Z.eqb_spec (cmp x va) 0) as [E0|E0].
    { destruct (remove_unlink_refine q l1 p vp a va n vn l5)
        as (m & -> & Hm); [done..|].
      exists (Queue (size_decr (q_size q)) (q_cmp q) (q_cmp_r q)
                    (q_head q) (q_tail q) m), l3, (Some va).
      rewrite El5. split_and!; try done. nodup. }
    destruct (Z.eqb_spec (cmp x va) 1) as [E2|E2];
      [|destruct (Hr x va) as [?|[?|?]]; done].
    destruct (IH (l1 ++ [(p, vp)]) a va fuel) as (q' & l3' & r & IH');
      [done|done|done|by rewrite <-app_assoc|by rewrite <-app_assoc
      |simpl in Hf; lia|].
    destruct IH' as (Hrun & Hv & Hnd' & Hseg' & ? & ? & ? & ? & Hsame & Hsz).
    rewrite <-app_assoc in Hnd', Hseg'. simpl in Hnd', Hseg'.
    assert (first_ptr l3 (Some t) = Some n) as Hn.
    { destruct l3 as [|[] ?]; simpl in *; congruence. }
    cbn [first_ptr]. rewrite <-Hn, Hrun. exists q', ((a, va) :: l3'), r.
    split_and!; try done; try congruence.
    cbn [fmap list_fmap snd] in Hv. by rewrite <-Hv.
Qed.

Lemma queues_remove_refine q l x :
  cmp_range cmp →
  chain_rep q l →
  ∃ q' l' r,
    queues_remove (Some q) x = Done (Some q', r) ∧
    chain_rep q' l' ∧
    (l'.*2, r) = remove_vals cmp x l.*2 ∧
    q_cmp_r q' = q_cmp_r q ∧
    (r = None → q' = q) ∧
    (r ≠ None → q_size q' = size_decr (q_size q)).
Proof.
  intros Hr Hrep. pose proof Hrep as Hrep0.
  apply chain_rep_inv in Hrep as (Hc & Hnd & Hseg & Hhd & Htl).
  unfold queues_remove. rewrite Hhd.
  destruct l as [|[h vh] l1].
  { exists q, [], None. split_and!; done. }
  cbn [first_ptr]. pose proof Hseg as [Hh Hl1].
  rewrite (load_node_Some _ _ _ Hh), bind_Done, Hc.
  cbn [call n_x n_next]. rewrite bind_Done.
  cbn [fmap list_fmap snd remove_vals].
  destruct (Z.eqb_spec (cmp x vh) (-1)) as [E1|E1].
  { exists q, ((h, vh) :: l1), None. split_and!; done. }
  destruct (Z.eqb_spec (cmp x vh) 0) as [E0|E0].
  { (* check head: the head is unlinked *)
    destruct l1 as [|[h' vh'] l2].
    - cbn [first_ptr]. rewrite bind_Done, (load_node_Some _ _ _ Hh), bind_Done.
      rewrite (free_node_Some _ _ _ Hh), bind_Done. cbn [n_x n_next].
      eexists _, [], (Some vh). split_and!; try done.
      split; [done|]. split; try done. apply NoDup_nil_2.
    - cbn [first_ptr]. destruct Hl1 as [Hh' Hl2].
      rewrite (store_prev_Some _ _ _ _ Hh'), bind_Done. cbn [n_x n_next].
      erewrite load_node_Some; [|rewrite lookup_insert_ne; [done|nodup]].
      rewrite bind_Done.
      erewrite free_node_Some; [|rewrite lookup_insert_ne; [done|nodup]].
      rewrite bind_Done. cbn [n_x n_next].
      eexists _, ((h', vh') :: l2), (Some vh). split_and!; try done.
      split; [done|]. cbn [q_head q_tail q_nodes]. split; try done.
      + nodup.
      + split.
        * rewrite lookup_delete_ne, lookup_insert_eq; [done|nodup].
        * apply dlseg_delete_ne; [nodup|].
          apply dlseg_insert_ne; [nodup|done].
      + intros _. rewrite Htl by done. by rewrite !last_ptr_cons. }
  (* check tail *)
  destruct (exists_last (l:=(h, vh) :: l1)) as (l0 & [t vt] & El); [done|].
  rewrite Htl by done. rewrite El, last_ptr_snoc.
  assert (Hlast : List.last (vh :: l1.*2) vh = vt).
  { change (vh :: l1.*2) with (((h, vh) :: l1).*2).
    rewrite El, fmap_app. apply last_last. }
  rewrite Hlast.
  destruct l0 as [|hv0 l0'].
  { (* a single node *)
    assert (vt = vh ∧ t = h ∧ l1 = []) as (-> & -> & ->)
      by (simpl in El; by simplify_eq).
    rewrite (load_node_Some _ _ _ Hh), bind_Done. cbn [n_x].
    destruct (Z.eqb_spec (cmp x vh) 0) as [?|_]; [done|].
    destruct (Z.eqb_spec (cmp x vh) 1) as [?|?].
    - exists q, [(h, vh)], None. split_and!; done.
    - destruct (Hr x vh) as [?|[?|?]]; done. }
  simpl in El. injection El as <- ->.
  pose proof Hseg as Hseg0.
  apply (dlseg_app _ _ ((h, vh) :: l0') [(t, vt)]) in Hseg as [Hl0 [Ht _]].
  simpl in Ht.
  rewrite (load_node_Some _ _ _ Ht), bind_Done. cbn [n_x n_prev].
  destruct (Z.eqb_spec (cmp x vt) 0) as [E2|E2].
  { (* the tail is unlinked *)
    destruct (exists_last (l:=(h, vh) :: l0')) as (l00 & [t' vt'] & El');
      [done|].
    assert (El'' : (h, vh) :: l0' ++ [(t, vt)]
                   = (l00 ++ [(t', vt')]) ++ [(t, vt)]) by (by rewrite <-El').
    rewrite El'' in Hnd, Hseg0. rewrite El' in Hl0, Ht.
    rewrite last_ptr_snoc in Ht.
    assert (Hrl : removelast (vh :: (l0' ++ [(t, vt)]).*2)
                  = (l00 ++ [(t', vt')]).*2).
    { change (vh :: (l0' ++ [(t, vt)]).*2)
        with (((h, vh) :: l0' ++ [(t, vt)]).*2).
      rewrite El'', fmap_app. simpl. by rewrite removelast_last. }
    rewrite Hrl, El', last_ptr_snoc.
    apply dlseg_app in Hl0 as [Hl00 [Ht' _]]. simpl in Hl00, Ht'.
    rewrite (store_next_Some _ _ _ _ Ht'), bind_Done. cbn [n_x n_prev].
    erewrite load_node_Some; [|rewrite lookup_insert_ne; [done|nodup]].
    rewrite bind_Done.
    erewrite free_node_Some; [|rewrite lookup_insert_ne; [done|nodup]].
    rewrite bind_Done. cbn [n_x n_prev].
    eexists _, (l00 ++ [(t', vt')]), (Some vt). split_and!; try done.
    - split; [done|]. cbn [q_head q_tail q_nodes]. split.
      + nodup.
      + apply dlseg_delete_ne; [nodup|].
        apply (dlseg_set_next _ _ _ _ _ (Some t)); [nodup|].
        apply dlseg_app. split; [done|]. simpl. by rewrite Ht'.
      + by rewrite <-El'.
      + intros _. by rewrite last_ptr_snoc.
  }
  destruct (Z.eqb_spec (cmp x vt) 1) as [E3|E3].
  { exists q, ((h, vh) :: l0' ++ [(t, vt)]), None. split_and!; done. }
  (* check body *)
  destruct (remove_body_refine q x t vt l0' [] h vh (S (size (q_nodes q))))
    as (q' & l2' & r & Hrun & Hv & Hnd' & Hseg' & Hc' & ? & Hh' & Ht'' & Hsame & Hsz);
    [done|done|by rewrite Htl, last_ptr_cons, last_ptr_snoc|done|done| |].
  { assert (length ((h, vh) :: l0' ++ [(t, vt)]) ≤ size (q_nodes q))
      by (by eapply dlseg_length).
    simpl in *. rewrite length_app in *. simpl in *. lia. }
  assert (first_ptr (l0' ++ [(t, vt)]) None = first_ptr l0' (Some t)) as ->
    by (by destruct l0' as [|[] ?]).
  rewrite Hrun, bind_Done.
  exists q', ((h, vh) :: l2' ++ [(t, vt)]), r. split_and!; try done.
  - split; [congruence|]. split; try done.
    + by rewrite Hh', Hhd.
    + intros _. rewrite Ht'', Htl by done.
      by rewrite !last_ptr_cons, !last_ptr_snoc.
  - cbn [fmap list_fmap snd]. rewrite <-Hv. done.
Qed.

(** [queues_map_r] with a callback that leaves the [x] field as it is and
    never asks to stop: the chain is not changed, and the object behind
    [y] goes through [g] once per payload, from head to tail. *)
Lemma map_r_loop_visit {St} (apply : A → St → outcome (A * St * Z))
    (g : A → St → outcome St) (m : gmap ptr (node_t A)) l : ∀ pv fuel y,
  (∀ v y, apply v y = y' ← g v y; Done (v, y', 1%Z)) →
  dlseg m pv l None →
  length l < fuel →
  map_r_loop fuel apply m (first_ptr l None) y
  = y' ← visit g l.*2 y; Done (m, y', 1%Z).
Proof.
  induction l as [|[a va] l IH]; intros pv fuel y Happ Hseg Hf;
    (destruct fuel as [|fuel]; [simpl in Hf; lia|]); [done|].
  destruct Hseg as [Ha Hl]. cbn [map_r_loop first_ptr].
  rewrite (load_node_Some _ _ _ Ha), bind_Done.
  cbn [n_x fmap list_fmap snd visit]. rewrite Happ.
  destruct (g va y) as [y'| | |]; try done.
  rewrite !bind_Done.
  rewrite (store_x_Some _ _ _ _ Ha), bind_Done. cbn [n_prev n_next].
  rewrite insert_id by done.
  change (1 <? 0)%Z with false. cbn match.
  rewrite (load_node_Some _ _ _ Ha), bind_Done. cbn [n_next].
  eapply IH; [done|done|simpl in Hf; lia].
Qed.

Lemma queues_map_r_visit {St} (apply : A → St → outcome (A * St * Z))
    (g : A → St → outcome St) q l y :
  (∀ v y, apply v y = y' ← g v y; Done (v, y', 1%Z)) →
  chain_rep q l →
  queues_map_r (Some q) apply y
  = y' ← visit g l.*2 y; Done (Some q, y', 1%Z).
Proof.
  intros Happ (Hc & Hnd & Hseg & Hhd & Htl)%chain_rep_inv.
  unfold queues_map_r. rewrite Hhd.
  erewrite map_r_loop_visit; [|done|done|].
  - destruct (visit g l.*2 y); try done.
    simpl. rewrite <-Hhd. by destruct q.
  - apply Nat.lt_succ_r. by eapply dlseg_length.
Qed.

Lemma queues_new_rep cmp_r :
  ∃ q, queues_new (Some cmp) cmp_r = Done q ∧ chain_rep q [] ∧
       q_cmp_r q = cmp_r ∧ q_size q = 0%Z.
Proof.
  eexists. split; [done|]. split_and!; try done.
  split; [done|]. split; try done. apply NoDup_nil_2.
Qed.
End queues_refine.
(** ** Ascending sequences under a linear order *)

Section sorted_chain.
Context {A : Type} (cmp : A → A → Z) (Hlo : LinearOrder cmp).
Implicit Types (x y v w : A) (xs ys : list A).

Local Abbreviation ascending := (ascending cmp).
Local Abbreviation ins := (ins cmp).
Local Abbreviation del := (del cmp).

Lemma lo_eq_r a b c : cmp a b = 0%Z → cmp c a = cmp c b.
Proof.
  intros H. rewrite (lo_antisym _ Hlo a c), (lo_antisym _ Hlo b c).
  by rewrite (lo_eq_l _ Hlo a b c).
Qed.

Lemma lo_gt a b : cmp a b = 1%Z ↔ cmp b a = (-1)%Z.
Proof. rewrite (lo_antisym _ Hlo a b). lia. Qed.

Lemma lo_eq_sym a b : cmp a b = 0%Z ↔ cmp b a = 0%Z.
Proof. rewrite (lo_antisym _ Hlo a b). lia. Qed.

Lemma lo_cases a b : cmp a b = (-1)%Z ∨ cmp a b = 0%Z ∨ cmp a b = 1%Z.
Proof. apply (lo_range _ Hlo). Qed.

Lemma ascending_cons y ys :
  ascending (y :: ys) ↔ ascending ys ∧ ∀ w, w ∈ ys → cmp y w = (-1)%Z.
Proof.
  unfold ascending. split.
  - intros H. apply StronglySorted_inv in H as [H1 H2].
    split; [done|]. by apply Forall_forall.
  - intros [H1 H2]. constructor; [done|]. by apply Forall_forall.
Qed.

Lemma ascending_app xs ys :
  ascending (xs ++ ys) ↔
  ascending xs ∧ ascending ys ∧ ∀ v w, v ∈ xs → w ∈ ys → cmp v w = (-1)%Z.
Proof.
  induction xs as [|x xs IH]; simpl.
  - split; [intros H; split_and!; [constructor|done|]|by intros (_ & ? & _)].
    intros v w Hv. by apply elem_of_nil in Hv.
  - rewrite !ascending_cons, IH. split.
    + intros ((H1 & H2 & H3) & H4). split_and!; try done.
      * intros w Hw. apply H4, elem_of_app. by left.
      * intros v w [->|Hv]%elem_of_cons Hw; [|by apply H3].
        apply H4, elem_of_app. by right.
    + intros ((H1 & H2) & H3 & H4). split_and!; try done.
      * intros v w Hv Hw. apply H4; [|done]. apply elem_of_cons. by right.
      * intros w [Hw|Hw]%elem_of_app; [by apply H2|].
        apply H4; [|done]. apply elem_of_cons. by left.
Qed.

Lemma ascending_adjacent xs i a b :
  ascending xs → xs !! i = Some a → xs !! S i = Some b → (cmp a b < 0)%Z.
Proof.
  intros Hs Ha Hb.
  rewrite <-(take_drop_middle xs i a Ha) in Hs.
  apply ascending_app in Hs as (_ & Hs & _).
  apply ascending_cons in Hs as [_ Hs].
  rewrite (Hs b); [lia|].
  apply list_elem_of_lookup. exists 0.
  by rewrite lookup_drop, Nat.add_0_r.
Qed.

(** Two members of an ascending sequence that compare equal are the same
    member. *)
Lemma ascending_unique xs v w :
  ascending xs → v ∈ xs → w ∈ xs → cmp v w = 0%Z → v = w.
Proof.
  induction xs as [|y ys IH]; intros Hs Hv Hw E;
    [by apply elem_of_nil in Hv|].
  apply ascending_cons in Hs as [Hs Hy].
  apply elem_of_cons in Hv as [->|Hv]; apply elem_of_cons in Hw as [->|Hw];
    try done.
  - rewrite (Hy w Hw) in E. lia.
  - apply lo_eq_sym in E. rewrite (Hy v Hv) in E. lia.
  - by apply IH.
Qed.

(** *** Insertion *)

Lemma ins_elem x xs v : v ∈ ins x xs → v = x ∨ v ∈ xs.
Proof.
  induction xs as [|y ys IH]; simpl.
  - intros ->%list_elem_of_singleton. by left.
  - destruct (cmp x y =? -1)%Z.
    { intros [->|?]%elem_of_cons; [by left|by right]. }
    destruct (cmp x y =? 0)%Z; [by right|].
    intros [->|Hv]%elem_of_cons; [right; apply elem_of_cons; by left|].
    destruct (IH Hv) as [?|?]; [by left|right].
    apply elem_of_cons. by right.
Qed.

Lemma ins_keeps x xs v : v ∈ xs → v ∈ ins x xs.
Proof.
  induction xs as [|y ys IH]; simpl; [by intros ?%elem_of_nil|].
  intros Hv. destruct (cmp x y =? -1)%Z; [apply elem_of_cons; by right|].
  destruct (cmp x y =? 0)%Z; [done|].
  apply elem_of_cons in Hv as [->|Hv]; apply elem_of_cons; [by left|].
  right. by apply IH.
Qed.

Lemma ins_dup x xs :
  ascending xs → (∃ w, w ∈ xs ∧ cmp x w = 0%Z) → ins x xs = xs.
Proof.
  induction xs as [|y ys IH]; intros Hs (w & Hw & E);
    [by apply elem_of_nil in Hw|].
  apply ascending_cons in Hs as [Hs Hy]. simpl.
  apply elem_of_cons in Hw as [->|Hw].
  - rewrite E. done.
  - assert (cmp x y = 1%Z) as ->.
    { apply lo_gt. rewrite (lo_eq_r x w y E). by apply Hy. }
    simpl. f_equal. apply IH; eauto.
Qed.

Lemma ins_new x xs :
  (∀ w, w ∈ xs → cmp x w ≠ 0%Z) → ins x xs ≡ₚ x :: xs.
Proof.
  induction xs as [|y ys IH]; intros Hne; simpl; [done|].
  destruct (Z.eqb_spec (cmp x y) (-1)); [done|].
  destruct (Z.eqb_spec (cmp x y) 0) as [E|_].
  { destruct (Hne y); [apply elem_of_cons; by left|done]. }
  rewrite IH; [apply Permutation_swap|].
  intros w Hw. apply Hne, elem_of_cons. by right.
Qed.

Lemma ins_ascending x xs : ascending xs → ascending (ins x xs).
Proof.
  induction xs as [|y ys IH]; intros Hs; simpl.
  - apply ascending_cons. split; [constructor|].
    intros w Hw. by apply elem_of_nil in Hw.
  - pose proof Hs as Hs0. apply ascending_cons in Hs as [Hs Hy].
    destruct (Z.eqb_spec (cmp x y) (-1)) as [E1|E1].
    { apply ascending_cons. split; [done|].
      intros w [->|Hw]%elem_of_cons; [done|].
      eapply (lo_trans _ Hlo); [done|]. by apply Hy. }
    destruct (Z.eqb_spec (cmp x y) 0) as [E0|E0]; [done|].
    apply ascending_cons. split; [by apply IH|].
    intros w [->|Hw]%ins_elem; [|by apply Hy].
    apply lo_gt. destruct (lo_cases x y) as [?|[?|?]]; done.
Qed.

(** The chain insertion looks at the tail first; on an ascending chain it
    inserts where [ins] does. *)
Lemma scan_vals_ins x ys :
  (∃ w, w ∈ ys ∧ cmp x w ≠ 1%Z) → scan_vals cmp x ys = ins x ys.
Proof.
  induction ys as [|y ys IH]; intros (w & Hw & E);
    [by apply elem_of_nil in Hw|].
  simpl. destruct (Z.eqb_spec (cmp x y) (-1)); [done|].
  destruct (Z.eqb_spec (cmp x y) 0); [done|].
  f_equal. apply IH. exists w. split; [|done].
  apply elem_of_cons in Hw as [->|Hw]; [|done].
  destruct (lo_cases x y) as [?|[?|?]]; done.
Qed.

Lemma ins_last_gt x xs :
  (∀ w, w ∈ xs → cmp x w = 1%Z) → ins x xs = xs ++ [x].
Proof.
  induction xs as [|y ys IH]; intros H; simpl; [done|].
  rewrite (H y) by (apply elem_of_cons; by left). simpl.
  f_equal. apply IH. intros w Hw. apply H, elem_of_cons. by right.
Qed.

Lemma last_elem_of (h : A) xs : List.last (h :: xs) h ∈ h :: xs.
Proof.
  destruct (exists_last (l:=h :: xs)) as (l0 & t & ->); [done|].
  rewrite last_last. apply elem_of_app. right. apply elem_of_cons. by left.
Qed.

(** Every member of an ascending sequence is below its last member, or is
    that member. *)
Lemma ascending_last h xs w :
  ascending (h :: xs) → w ∈ h :: xs →
  w = List.last (h :: xs) h ∨ cmp w (List.last (h :: xs) h) = (-1)%Z.
Proof.
  destruct (exists_last (l:=h :: xs)) as (l0 & t & ->); [done|].
  rewrite last_last. intros (_ & _ & H)%ascending_app.
  intros [Hw|Hw]%elem_of_app.
  - right. apply H; [done|]. apply elem_of_cons. by left.
  - left. by apply list_elem_of_singleton in Hw.
Qed.

Lemma enq_vals_ins x xs : ascending xs → enq_vals cmp x xs = ins x xs.
Proof.
  destruct xs as [|h rest]; [done|]. intros Hs.
  unfold enq_vals. set (t := List.last (h :: rest) h).
  pose proof (last_elem_of h rest) as Ht. fold t in Ht.
  destruct (Z.eqb_spec (cmp x t) 0) as [E0|E0].
  { symmetry. apply ins_dup; eauto. }
  destruct (Z.eqb_spec (cmp x t) 1) as [E1|E1].
  { symmetry. apply ins_last_gt. intros w Hw.
    destruct (ascending_last h rest w Hs Hw) as [->|Hlt]; [done|].
    apply lo_gt. eapply (lo_trans _ Hlo); [done|]. by apply lo_gt. }
  cbn [ins].
  destruct (Z.eqb_spec (cmp x h) (-1)) as [E2|E2]; [done|].
  destruct (Z.eqb_spec (cmp x h) 0) as [E3|E3]; [done|].
  f_equal. apply scan_vals_ins. exists t. split; [|done].
  apply elem_of_cons in Ht as [Ht|Ht]; [|done].
  rewrite Ht in *. destruct (lo_cases x h) as [?|[?|?]]; done.
Qed.

(** *** Lookup *)

Lemma find_vals_Some x xs v :
  find_vals cmp x xs = Some v → v ∈ xs ∧ cmp x v = 0%Z.
Proof.
  induction xs as [|y ys IH]; simpl; [done|].
  destruct (Z.eqb_spec (cmp x y) (-1)); [done|].
  destruct (Z.eqb_spec (cmp x y) 0).
  - intros [= ->]. split; [apply elem_of_cons; by left|done].
  - intros [? ?]%IH. split; [apply elem_of_cons; by right|done].
Qed.

Lemma find_vals_None x xs :
  ascending xs → find_vals cmp x xs = None → ∀ w, w ∈ xs → cmp x w ≠ 0%Z.
Proof.
  induction xs as [|y ys IH]; intros Hs; simpl;
    [by intros _ w ?%elem_of_nil|].
  apply ascending_cons in Hs as [Hs Hy].
  destruct (Z.eqb_spec (cmp x y) (-1)) as [E1|E1].
  { intros _ w [->|Hw]%elem_of_cons; [lia|].
    rewrite (lo_trans _ Hlo x y w E1 (Hy w Hw)). lia. }
  destruct (Z.eqb_spec (cmp x y) 0); [done|].
  intros Hf w [->|Hw]%elem_of_cons; [done|]. by apply IH.
Qed.

Lemma find_vals_member x xs v :
  ascending xs → v ∈ xs → cmp x v = 0%Z → find_vals cmp x xs = Some v.
Proof.
  intros Hs Hv E. destruct (find_vals cmp x xs) as [v'|] eqn:Hf.
  - apply find_vals_Some in Hf as [Hv' E']. f_equal.
    apply (ascending_unique xs); try done.
    rewrite <-(lo_eq_l _ Hlo x v' v E'). done.
  - by destruct (find_vals_None x xs Hs Hf v Hv).
Qed.

(** *** Removal *)

Lemma del_spec x xs :
  ascending xs →
  match del x xs with
  | (xs', Some v) =>
      v ∈ xs ∧ cmp x v = 0%Z ∧ xs ≡ₚ v :: xs' ∧ ascending xs' ∧
      ∀ w, w ∈ xs' → cmp x w ≠ 0%Z
  | (xs', None) => xs' = xs ∧ ∀ w, w ∈ xs → cmp x w ≠ 0%Z
  end.
Proof.
  induction xs as [|y ys IH]; intros Hs; simpl.
  { split; [done|]. by intros w ?%elem_of_nil. }
  pose proof Hs as Hs0. apply ascending_cons in Hs as [Hs Hy].
  destruct (Z.eqb_spec (cmp x y) (-1)) as [E1|E1].
  { split; [done|]. intros w [->|Hw]%elem_of_cons; [lia|].
    rewrite (lo_trans _ Hlo x y w E1 (Hy w Hw)). lia. }
  destruct (Z.eqb_spec (cmp x y) 0) as [E0|E0].
  { split_and!; try done; [apply elem_of_cons; by left|].
    intros w Hw. rewrite (lo_eq_l _ Hlo x y w E0), (Hy w Hw). lia. }
  specialize (IH Hs). destruct (del x ys) as [r [v|]].
  - destruct IH as (Hv & E & Hp & Hr & Hne). split_and!; try done.
    + apply elem_of_cons. by right.
    + rewrite Hp. apply Permutation_swap.
    + apply ascending_cons. split; [done|]. intros w Hw. apply Hy.
      rewrite Hp. apply elem_of_cons. by right.
    + intros w [->|Hw]%elem_of_cons; [done|by apply Hne].
  - destruct IH as [-> Hne]. split; [done|].
    intros w [->|Hw]%elem_of_cons; [done|by apply Hne].
Qed.

Lemma rscan_vals_del x ys :
  (∃ t ys0, ys = ys0 ++ [t] ∧ cmp x t = (-1)%Z) →
  rscan_vals cmp x ys = del x ys.
Proof.
  induction ys as [|y ys IH]; intros (t & ys0 & E & Ht); [done|].
  destruct ys as [|z ys].
  - destruct ys0 as [|? [|? ?]]; simplify_eq/=. by rewrite Ht.
  - rewrite rscan_vals_cons. cbn [del].
    destruct (cmp x y =? -1)%Z; [done|].
    destruct (cmp x y =? 0)%Z; [done|].
    rewrite IH; [done|]. destruct ys0 as [|? ys0]; simplify_eq/=. eauto.
Qed.

Lemma del_last_gt x xs :
  (∀ w, w ∈ xs → cmp x w = 1%Z) → del x xs = (xs, None).
Proof.
  induction xs as [|y ys IH]; intros H; simpl; [done|].
  rewrite (H y) by (apply elem_of_cons; by left). simpl.
  rewrite IH; [done|]. intros w Hw. apply H, elem_of_cons. by right.
Qed.

Lemma del_last_eq x xs t :
  (∀ w, w ∈ xs → cmp x w = 1%Z) → cmp x t = 0%Z →
  del x (xs ++ [t]) = (xs, Some t).
Proof.
  induction xs as [|y ys IH]; intros H Ht; simpl.
  - by rewrite Ht.
  - rewrite (H y) by (apply elem_of_cons; by left). simpl.
    rewrite IH; [done| |done]. intros w Hw. apply H, elem_of_cons. by right.
Qed.

Lemma remove_vals_del x xs : ascending xs → remove_vals cmp x xs = del x xs.
Proof.
  destruct xs as [|h rest]; [done|]. intros Hs.
  unfold remove_vals. cbn [del].
  destruct (Z.eqb_spec (cmp x h) (-1)) as [E1|E1]; [done|].
  destruct (Z.eqb_spec (cmp x h) 0) as [E0|E0]; [done|].
  assert (Eh : cmp x h = 1%Z)
    by (destruct (lo_cases x h) as [?|[?|?]]; done).
  assert (Hd : del x (h :: rest) = let '(r, o) := del x rest in (h :: r, o)).
  { cbn [del]. by rewrite Eh. }
  destruct (exists_last (l:=h :: rest)) as (l0 & t & El); [done|].
  assert (Hlast : List.last (h :: rest) h = t)
    by (rewrite El; apply last_last).
  rewrite Hlast.
  assert (Hl0 : ∀ w, w ∈ l0 → cmp w t = (-1)%Z).
  { rewrite El in Hs. apply ascending_app in Hs as (_ & _ & H).
    intros w Hw. apply H; [done|]. apply elem_of_cons. by left. }
  destruct (Z.eqb_spec (cmp x t) 0) as [E2|E2].
  { rewrite <-Hd, El, removelast_last. symmetry.
    apply del_last_eq; [|done]. intros w Hw.
    apply lo_gt. rewrite (lo_eq_r x t w E2). by apply Hl0. }
  destruct (Z.eqb_spec (cmp x t) 1) as [E3|E3].
  { rewrite <-Hd, El. symmetry.
    apply del_last_gt. intros w [Hw|Hw]%elem_of_app;
      [|by apply list_elem_of_singleton in Hw as ->].
    apply lo_gt. eapply (lo_trans _ Hlo); [by apply Hl0|by apply lo_gt]. }
  assert (Et : cmp x t = (-1)%Z)
    by (destruct (lo_cases x t) as [?|[?|?]]; done).
  rewrite rscan_vals_del; [done|].
  destruct l0 as [|h0 l0]; simplify_eq/=; try lia. eauto.
Qed.
End sorted_chain.

(** ** Operations on well-formed chains *)

Section chain_ok_facts.
Context {A Y : Type} (cmp : A → A → Z) (Hlo : LinearOrder cmp).
Implicit Types (q : queues_t A Y) (x v w : A) (xs : list A).

Lemma queues_new_ok cmp_r :
  ∃ q : queues_t A Y, queues_new (Some cmp) cmp_r = Done q ∧ chain_ok cmp q [] ∧
       q_cmp_r q = cmp_r ∧ q_size q = 0%Z.
Proof.
  destruct (queues_new_rep cmp cmp_r) as (q & Hq & Hrep & ? & ?).
  exists q. split_and!; try done. exists []. split_and!; try done.
  constructor.
Qed.

Lemma queues_enqueu_ok q xs x :
  chain_ok cmp q xs →
  ∃ q', queues_enqueu q x = Done q' ∧ chain_ok cmp q' (ins cmp x xs) ∧
        q_cmp_r q' = q_cmp_r q ∧ (ins cmp x xs = xs → q' = q).
Proof.
  intros (l & Hrep & <- & Hs).
  destruct (queues_enqueu_refine cmp q l x (lo_range _ Hlo) Hrep)
    as (q' & l' & Hrun & Hrep' & Hv & Hr & Hsame).
  rewrite (enq_vals_ins cmp Hlo) in Hv by done.
  exists q'. split_and!; try done.
  - exists l'. split_and!; try done. rewrite <-Hv.
    rewrite Hv. by apply ins_ascending.
  - intros E. apply Hsame.
    rewrite <-(length_fmap snd l'), <-(length_fmap snd l). congruence.
Qed.

Lemma queues_remove_ok q xs x :
  chain_ok cmp q xs →
  ∃ q', queues_remove (Some q) x = Done (Some q', (del cmp x xs).2) ∧
        chain_ok cmp q' (del cmp x xs).1 ∧
        q_cmp_r q' = q_cmp_r q ∧
        ((del cmp x xs).2 = None → q' = q) ∧
        ((del cmp x xs).2 ≠ None → q_size q' = size_decr (q_size q)).
Proof.
  intros (l & Hrep & <- & Hs).
  destruct (queues_remove_refine cmp q l x (lo_range _ Hlo) Hrep)
    as (q' & l' & r & Hrun & Hrep' & Hv & Hr & Hsame & Hsz).
  rewrite (remove_vals_del cmp Hlo) in Hv by done.
  rewrite <-Hv. simpl. exists q'. split_and!; try done.
  exists l'. split_and!; try done.
  pose proof (del_spec cmp Hlo x l.*2 Hs) as Hd. rewrite <-Hv in Hd.
  destruct r; [by destruct Hd as (_ & _ & _ & ? & _)|].
  destruct Hd as [-> _]. done.
Qed.

Lemma queues_find_ok q xs x :
  chain_ok cmp q xs → queues_find (Some q) x = Done (find_vals cmp x xs).
Proof. intros (l & Hrep & <- & Hs). by apply queues_find_refine. Qed.

Lemma visit_collect xs : ∀ acc : list A,
  visit (λ v acc, Done (acc ++ [v])) xs acc = Done (acc ++ xs).
Proof.
  induction xs as [|v xs IH]; intros acc; simpl.
  - by rewrite app_nil_r.
  - rewrite IH, <-app_assoc. done.
Qed.

Lemma queues_to_list_ok q xs : chain_ok cmp q xs → queues_to_list q = Done xs.
Proof.
  intros (l & Hrep & <- & Hs). unfold queues_to_list.
  erewrite (queues_map_r_visit cmp collect (λ v acc, Done (acc ++ [v])));
    [|done|done].
  by rewrite visit_collect.
Qed.

(** [queues_dequeue_front] unlinks the first payload. *)
Lemma queues_dequeue_front_ok q xs :
  chain_ok cmp q xs →
  ∃ q', queues_dequeue_front q = Done (q', head xs) ∧
        chain_ok cmp q' (tail xs) ∧
        (xs ≠ [] → tail xs = [] → q_head q' = None ∧ q_tail q' = None).
Proof.
  intros (l & Hrep & <- & Hs).
  apply chain_rep_inv in Hrep as (Hc & Hnd & Hseg & Hhd & Htl).
  unfold queues_dequeue_front. rewrite Hhd.
  destruct l as [|[h vh] l1].
  { exists q. split; [done|]. split; [|done]. exists []. split_and!; done. }
  cbn [first_ptr]. destruct Hseg as [Hh Hl1].
  rewrite (load_node_Some _ _ _ Hh), bind_Done.
  rewrite (free_node_Some _ _ _ Hh), bind_Done. cbn [n_x n_next].
  apply ascending_cons in Hs as [Hs _].
  destruct l1 as [|[h' vh'] l2].
  - cbn [first_ptr]. rewrite bind_Done. eexists. split; [done|].
    split; [|done]. exists []. split_and!; try done.
    split; [done|]. split; try done. apply NoDup_nil_2.
  - cbn [first_ptr]. destruct Hl1 as [Hh' Hl2].
    erewrite store_prev_Some; [|rewrite lookup_delete_ne; [done|nodup]].
    rewrite bind_Done. cbn [n_x n_next].
    eexists. split; [done|]. split; [|done].
    exists ((h', vh') :: l2). split_and!; try done.
    split; [done|]. cbn [q_head q_tail q_nodes]. split; try done.
    + nodup.
    + split; [by rewrite lookup_insert_eq|].
      apply dlseg_insert_ne; [nodup|]. apply dlseg_delete_ne; [nodup|done].
    + intros _. rewrite Htl by done. by rewrite !last_ptr_cons.
Qed.
End chain_ok_facts.

(** ** Dequeueing at the back *)

Section chain_back.
Context {A Y : Type} (cmp : A → A → Z).
Implicit Types (q : queues_t A Y) (x v w : A) (xs : list A).

(** When [queues_dequeue_back] returns on a well-formed chain, it has
    unlinked the last payload.  On an empty chain whose tail pointer is
    stale it does not return, or returns a chain that is still empty. *)
Lemma queues_dequeue_back_ok q xs q' r :
  chain_ok cmp q xs →
  queues_dequeue_back q = Done (q', r) →
  chain_ok cmp q' (removelast xs) ∧ (xs ≠ [] → r = last xs).
Proof.
  intros (l & Hrep & <- & Hs) Hrun.
  apply chain_rep_inv in Hrep as (Hc & Hnd & Hseg & Hhd & Htl).
  unfold queues_dequeue_back in Hrun.
  destruct l as [|hv l1] using rev_ind.
  { (* no node: the tail pointer is NULL or stale *)
    split; [|done]. exists []. split_and!; try done.
    cbn [first_ptr] in Hhd. clear Htl.
    destruct (q_tail q) as [t|]; [|by simplify_eq].
    apply bind_Done_inv in Hrun as (tl & _ & Hrun).
    apply bind_Done_inv in Hrun as (m & _ & Hrun).
    apply bind_Done_inv in Hrun as (m' & _ & Hrun).
    injection Hrun as <- <-. rewrite Hhd.
    split; [done|]. cbn [q_head q_nodes q_tail]. split; try done.
    by destruct (n_prev tl). }
  clear IHl1. destruct hv as [t vt].
  rewrite Htl in Hrun by (by destruct l1). rewrite last_ptr_snoc in Hrun.
  pose proof Hseg as Hseg0.
  apply dlseg_app in Hseg as [Hl1 [Ht _]]. cbn [first_ptr] in Hl1, Ht.
  rewrite (load_node_Some _ _ _ Ht), bind_Done in Hrun.
  rewrite (free_node_Some _ _ _ Ht), bind_Done in Hrun.
  cbn [n_x n_prev] in Hrun.
  rewrite fmap_app in Hs |- *. cbn [fmap list_fmap] in Hs |- *.
  rewrite removelast_last, last_snoc.
  apply ascending_app in Hs as (Hs & _ & _).
  destruct l1 as [|hv' l0 _] using rev_ind.
  - (* the only node *)
    unfold last_ptr in Hrun. cbn [last] in Hrun.
    rewrite bind_Done in Hrun. injection Hrun as <- <-.
    split; [|done]. exists []. split_and!; try done.
    split; [done|]. split; try done. apply NoDup_nil_2.
  - destruct hv' as [t' vt']. rewrite last_ptr_snoc in Hrun, Ht.
    apply dlseg_app in Hl1 as Hl1'. destruct Hl1' as [Hl0 [Ht' _]].
    cbn [first_ptr] in Hl0, Ht'.
    erewrite store_next_Some in Hrun;
      [|rewrite lookup_delete_ne; [exact Ht'|nodup]].
    rewrite bind_Done in Hrun. cbn [n_x n_prev] in Hrun.
    injection Hrun as <- <-. split; [|done].
    exists (l0 ++ [(t', vt')]). split_and!; try done.
    split; [done|]. cbn [q_head q_tail q_nodes]. split.
    + rewrite fmap_app in Hnd. by apply NoDup_app in Hnd as (? & _).
    + apply (dlseg_set_next _ _ _ _ _ (Some t)); [nodup|].
      apply dlseg_delete_ne; [nodup|done].
    + rewrite Hhd, !first_ptr_app. by destruct l0 as [|[] ?].
    + intros _. by rewrite last_ptr_snoc.
Qed.
End chain_back.

(** ** Dequeueing from a chain that holds an entry *)

Section chain_dequeue.
Context {A Y : Type} (cmp : A → A → Z).
Implicit Types (q : queues_t A Y) (x v w : A) (xs : list A).

(** [queues_dequeue_back] returns on a chain that holds an entry. *)
Lemma queues_dequeue_back_returns q xs :
  chain_ok cmp q xs → xs ≠ [] →
  ∃ q' r, queues_dequeue_back q = Done (q', r).
Proof.
  intros (l & Hrep & <- & Hs) Hne.
  apply chain_rep_inv in Hrep as (Hc & Hnd & Hseg & Hhd & Htl).
  unfold queues_dequeue_back.
  destruct l as [|[t vt] l1 _] using rev_ind; [done|].
  rewrite Htl by (by destruct l1). rewrite last_ptr_snoc.
  apply dlseg_app in Hseg as [Hl1 [Ht _]]. cbn [first_ptr] in Hl1, Ht.
  rewrite (load_node_Some _ _ _ Ht), bind_Done.
  rewrite (free_node_Some _ _ _ Ht), bind_Done. cbn [n_x n_prev].
  destruct l1 as [|[t' vt'] l0 _] using rev_ind.
  - unfold last_ptr. cbn [last]. rewrite bind_Done. eauto.
  - rewrite last_ptr_snoc.
    apply dlseg_app in Hl1 as [_ [Ht' _]]. cbn [first_ptr] in Ht'.
    erewrite store_next_Some; [|rewrite lookup_delete_ne; [exact Ht'|nodup]].
    rewrite bind_Done. eauto.
Qed.

Lemma ascending_snoc xs v :
  ascending cmp (xs ++ [v]) → ∀ w, w ∈ xs → cmp w v = (-1)%Z.
Proof.
  intros (_ & _ & Hlt)%ascending_app w Hw. apply Hlt; [done|].
  apply elem_of_cons. by left.
Qed.
End chain_dequeue.

(** ** Duplicates on the deep chain *)

Section dchain_facts.
Context {Y : Type} (cmp : bytes → bytes → Z) (Hlo : LinearOrder cmp).
Implicit Types (q : dqueues_t Y) (x v w : bytes) (l : list (ptr * bytes)).

Lemma denqueu_body_dup q x w l2 : ∀ l1 a va fuel,
  dq_cmp q = Some cmp →
  dlseg (dq_nodes q) None (l1 ++ (a, va) :: l2) None →
  ascending cmp l2.*2 →
  w ∈ l2.*2 → cmp x w = 0%Z →
  length l2 < fuel →
  denqueu_body fuel q x a = Done q.
Proof.
  induction l2 as [|[b vb] l3 IH]; intros l1 a va fuel Hc Hseg Hs Hw E Hf;
    [by apply elem_of_nil in Hw|].
  destruct fuel as [|fuel]; [simpl in Hf; lia|].
  pose proof Hseg as Hseg0.
  apply dlseg_app in Hseg as [Hl1 [Ha [Hb Hl3]]]. simpl in Ha, Hb.
  cbn [denqueu_body].
  rewrite (load_node_Some _ _ _ Ha), bind_Done. cbn [n_next].
  rewrite (load_node_Some _ _ _ Hb), bind_Done, Hc.
  cbn [call n_x]. rewrite bind_Done.
  cbn [fmap list_fmap snd] in Hs, Hw.
  apply ascending_cons in Hs as [Hs Hvb].
  apply elem_of_cons in Hw as [->|Hw].
  - rewrite E. done.
  - assert (cmp x vb = 1%Z) as ->.
    { apply (lo_gt cmp Hlo). rewrite (lo_eq_r cmp Hlo x w vb E). by apply Hvb. }
    simpl (_ =? _)%Z. cbv iota. apply (IH (l1 ++ [(a, va)]) b vb); try done.
    + by rewrite <-app_assoc.
    + simpl in Hf. lia.
Qed.

Lemma dqueues_enqueu_dup q xs x w :
  dchain_ok cmp q xs → w ∈ xs → cmp x w = 0%Z → dqueues_enqueu q x = Done q.
Proof.
  intros (l & Hc & [Hnd Hseg Hhd Htl] & <- & Hs) Hw E.
  unfold dqueues_enqueu. rewrite Hhd.
  destruct l as [|[h vh] l1]; [by apply elem_of_nil in Hw|].
  cbn [first_ptr].
  destruct (exists_last (l:=(h, vh) :: l1)) as (l0 & [t vt] & El); [done|].
  rewrite Htl by done. rewrite El, last_ptr_snoc.
  pose proof Hseg as Hseg0. rewrite El in Hseg0.
  apply dlseg_app in Hseg0 as [Hl0 [Ht _]]. simpl in Ht.
  rewrite (load_node_Some _ _ _ Ht), bind_Done, Hc.
  cbn [call n_x]. rewrite bind_Done.
  destruct (Z.eqb_spec (cmp x vt) 0) as [E0|E0]; [done|].
  assert (Hwt : cmp w vt = (-1)%Z).
  { pose proof Hs as Hs'. rewrite El, fmap_app in Hs', Hw.
    apply ascending_app in Hs' as (_ & _ & Hlt).
    apply elem_of_app in Hw as [Hw|Hw].
    - apply Hlt; [done|]. apply elem_of_cons. by left.
    - apply list_elem_of_singleton in Hw as ->. done. }
  rewrite (lo_eq_l cmp Hlo x w vt E), Hwt. simpl (_ =? _)%Z. cbv iota.
  destruct Hseg as [Hh Hl1].
  rewrite (load_node_Some _ _ _ Hh), bind_Done. cbn [n_x].
  cbn [fmap list_fmap snd] in Hs, Hw.
  apply ascending_cons in Hs as [Hs Hvh].
  apply elem_of_cons in Hw as [->|Hw].
  - rewrite E. done.
  - assert (cmp x vh = 1%Z) as ->.
    { apply (lo_gt cmp Hlo). rewrite (lo_eq_r cmp Hlo x w vh E). by apply Hvh. }
    simpl (_ =? _)%Z. cbv iota. apply (denqueu_body_dup q x w l1 [] h vh); try done.
    apply Nat.lt_succ_r.
    assert (length ((h, vh) :: l1) ≤ size (dq_nodes q)).
    { eapply dlseg_length; [done|]. by split. }
    simpl in *. lia.
Qed.
End dchain_facts.

(** ** The prime ladder *)

Lemma primes_ascending : StronglySorted Z.lt _primes.
Proof.
  unfold _primes, SIZE_MAX.
  repeat (constructor; [|repeat constructor; lia]). constructor.
Qed.

Lemma prime_at_lookup i :
  (0 ≤ i ≤ NPRIMES)%Z → _primes !! Z.to_nat i = Some (prime_at i).
Proof.
  intros Hi. unfold prime_at.
  destruct (_primes !! Z.to_nat i) as [p|] eqn:E.
  - by rewrite (nth_lookup_Some _ _ _ _ E).
  - apply lookup_ge_None in E. change (length _primes) with 46 in E.
    unfold NPRIMES in Hi. lia.
Qed.

Lemma prime_at_elem i : (0 ≤ i ≤ NPRIMES)%Z → prime_at i ∈ _primes.
Proof. intros Hi. eapply list_elem_of_lookup_2, prime_at_lookup, Hi. Qed.

Lemma primes_elem p :
  p ∈ _primes → ∃ i, (0 ≤ i ≤ NPRIMES)%Z ∧ p = prime_at i.
Proof.
  intros [k Hk]%list_elem_of_lookup_1. exists (Z.of_nat k).
  pose proof (lookup_lt_Some _ _ _ Hk) as Hlt.
  change (length _primes) with 46 in Hlt. unfold NPRIMES.
  split; [lia|]. unfold prime_at. rewrite Nat2Z.id.
  by rewrite (nth_lookup_Some _ _ _ _ Hk).
Qed.

Lemma prime_at_mono i j :
  (0 ≤ i)%Z → (i < j)%Z → (j ≤ NPRIMES)%Z → (prime_at i < prime_at j)%Z.
Proof.
  intros Hi Hij Hj.
  pose proof (prime_at_lookup i ltac:(lia)) as Ei.
  pose proof (prime_at_lookup j ltac:(lia)) as Ej.
  pose proof primes_ascending as Hs.
  rewrite <-(take_drop_middle _ _ _ Ei) in Hs.
  apply StronglySorted_app_1_r in Hs.
  apply StronglySorted_inv in Hs as [_ Hall].
  rewrite Forall_forall in Hall. apply Hall.
  apply list_elem_of_lookup.
  exists (Z.to_nat j - S (Z.to_nat i)).
  rewrite lookup_drop, <-Ej. f_equal. lia.
Qed.

Lemma prime_at_first : prime_at 0%Z = 11%Z.
Proof. reflexivity. Qed.

Lemma prime_at_last : prime_at NPRIMES = SIZE_MAX.
Proof. reflexivity. Qed.

Lemma prime_at_bounds i :
  (0 ≤ i ≤ NPRIMES)%Z → (11 ≤ prime_at i ≤ SIZE_MAX)%Z.
Proof.
  intros Hi. rewrite <-prime_at_first, <-prime_at_last. split.
  - destruct (decide (i = 0%Z)) as [->|]; [done|].
    apply Z.lt_le_incl, prime_at_mono; lia.
  - destruct (decide (i = NPRIMES)) as [->|]; [done|].
    apply Z.lt_le_incl, prime_at_mono; lia.
Qed.

(** What the loop of [_get_cap_index] returns: the first index of the ladder
    whose prime exceeds [n], or [NPRIMES]. *)
Lemma get_cap_index_from_spec rounds : ∀ n i,
  (0 ≤ i ≤ NPRIMES)%Z →
  (Z.of_nat rounds = NPRIMES + 1 - i)%Z →
  let r := get_cap_index_from rounds n i in
  (i ≤ r ≤ NPRIMES)%Z ∧
  (∀ j, (i ≤ j < r)%Z → (prime_at j ≤ n)%Z) ∧
  ((r < NPRIMES)%Z → (n < prime_at r)%Z).
Proof.
  induction rounds as [|rounds IH]; intros n i Hi Hr; [lia|].
  cbn [get_cap_index_from].
  destruct (Z.ltb_spec i NPRIMES) as [Hlt|Hge]; cbn [andb].
  - destruct (Z.geb_spec n (prime_at i)) as [Hn|Hn].
    + destruct (IH n (i + 1)%Z) as (H1 & H2 & H3); [lia|lia|].
      cbv zeta. split_and!; [lia|lia| |done].
      intros j Hj. destruct (decide (j = i)) as [->|]; [lia|].
      apply H2. lia.
    + cbv zeta. split_and!; [lia|lia|intros; lia|intros; lia].
  - cbv zeta. split_and!; [lia|lia|intros; lia|intros; lia].
Qed.

Lemma get_cap_index_spec n :
  let r := _get_cap_index n in
  (0 ≤ r ≤ NPRIMES)%Z ∧
  (∀ j, (0 ≤ j < r)%Z → (prime_at j ≤ n)%Z) ∧
  ((r < NPRIMES)%Z → (n < prime_at r)%Z).
Proof.
  apply get_cap_index_from_spec; [unfold NPRIMES; lia|].
  unfold NPRIMES. simpl. lia.
Qed.

(** The capacity chosen for [n] is the least member of the ladder above [n],
    and the sentinel when there is none. *)
Lemma get_cap_index_least n p :
  p ∈ _primes → (n < p)%Z → (prime_at (_get_cap_index n) ≤ p)%Z.
Proof.
  intros (j & Hj & ->)%primes_elem Hn.
  destruct (get_cap_index_spec n) as (Hr & Hbelow & _).
  destruct (Z.lt_ge_cases j (_get_cap_index n)) as [Hlt|Hge].
  - specialize (Hbelow j ltac:(lia)). lia.
  - destruct (decide (j = _get_cap_index n)) as [->|]; [done|].
    apply Z.lt_le_incl, prime_at_mono; lia.
Qed.

Lemma get_cap_index_above n :
  (n < SIZE_MAX)%Z → (n < prime_at (_get_cap_index n))%Z.
Proof.
  intros Hn. destruct (get_cap_index_spec n) as (Hr & _ & Habove).
  destruct (decide (_get_cap_index n = NPRIMES)) as [->|];
    [by rewrite prime_at_last|].
  apply Habove. lia.
Qed.

Lemma get_cap_index_clamp n :
  (770793589 ≤ n)%Z → prime_at (_get_cap_index n) = SIZE_MAX.
Proof.
  intros Hn. destruct (get_cap_index_spec n) as (Hr & _ & Habove).
  destruct (decide (_get_cap_index n = NPRIMES)) as [->|Hne];
    [by rewrite prime_at_last|].
  specialize (Habove ltac:(lia)).
  assert (prime_at (_get_cap_index n) ≤ prime_at 44%Z)%Z.
  { destruct (decide (_get_cap_index n = 44%Z)) as [->|]; [done|].
    apply Z.lt_le_incl, prime_at_mono; unfold NPRIMES in *; lia. }
  change (prime_at 44%Z) with 770793589%Z in *. lia.
Qed.

(** The rehash asks for room for [capacity] keys: the next rung. *)
Lemma get_cap_index_next i :
  (0 ≤ i < NPRIMES)%Z → _get_cap_index (prime_at i) = (i + 1)%Z.
Proof.
  intros Hi. destruct (get_cap_index_spec (prime_at i)) as (Hr & Hbelow & Habove).
  set (r := _get_cap_index (prime_at i)) in *.
  destruct (Z.lt_trichotomy r (i + 1)%Z) as [Hlt|[?|Hgt]]; [|done|].
  - specialize (Habove ltac:(lia)).
    destruct (decide (r = i)) as [->|]; [lia|].
    pose proof (prime_at_mono r i). lia.
  - specialize (Hbelow (i + 1)%Z ltac:(lia)).
    pose proof (prime_at_mono i (i + 1)%Z). lia.
Qed.

Lemma get_cap_index_top : _get_cap_index SIZE_MAX = NPRIMES.
Proof.
  destruct (get_cap_index_spec SIZE_MAX) as (Hr & _ & Habove).
  destruct (decide (_get_cap_index SIZE_MAX = NPRIMES)); [done|].
  specialize (Habove ltac:(lia)).
  pose proof (prime_at_bounds (_get_cap_index SIZE_MAX) Hr). lia.
Qed.

(** Below the last prime the capacity chosen is a prime of the ladder, not
    the sentinel. *)
Lemma get_cap_index_below n :
  (n < 770793589)%Z → (0 ≤ _get_cap_index n < NPRIMES)%Z.
Proof.
  intros Hn. destruct (get_cap_index_spec n) as (Hr & Hle & _).
  split; [lia|].
  destruct (Z.eq_dec (_get_cap_index n) NPRIMES) as [E|]; [|lia].
  specialize (Hle 44%Z). rewrite E in Hle. unfold NPRIMES in Hle.
  assert (prime_at 44%Z = 770793589%Z) as Hp by reflexivity.
  rewrite Hp in Hle. lia.
Qed.

Lemma prime_at_below i :
  (0 ≤ i < NPRIMES)%Z → (11 ≤ prime_at i ≤ 770793589)%Z.
Proof.
  intros Hi. split; [apply prime_at_bounds; lia|].
  assert (prime_at 44%Z = 770793589%Z) as <- by reflexivity.
  destruct (Z.eq_dec i 44%Z) as [->|]; [done|].
  apply Z.lt_le_incl, prime_at_mono; unfold NPRIMES in *; lia.
Qed.

(** The bucket array of a capacity below the sentinel is allocated; the one
    of the sentinel is not. *)
Lemma calloc_ladder {T : Type} i :
  (0 ≤ i < NPRIMES)%Z →
  calloc (T:=T) (prime_at i) sizeof_ptr
  = replicate (Z.to_nat (prime_at i)) None.
Proof.
  intros Hi. pose proof (prime_at_below i Hi) as Hp. unfold calloc.
  destruct (Z.leb_spec (prime_at i * sizeof_ptr) SIZE_MAX) as [|Hgt]; [done|].
  unfold sizeof_ptr, SIZE_MAX in Hgt. lia.
Qed.

Lemma calloc_sentinel {T : Type} : calloc (T:=T) SIZE_MAX sizeof_ptr = [].
Proof. reflexivity. Qed.


(** ** Buckets: what the directory operations compute *)

Section bucket_facts.
Context {A : Type} (cmp : A → A → Z) (Hlo : LinearOrder cmp).
Implicit Types (x v w : A) (b : list A) (bs : list (list A)).

Lemma ascending_nil : ascending cmp [].
Proof. constructor. Qed.

Lemma ascending_distinct b : ascending cmp b → distinct_keys cmp b.
Proof.
  intros Hs. split; [|intros v w; by apply (ascending_unique cmp Hlo)].
  induction b as [|y ys IH]; [apply NoDup_nil_2|].
  apply ascending_cons in Hs as [Hs Hy].
  apply NoDup_cons. split; [|by apply IH].
  intros Hin. specialize (Hy y Hin). rewrite (lo_refl _ Hlo) in Hy. lia.
Qed.

Lemma distinct_keys_perm ks ks' :
  ks ≡ₚ ks' → distinct_keys cmp ks → distinct_keys cmp ks'.
Proof.
  intros Hp [Hnd Hu]. split; [by rewrite <-Hp|].
  intros v w Hv Hw. rewrite <-Hp in Hv, Hw. by apply Hu.
Qed.

(** A key that compares equal to none of the keys present. *)
Lemma distinct_keys_fresh ks x ks' :
  distinct_keys cmp (ks ++ x :: ks') → ∀ w, w ∈ ks → cmp x w ≠ 0%Z.
Proof.
  intros [Hnd Hu] w Hw E.
  assert (x = w) as ->.
  { apply Hu; [|by apply elem_of_app; left|done].
    apply elem_of_app. right. apply elem_of_cons. by left. }
  apply NoDup_app in Hnd as (_ & Hnd & _).
  apply (Hnd w Hw). apply elem_of_cons. by left.
Qed.

Lemma concat_insert_perm bs i b b' x :
  bs !! i = Some b → b' ≡ₚ x :: b → concat (<[i:=b']> bs) ≡ₚ x :: concat bs.
Proof.
  intros Hb Hp. rewrite <-(take_drop_middle bs i b Hb) at 2.
  rewrite insert_take_drop by (by eapply lookup_lt_Some).
  rewrite !concat_app, !concat_cons, Hp. simpl.
  symmetry. apply Permutation_middle.
Qed.

Lemma concat_insert_remove_perm bs i b b' v :
  bs !! i = Some b → b ≡ₚ v :: b' → concat bs ≡ₚ v :: concat (<[i:=b']> bs).
Proof.
  intros Hb Hp. rewrite <-(take_drop_middle bs i b Hb) at 1.
  rewrite insert_take_drop by (by eapply lookup_lt_Some).
  rewrite !concat_app, !concat_cons, Hp. simpl.
  symmetry. apply Permutation_middle.
Qed.

Lemma elem_of_concat bs v : v ∈ concat bs ↔ ∃ b, b ∈ bs ∧ v ∈ b.
Proof.
  induction bs as [|b0 bs IH]; simpl.
  - split; [by intros ?%elem_of_nil|by intros (b & ?%elem_of_nil & _)].
  - rewrite elem_of_app, IH. split.
    + intros [Hv|(b & Hb & Hv)].
      * exists b0. split; [apply elem_of_cons; by left|done].
      * exists b. split; [apply elem_of_cons; by right|done].
    + intros (b & Hb & Hv). apply elem_of_cons in Hb as [->|Hb]; eauto.
Qed.

Lemma elem_of_concat_lookup bs i b v : bs !! i = Some b → v ∈ b → v ∈ concat bs.
Proof.
  intros Hb Hv. apply elem_of_concat. exists b. split; [|done].
  by eapply list_elem_of_lookup_2.
Qed.

(** *** Lookup *)

Lemma find_buckets_Some x bs v :
  find_buckets cmp x bs = Some v → v ∈ concat bs ∧ cmp x v = 0%Z.
Proof.
  induction bs as [|b bs IH]; simpl; [done|].
  destruct (find_vals cmp x b) as [v'|] eqn:E.
  - intros [= ->]. apply find_vals_Some in E as [? ?].
    split; [apply elem_of_app; by left|done].
  - intros [? ?]%IH. split; [apply elem_of_app; by right|done].
Qed.

Lemma find_buckets_None x bs :
  (∀ w, w ∈ concat bs → cmp x w ≠ 0%Z) → find_buckets cmp x bs = None.
Proof.
  intros Hne. destruct (find_buckets cmp x bs) as [v|] eqn:E; [|done].
  apply find_buckets_Some in E as [Hv E]. by destruct (Hne v Hv).
Qed.

Lemma find_buckets_member x bs v :
  Forall (ascending cmp) bs →
  v ∈ concat bs → cmp x v = 0%Z →
  (∀ w, w ∈ concat bs → cmp x w = 0%Z → w = v) →
  find_buckets cmp x bs = Some v.
Proof.
  induction bs as [|b bs IH]; intros Hs Hv E Hu; simpl in *;
    [by apply elem_of_nil in Hv|].
  apply Forall_cons in Hs as [Hb Hs].
  destruct (find_vals cmp x b) as [v'|] eqn:Ef.
  - apply find_vals_Some in Ef as [Hv' E']. f_equal.
    apply Hu; [apply elem_of_app; by left|done].
  - apply elem_of_app in Hv as [Hv|Hv].
    + by destruct (find_vals_None cmp Hlo x b Hb Ef v Hv).
    + apply IH; try done. intros w Hw. apply Hu, elem_of_app. by right.
Qed.

(** A key of a directory with pairwise distinct entries is found, and it is
    the entry itself that is returned. *)
Lemma find_buckets_distinct x bs v :
  Forall (ascending cmp) bs → distinct_keys cmp (concat bs) →
  v ∈ concat bs → cmp x v = 0%Z → find_buckets cmp x bs = Some v.
Proof.
  intros Hs [_ Hu] Hv E. apply find_buckets_member; try done.
  intros w Hw Ew. apply Hu; try done.
  by rewrite <-(lo_eq_l _ Hlo x w v Ew).
Qed.

(** *** Removal *)

Lemma remove_buckets_spec x bs :
  Forall (ascending cmp) bs →
  match remove_buckets cmp x bs with
  | (bs', Some v) =>
      cmp x v = 0%Z ∧ concat bs ≡ₚ v :: concat bs' ∧
      Forall (ascending cmp) bs' ∧ length bs' = length bs
  | (bs', None) => bs' = bs ∧ ∀ w, w ∈ concat bs → cmp x w ≠ 0%Z
  end.
Proof.
  induction bs as [|b bs IH]; intros Hs; simpl.
  { split; [done|]. by intros w ?%elem_of_nil. }
  apply Forall_cons in Hs as [Hb Hs].
  pose proof (del_spec cmp Hlo x b Hb) as Hd.
  destruct (del cmp x b) as [b' [v|]].
  - destruct Hd as (Hv & E & Hp & Hb' & _). split_and!; try done.
    + simpl. by rewrite Hp.
    + by apply Forall_cons.
  - destruct Hd as [-> Hne]. specialize (IH Hs).
    destruct (remove_buckets cmp x bs) as [r [v|]].
    + destruct IH as (E & Hp & Hr & Hlen). split_and!; try done.
      * simpl. rewrite Hp. symmetry. apply Permutation_middle.
      * by apply Forall_cons.
      * simpl. by rewrite Hlen.
    + destruct IH as [-> Hne']. split; [done|].
      intros w [Hw|Hw]%elem_of_app; [by apply Hne|by apply Hne'].
Qed.

End bucket_facts.

(** ** The directory operations on well-formed directories *)

Lemma to_size_t_range n : (0 ≤ to_size_t n ≤ SIZE_MAX)%Z.
Proof.
  unfold to_size_t, SIZE_MAX.
  pose proof (Z.mod_pos_bound n (2 ^ 64) ltac:(lia)). lia.
Qed.

Lemma to_size_t_id n : (0 ≤ n ≤ SIZE_MAX)%Z → to_size_t n = n.
Proof. unfold to_size_t, SIZE_MAX. intros. apply Z.mod_small. lia. Qed.

Lemma size_incr_small n : (0 ≤ n < SIZE_MAX)%Z → size_incr n = (n + 1)%Z.
Proof. intros. apply to_size_t_id. lia. Qed.

Lemma size_decr_small n : (0 < n ≤ SIZE_MAX)%Z → size_decr n = (n - 1)%Z.
Proof. intros. apply to_size_t_id. lia. Qed.

Lemma to_size_t_add_l n k : to_size_t (to_size_t n + k) = to_size_t (n + k).
Proof. unfold to_size_t. by rewrite Zplus_mod_idemp_l. Qed.

Section directory_facts.
Context {A Y H : Type} (cmp : A → A → Z) (hash : A → Z).
Context (Hlo : LinearOrder cmp).
Implicit Types (t : hashtabs_t A Y H) (bs : list (list A)) (x v w : A).
Implicit Types (s : option (queues_t A Y)).

Lemma slot_ok_ascending s b : slot_ok cmp s b → ascending cmp b.
Proof.
  destruct s as [q|]; simpl.
  - by intros (l & _ & _ & ?).
  - intros ->. constructor.
Qed.

Lemma hashtabs_ok_ascending t bs :
  hashtabs_ok cmp hash t bs → Forall (ascending cmp) bs.
Proof.
  intros [_ _ _ _ Hs _ _]. induction Hs; constructor; [|done].
  by eapply slot_ok_ascending.
Qed.

Lemma slot_of_lt t bs x :
  hashtabs_ok cmp hash t bs →
  slot_of hash (t_cap_index t) x < length (t_A t).
Proof.
  intros [_ _ Hc Hl _ _ _]. rewrite Hl. unfold slot_of.
  pose proof (prime_at_bounds _ Hc).
  pose proof (Z.mod_pos_bound (to_size_t (hash x)) (prime_at (t_cap_index t))
                ltac:(lia)).
  lia.
Qed.

Lemma slots_replicate k :
  Forall2 (slot_ok cmp) (replicate k (@None (queues_t A Y))) (replicate k []).
Proof. induction k; constructor; done. Qed.

Lemma concat_replicate_nil k : concat (replicate k (@nil A)) = [].
Proof. induction k; simpl; done. Qed.

(** Below the last prime of the ladder [hashtabs_new] gives a well-formed
    directory; from there on its bucket array is [NULL]. *)
Lemma hashtabs_new_ok (cmp_r : option (A → A → Y → Z))
    (hash_r : option (A → H → Z)) n :
  (n < 770793589)%Z →
  hashtabs_ok cmp hash
    (hashtabs_new (Some cmp) cmp_r (Some hash) hash_r n)
    (replicate (Z.to_nat (prime_at (_get_cap_index n))) []).
Proof.
  intros Hn. pose proof (get_cap_index_below n Hn) as Hr.
  split; cbn [hashtabs_new t_cmp t_hash t_cap_index t_A t_size t_load];
    rewrite ?calloc_ladder by done;
    try done; try (unfold SIZE_MAX; lia); try apply slots_replicate.
  by rewrite length_replicate.
Qed.

Lemma hashtabs_insert_ok t bs x :
  hashtabs_ok cmp hash t bs →
  let i := slot_of hash (t_cap_index t) x in
  ∃ t' s b,
    t_A t !! i = Some s ∧ bs !! i = Some b ∧
    hashtabs_insert t x = Done t' ∧
    hashtabs_ok cmp hash t' (<[i := ins cmp x b]> bs) ∧
    t_size t' = size_incr (t_size t) ∧
    t_load t' = match s with
                | Some _ => t_load t
                | None => size_incr (t_load t)
                end ∧
    t_cap_index t' = t_cap_index t ∧
    t_cmp_r t' = t_cmp_r t ∧ t_hash_r t' = t_hash_r t ∧
    (ins cmp x b = b → s ≠ None → t_A t' = t_A t).
Proof.
  intros Hok i. pose proof (slot_of_lt t bs x Hok) as Hi. fold i in Hi.
  destruct Hok as [Hc Hh Hcap Hl Hs Hsz Hld].
  destruct (lookup_lt_is_Some_2 _ _ Hi) as [s Es].
  destruct (Forall2_lookup_l _ _ _ _ _ Hs Es) as (b & Eb & Hsb).
  unfold hashtabs_insert. rewrite Hh. cbn [call]. rewrite bind_Done.
  fold (slot_of hash (t_cap_index t) x). fold i.
  unfold array_get. rewrite Es, bind_Done.
  assert (∃ q load, 
    match s with
    | Some q => Done (t_load t, q)
    | None => q ← queues_new (t_cmp t) (t_cmp_r t); Done (size_incr (t_load t), q)
    end = Done (load, q) ∧ chain_ok cmp q b ∧
    load = match s with Some _ => t_load t | None => size_incr (t_load t) end ∧
    (s ≠ None → s = Some q)) as (q & load & -> & Hq & Hload & Hsq).
  { destruct s as [q|]; simpl in Hsb.
    - exists q, (t_load t). split_and!; try done.
    - subst b. rewrite Hc.
      destruct (queues_new_ok cmp (t_cmp_r t)) as (q & -> & Hq & _).
      exists q, (size_incr (t_load t)). split_and!; done. }
  rewrite bind_Done.
  destruct (queues_enqueu_ok cmp Hlo q b x Hq) as (q' & -> & Hq' & _ & Hsame).
  rewrite bind_Done. eexists _, s, b. split_and!; try done.
  - split; simpl; try done.
    + by rewrite length_insert.
    + apply Forall2_insert; done.
    + apply to_size_t_range.
    + rewrite Hload. destruct s; [done|apply to_size_t_range].
  - simpl. intros E Hne. rewrite (Hsame E), <-(Hsq Hne).
    by apply list_insert_id.
Qed.
End directory_facts.

Section directory_scans.
Context {A Y H : Type} (cmp : A → A → Z) (hash : A → Z).
Context (Hlo : LinearOrder cmp).
Implicit Types (t : hashtabs_t A Y H) (bs : list (list A)) (x v w : A).
Implicit Types (s : option (queues_t A Y)).

Lemma queues_find_slot s b x :
  slot_ok cmp s b → queues_find s x = Done (find_vals cmp x b).
Proof.
  destruct s as [q|]; simpl.
  - intros Hq. by apply (queues_find_ok cmp).
  - by intros ->.
Qed.

Lemma find_slots_ok t x : ∀ bs' n i,
  Forall2 (slot_ok cmp) (drop i (t_A t)) bs' →
  n = length bs' →
  find_slots n i t x = Done (find_buckets cmp x bs').
Proof.
  induction bs' as [|b bs' IH]; intros n i Hs ->; [done|].
  destruct (drop i (t_A t)) as [|s rest] eqn:Ed; [by inversion Hs|].
  apply Forall2_cons in Hs as [Hsb Hs].
  assert (Es : t_A t !! i = Some s).
  { rewrite <-(Nat.add_0_r i), <-lookup_drop, Ed. done. }
  assert (Er : drop (S i) (t_A t) = rest).
  { rewrite (drop_S _ _ _ Es) in Ed. by injection Ed. }
  cbn [length find_slots find_buckets]. unfold array_get.
  rewrite Es, bind_Done, (queues_find_slot s b x Hsb), bind_Done.
  destruct (find_vals cmp x b); [done|].
  apply IH; [by rewrite Er|done].
Qed.

Lemma hashtabs_find_ok t bs x :
  hashtabs_ok cmp hash t bs →
  hashtabs_find t x = Done (find_buckets cmp x bs).
Proof.
  intros [_ _ _ Hl Hs _ _]. unfold hashtabs_find.
  apply find_slots_ok; [done|].
  by rewrite <-Hl, (Forall2_length _ _ _ Hs).
Qed.

Lemma set_A_id t : set_A t (t_A t) = t.
Proof. by destruct t. Qed.

(** Removal: the slots are tried in order; the first chain that holds a
    member comparing equal gives it up. *)
Lemma remove_slots_ok t bs x : ∀ n i,
  hashtabs_ok cmp hash t bs →
  i + n = length bs →
  ∃ t',
    remove_slots n i t x
      = Done (t', (remove_buckets cmp x (drop i bs)).2) ∧
    hashtabs_ok cmp hash t'
      (take i bs ++ (remove_buckets cmp x (drop i bs)).1) ∧
    t_cap_index t' = t_cap_index t ∧
    t_size t' = match (remove_buckets cmp x (drop i bs)).2 with
                | Some _ => size_decr (t_size t)
                | None => t_size t
                end.
Proof.
  induction n as [|n IH]; intros i Hok Hn.
  { rewrite drop_ge by lia. simpl. exists t.
    rewrite take_ge, app_nil_r by lia. done. }
  pose proof Hok as [Hc Hh Hcap Hl Hs Hsz Hld].
  pose proof (Forall2_length _ _ _ Hs) as Hlen.
  destruct (lookup_lt_is_Some_2 (t_A t) i ltac:(lia)) as [s Es].
  destruct (Forall2_lookup_l _ _ _ _ _ Hs Es) as (b & Eb & Hsb).
  rewrite (drop_S _ _ _ Eb). cbn [remove_slots remove_buckets].
  unfold array_get. rewrite Es, bind_Done.
  destruct s as [q|]; simpl in Hsb.
  - destruct (queues_remove_ok cmp Hlo q b x Hsb)
      as (q' & -> & Hq' & _ & Hsame & _).
    rewrite bind_Done.
    destruct (del cmp x b) as [b' [v|]] eqn:Ed; cbn [fst snd] in *.
    + rewrite bind_Done. cbn [t_A set_A t_size t_load t_cap_index].
      eexists. split; [done|]. split_and!; try done.
      split; cbn [t_A t_size t_load t_cap_index t_cmp t_hash]; try done.
      * by rewrite length_insert.
      * rewrite <-insert_take_drop by lia. by apply Forall2_insert.
      * apply to_size_t_range.
      * destruct (queues_size q' =? 0)%Z; [apply to_size_t_range|done].
    + rewrite (Hsame eq_refl), list_insert_id, set_A_id by done.
      destruct (IH (S i) Hok ltac:(lia)) as (t' & -> & Hok' & ? & ?).
      pose proof (del_spec cmp Hlo x b (slot_ok_ascending cmp (Some q) b Hsb))
        as Hd.
      rewrite Ed in Hd. destruct Hd as [-> _].
      destruct (remove_buckets cmp x (drop (S i) bs)) as [r o] eqn:Er.
      cbn [fst snd] in *. exists t'. split_and!; try done.
      rewrite (take_S_r _ _ _ Eb), <-app_assoc in Hok'. done.
  - subst b. cbn [queues_remove]. rewrite bind_Done.
    rewrite list_insert_id, set_A_id by done.
    destruct (IH (S i) Hok ltac:(lia)) as (t' & -> & Hok' & ? & ?).
    cbn [del].
    destruct (remove_buckets cmp x (drop (S i) bs)) as [r o] eqn:Er.
    cbn [fst snd] in *. exists t'. split_and!; try done.
    rewrite (take_S_r _ _ _ Eb), <-app_assoc in Hok'. done.
Qed.

Lemma hashtabs_remove_ok t bs x :
  hashtabs_ok cmp hash t bs →
  ∃ t',
    hashtabs_remove t x = Done (t', (remove_buckets cmp x bs).2) ∧
    hashtabs_ok cmp hash t' (remove_buckets cmp x bs).1 ∧
    t_cap_index t' = t_cap_index t ∧
    t_size t' = match (remove_buckets cmp x bs).2 with
                | Some _ => size_decr (t_size t)
                | None => t_size t
                end.
Proof.
  intros Hok. pose proof Hok as [_ _ _ Hl Hs _ _].
  unfold hashtabs_remove.
  apply (remove_slots_ok t bs x _ 0 Hok).
  by rewrite <-Hl, (Forall2_length _ _ _ Hs).
Qed.
End directory_scans.

Section directory_folds.
Context {A Y H : Type} (cmp : A → A → Z) (hash : A → Z).
Context (Hlo : LinearOrder cmp).
Implicit Types (t : hashtabs_t A Y H) (bs : list (list A)) (x v w : A).
Implicit Types (s : option (queues_t A Y)) (ks : list A).

(** Inserting a key that compares equal to no entry adds it. *)
Lemma hashtabs_insert_fresh t bs x :
  hashtabs_ok cmp hash t bs →
  (∀ w, w ∈ concat bs → cmp x w ≠ 0%Z) →
  ∃ t' bs',
    hashtabs_insert t x = Done t' ∧ hashtabs_ok cmp hash t' bs' ∧
    concat bs' ≡ₚ x :: concat bs ∧
    t_size t' = size_incr (t_size t) ∧
    t_cap_index t' = t_cap_index t ∧
    t_cmp_r t' = t_cmp_r t ∧ t_hash_r t' = t_hash_r t.
Proof.
  intros Hok Hne.
  destruct (hashtabs_insert_ok cmp hash Hlo t bs x Hok)
    as (t' & s & b & Es & Eb & Hrun & Hok' & Hsz & _ & Hcap & ? & ? & _).
  eexists t', _. split_and!; try done.
  eapply concat_insert_perm; [done|]. apply ins_new.
  intros w Hw. apply Hne. by eapply elem_of_concat_lookup.
Qed.

Lemma insert_all_ok ks : ∀ t bs,
  hashtabs_ok cmp hash t bs →
  distinct_keys cmp (concat bs ++ ks) →
  ∃ t' bs',
    insert_all t ks = Done t' ∧ hashtabs_ok cmp hash t' bs' ∧
    concat bs' ≡ₚ concat bs ++ ks ∧
    t_size t' = to_size_t (t_size t + Z.of_nat (length ks)) ∧
    t_cap_index t' = t_cap_index t ∧
    t_cmp_r t' = t_cmp_r t ∧ t_hash_r t' = t_hash_r t.
Proof.
  induction ks as [|x ks IH]; intros t bs Hok Hd.
  { exists t, bs. rewrite app_nil_r, Z.add_0_r. split_and!; try done.
    symmetry. apply to_size_t_id, Hok. }
  pose proof (distinct_keys_fresh cmp _ _ _ Hd) as Hne.
  destruct (hashtabs_insert_fresh t bs x Hok Hne)
    as (t1 & bs1 & Hrun & Hok1 & Hp1 & Hsz1 & Hcap1 & ? & ?).
  destruct (IH t1 bs1 Hok1) as (t' & bs' & Hrun' & Hok' & Hp' & Hsz' & Hcap' & ? & ?).
  { eapply distinct_keys_perm; [|exact Hd].
    rewrite Hp1. simpl. symmetry. apply Permutation_middle. }
  exists t', bs'. unfold insert_all in *. cbn [visit].
  rewrite Hrun, bind_Done, Hrun'. split_and!; try done; try congruence.
  - rewrite Hp', Hp1. simpl. apply Permutation_middle.
  - rewrite Hsz', Hsz1. unfold size_incr. rewrite to_size_t_add_l.
    f_equal. simpl length. lia.
Qed.

Lemma visit_app {St} (g : A → St → outcome St) ks ks' : ∀ y,
  visit g (ks ++ ks') y = y' ← visit g ks y; visit g ks' y'.
Proof.
  induction ks as [|k ks IH]; intros y; simpl; [done|].
  destruct (g k y); simpl; [apply IH|done..].
Qed.

(** *** Traversal *)

Lemma queues_map_r_slot {St} (apply : A → St → outcome (A * St * Z))
    (g : A → St → outcome St) s b y :
  (∀ v y, apply v y = y' ← g v y; Done (v, y', 1%Z)) →
  slot_ok cmp s b →
  queues_map_r s apply y = y' ← visit g b y; Done (s, y', 1%Z).
Proof.
  intros Happ. destruct s as [q|]; simpl.
  - intros (l & Hrep & <- & _). by eapply queues_map_r_visit.
  - by intros ->.
Qed.

Lemma map_r_slots_visit {St} (apply : A → St → outcome (A * St * Z))
    (g : A → St → outcome St) t bs :
  (∀ v y, apply v y = y' ← g v y; Done (v, y', 1%Z)) →
  hashtabs_ok cmp hash t bs →
  ∀ n i y, i + n = length bs →
  map_r_slots n i t apply y
  = y' ← visit g (concat (drop i bs)) y; Done (t, y', 1%Z).
Proof.
  intros Happ Hok. pose proof Hok as [_ _ _ _ Hs _ _].
  pose proof (Forall2_length _ _ _ Hs) as Hlen.
  induction n as [|n IH]; intros i y Hn.
  { rewrite drop_ge by lia. done. }
  destruct (lookup_lt_is_Some_2 (t_A t) i ltac:(lia)) as [s Es].
  destruct (Forall2_lookup_l _ _ _ _ _ Hs Es) as (b & Eb & Hsb).
  rewrite (drop_S _ _ _ Eb). cbn [map_r_slots concat]. unfold array_get.
  rewrite Es, bind_Done, (queues_map_r_slot apply g s b y Happ Hsb).
  rewrite visit_app. destruct (visit g b y) as [y1| | |]; try done.
  rewrite !bind_Done. change (1 <? 0)%Z with false. cbv iota.
  rewrite list_insert_id, set_A_id by done. apply IH. lia.
Qed.

Lemma hashtabs_to_list_ok t bs :
  hashtabs_ok cmp hash t bs → hashtabs_to_list t = Done (concat bs).
Proof.
  intros Hok. pose proof Hok as [_ _ _ Hl Hs _ _].
  unfold hashtabs_to_list, hashtabs_map_r.
  rewrite (map_r_slots_visit collect (λ v acc, Done (acc ++ [v])) t bs
             ltac:(done) Hok _ 0)
    by (by rewrite <-Hl, (Forall2_length _ _ _ Hs)).
  by rewrite drop_0, visit_collect.
Qed.

(** *** Rehash *)

Lemma rehash_visit ks : ∀ y : rehash_t A Y H,
  visit (λ v y, t ← hashtabs_insert (r_t y) v;
                Done (Rehash t (r_hash_arg y) (r_queue_arg y))) ks y
  = t' ← insert_all (r_t y) ks;
    Done (Rehash t' (r_hash_arg y) (r_queue_arg y)).
Proof.
  induction ks as [|k ks IH]; intros y; unfold insert_all; simpl.
  - by destruct y.
  - destruct (hashtabs_insert (r_t y) k) as [t1| | |]; simpl; [|done..].
    apply IH.
Qed.

Lemma rehash_slots_visit t bs :
  hashtabs_ok cmp hash t bs →
  ∀ n i (y : rehash_t A Y H), i + n = length bs →
  rehash_slots n i t y
  = y' ← visit (λ v y, t ← hashtabs_insert (r_t y) v;
                       Done (Rehash t (r_hash_arg y) (r_queue_arg y)))
               (concat (drop i bs)) y;
    Done (t, y').
Proof.
  intros Hok. pose proof Hok as [_ _ _ _ Hs _ _].
  pose proof (Forall2_length _ _ _ Hs) as Hlen.
  induction n as [|n IH]; intros i y Hn.
  { rewrite drop_ge by lia. done. }
  destruct (lookup_lt_is_Some_2 (t_A t) i ltac:(lia)) as [s Es].
  destruct (Forall2_lookup_l _ _ _ _ _ Hs Es) as (b & Eb & Hsb).
  rewrite (drop_S _ _ _ Eb). cbn [rehash_slots concat]. unfold array_get.
  rewrite Es, bind_Done.
  set (g := λ v (y : rehash_t A Y H),
              t ← hashtabs_insert (r_t y) v;
              Done (Rehash t (r_hash_arg y) (r_queue_arg y))).
  rewrite (queues_map_r_slot _rehash g s b y); [| |done].
  2:{ intros v y0. unfold _rehash, g.
      by destruct (hashtabs_insert (r_t y0) v). }
  rewrite visit_app. destruct (visit g b y) as [y1| | |]; try done.
  rewrite !bind_Done.
  rewrite list_insert_id, set_A_id by done. apply IH. lia.
Qed.

(** The rehash leaves [t] as it is and returns the new directory filled with
    the entries of [t], in slot order. *)
Lemma hashtabs_rehash_eq t bs :
  hashtabs_ok cmp hash t bs →
  hashtabs_rehash t
  = t' ← insert_all
          (hashtabs_new (t_cmp t) (t_cmp_r t) (t_hash t) (t_hash_r t)
                        (prime_at (t_cap_index t)))
          (concat bs);
    Done (t, t').
Proof.
  intros Hok. pose proof Hok as [_ _ _ Hl Hs _ _].
  unfold hashtabs_rehash.
  rewrite (rehash_slots_visit t bs Hok _ 0)
    by (by rewrite <-Hl, (Forall2_length _ _ _ Hs)).
  rewrite drop_0, rehash_visit. cbn [r_t r_hash_arg r_queue_arg].
  by destruct (insert_all _ (concat bs)).
Qed.
End directory_folds.

Section directory_buckets.
Context {A Y H : Type} (cmp : A → A → Z) (hash : A → Z).
Context (Hlo : LinearOrder cmp).
Implicit Types (t : hashtabs_t A Y H) (bs : list (list A)) (x v w : A).

(** [hashtabs_insert] is [insert_bucket] on the buckets. *)
Lemma hashtabs_insert_bucket t bs x :
  hashtabs_ok cmp hash t bs →
  ∃ t', hashtabs_insert t x = Done t' ∧
        hashtabs_ok cmp hash t' (insert_bucket cmp hash (t_cap_index t) bs x) ∧
        t_size t' = size_incr (t_size t) ∧
        t_cap_index t' = t_cap_index t.
Proof.
  intros Hok.
  destruct (hashtabs_insert_ok cmp hash Hlo t bs x Hok)
    as (t' & s & b & _ & Eb & Hrun & Hok' & Hsz & _ & Hcap & _).
  exists t'. unfold insert_bucket. rewrite Eb. done.
Qed.

Lemma insert_all_buckets ks : ∀ t bs,
  hashtabs_ok cmp hash t bs →
  ∃ t', insert_all t ks = Done t' ∧
        hashtabs_ok cmp hash t'
          (foldl (insert_bucket cmp hash (t_cap_index t)) bs ks) ∧
        t_size t' = to_size_t (t_size t + Z.of_nat (length ks)) ∧
        t_cap_index t' = t_cap_index t.
Proof.
  induction ks as [|x ks IH]; intros t bs Hok.
  { exists t. rewrite Z.add_0_r. split_and!; try done.
    symmetry. apply to_size_t_id, Hok. }
  destruct (hashtabs_insert_bucket t bs x Hok) as (t1 & Hrun & Hok1 & Hsz1 & Hcap1).
  destruct (IH t1 _ Hok1) as (t' & Hrun' & Hok' & Hsz' & Hcap').
  exists t'. unfold insert_all in *. cbn [visit foldl].
  rewrite Hrun, bind_Done, Hrun'. rewrite Hcap1 in Hok'.
  split_and!; try done; try congruence.
  rewrite Hsz', Hsz1. unfold size_incr. rewrite to_size_t_add_l.
  f_equal. simpl length. lia.
Qed.
End directory_buckets.


(** ** The rehash as a migration *)

Section directory_rehash.
Context {A Y H : Type} (cmp : A → A → Z) (hash : A → Z).
Context (Hlo : LinearOrder cmp).
Implicit Types (t : hashtabs_t A Y H) (bs : list (list A)) (x v w : A).

Lemma distinct_keys_find x bs bs' v :
  Forall (ascending cmp) bs' → distinct_keys cmp (concat bs) →
  concat bs' ≡ₚ concat bs →
  find_buckets cmp x bs = Some v → find_buckets cmp x bs' = Some v.
Proof.
  intros Hs Hd Hp [Hv E]%find_buckets_Some.
  apply (find_buckets_distinct cmp Hlo); try done.
  - by apply (distinct_keys_perm cmp (concat bs)).
  - by rewrite Hp.
Qed.

(** The rehash fills a fresh directory, sized for [capacity t] keys, with
    the entries of [t], and leaves [t] as it was; the bucket array of the
    fresh directory is there when the capacity of [t] is below the last
    prime. *)
Lemma hashtabs_rehash_ok t bs :
  directory_ok cmp hash t bs →
  (hashtabs_capacity t < 770793589)%Z →
  ∃ t' bs',
    hashtabs_rehash t = Done (t, t') ∧
    directory_ok cmp hash t' bs' ∧ concat bs' ≡ₚ concat bs ∧
    t_cap_index t' = _get_cap_index (hashtabs_capacity t) ∧
    hashtabs_size t' = Z.of_nat (length (concat bs)).
Proof.
  intros (Hok & Hd & Hcount) Hcap.
  pose proof Hok as [Hc Hh _ _ _ Hsz _].
  rewrite (hashtabs_rehash_eq cmp hash t bs Hok), Hc, Hh.
  pose proof (hashtabs_new_ok (Y:=Y) (H:=H) cmp hash (t_cmp_r t) (t_hash_r t)
                (prime_at (t_cap_index t)) Hcap) as Hok0.
  destruct (insert_all_ok cmp hash Hlo (concat bs) _ _ Hok0)
    as (t' & bs' & Hrun & Hok' & Hp & Hsz' & Hcap' & _).
  { by rewrite concat_replicate_nil. }
  rewrite concat_replicate_nil in Hp. cbn [app] in Hp.
  assert (Hlen : hashtabs_size t' = Z.of_nat (length (concat bs))).
  { unfold hashtabs_size. rewrite Hsz'. cbn [hashtabs_new t_size].
    rewrite Z.add_0_l. apply to_size_t_id. lia. }
  exists t', bs'. rewrite Hrun, bind_Done. split_and!; try done.
  split_and!; [done| |].
  - by apply (distinct_keys_perm cmp (concat bs)).
  - unfold hashtabs_size in Hlen. rewrite Hlen, Hp. lia.
Qed.
(** From the last prime on the fresh directory has no bucket array, and the
    first entry to move is written through [NULL]. *)
Lemma hashtabs_rehash_no_room t bs :
  hashtabs_ok cmp hash t bs →
  (770793589 ≤ hashtabs_capacity t)%Z →
  concat bs ≠ [] →
  hashtabs_rehash t = Undefined.
Proof.
  intros Hok Hcap Hne. pose proof Hok as [Hc Hh _ _ _ _ _].
  rewrite (hashtabs_rehash_eq cmp hash t bs Hok), Hh.
  destruct (concat bs) as [|x xs]; [done|].
  assert (Hfirst : hashtabs_insert
                     (hashtabs_new (t_cmp t) (t_cmp_r t) (Some hash)
                        (t_hash_r t) (prime_at (t_cap_index t))) x
                   = Undefined).
  { unfold hashtabs_insert.
    cbn [hashtabs_new t_hash t_cap_index t_A call]. rewrite bind_Done.
    fold (hashtabs_capacity t).
    by rewrite (get_cap_index_clamp _ Hcap), calloc_sentinel. }
  unfold insert_all. cbn [visit]. by rewrite Hfirst.
Qed.
Lemma concat_insert_replicate_nil k : ∀ i (b : list A),
  i < k → concat (<[i := b]> (replicate k [])) = b.
Proof.
  induction k as [|k IH]; intros i b Hi; [lia|].
  destruct i as [|i]; simpl.
  - by rewrite concat_replicate_nil, app_nil_r.
  - apply IH. lia.
Qed.

(** An expected count from the last prime but one on gives the capacity
    770793589; the directory after one insert holds the key, and its rehash
    has no room. *)
Lemma hashtabs_insert_last_prime (cmp_r : option (A → A → Y → Z))
    (hash_r : option (A → H → Z)) n x :
  (513862367 ≤ n < 770793589)%Z →
  ∃ t,
    hashtabs_insert (hashtabs_new (Some cmp) cmp_r (Some hash) hash_r n) x
      = Done t ∧
    hashtabs_capacity t = 770793589%Z ∧
    hashtabs_to_list t = Done [x] ∧
    hashtabs_rehash t = Undefined.
Proof.
  intros Hn.
  assert (Hidx : _get_cap_index n = 44%Z).
  { pose proof (get_cap_index_below n ltac:(lia)) as Hr.
    destruct (get_cap_index_spec n) as (_ & _ & Habove).
    specialize (Habove ltac:(lia)).
    destruct (Z.eq_dec (_get_cap_index n) 44%Z) as [|Hne]; [done|].
    pose proof (prime_at_mono (_get_cap_index n) 43%Z) as Hm.
    assert (prime_at 43%Z = 513862367%Z) as Hp by reflexivity.
    destruct (Z.eq_dec (_get_cap_index n) 43%Z) as [E|];
      [rewrite E in Habove; lia|].
    unfold NPRIMES in *. lia. }
  pose proof (hashtabs_new_ok (Y:=Y) (H:=H) cmp hash cmp_r hash_r n
                ltac:(lia)) as Hok0.
  set (t0 := hashtabs_new (Some cmp) cmp_r (Some hash) hash_r n) in *.
  set (k := Z.to_nat (prime_at (_get_cap_index n))) in *.
  destruct (hashtabs_insert_ok cmp hash Hlo t0 _ x Hok0)
    as (t & s & b & _ & Eb & Hrun & Hok & _ & _ & Hcap & _).
  apply lookup_replicate in Eb as [-> Hi]. cbn [ins] in Hok.
  assert (Hcat : concat (<[slot_of hash (t_cap_index t0) x := [x]]>
                           (replicate k [])) = [x])
    by (by apply concat_insert_replicate_nil).
  assert (Hc : hashtabs_capacity t = 770793589%Z).
  { unfold hashtabs_capacity. rewrite Hcap. unfold t0.
    cbn [hashtabs_new t_cap_index]. by rewrite Hidx. }
  exists t. split_and!; [done|done| |].
  - by rewrite (hashtabs_to_list_ok cmp hash t _ Hok), Hcat.
  - apply (hashtabs_rehash_no_room t _ Hok); [lia|]. by rewrite Hcat.
Qed.
End directory_rehash.

(** ** Directories built by the operations *)

Section directory_reachable.
Context {A Y H : Type} (cmp : A → A → Z) (hash : A → Z).
Context (Hlo : LinearOrder cmp) (Hhash : hash_respects cmp hash).
Local Abbreviation run_inv := (run_inv cmp hash).
Implicit Types (t : hashtabs_t A Y H) (bs : list (list A)) (x v w : A).

Lemma del_elem x xs v : v ∈ (del cmp x xs).1 → v ∈ xs.
Proof.
  induction xs as [|y ys IH]; simpl; [done|].
  destruct (cmp x y =? -1)%Z; [done|].
  destruct (cmp x y =? 0)%Z; simpl; [intros Hv; apply elem_of_cons; by right|].
  destruct (del cmp x ys) as [r o]. simpl in *.
  intros [->|Hv]%elem_of_cons; apply elem_of_cons; [by left|right; auto].
Qed.

Lemma remove_buckets_elem x bs : ∀ i b' v,
  (remove_buckets cmp x bs).1 !! i = Some b' → v ∈ b' →
  ∃ b, bs !! i = Some b ∧ v ∈ b.
Proof.
  induction bs as [|b bs IH]; intros i b' v; simpl; [done|].
  pose proof (del_elem x b) as Hd.
  destruct (del cmp x b) as [b1 [u|]]; simpl in *.
  - destruct i as [|i]; simpl; [|by eauto].
    intros [= <-] Hv. eauto.
  - specialize (IH (pred i) b' v).
    destruct (remove_buckets cmp x bs) as [r o]. simpl in *.
    destruct i as [|i]; simpl in *; [|done].
    intros [= <-] Hv. eauto.
Qed.

Lemma placed_insert c bs x b :
  placed hash c bs → bs !! slot_of hash c x = Some b →
  placed hash c (<[slot_of hash c x := ins cmp x b]> bs).
Proof.
  intros Hpl Hb i b' v Hi Hv.
  destruct (decide (i = slot_of hash c x)) as [->|Hne].
  - rewrite list_lookup_insert_eq in Hi by (by eapply lookup_lt_Some).
    injection Hi as <-. apply ins_elem in Hv as [->|Hv]; [done|].
    by eapply Hpl.
  - rewrite list_lookup_insert_ne in Hi by done. by eapply Hpl.
Qed.

Lemma placed_remove c bs x :
  placed hash c bs → placed hash c (remove_buckets cmp x bs).1.
Proof.
  intros Hpl i b' v Hi Hv.
  destruct (remove_buckets_elem x bs i b' v Hi Hv) as (b & Hb & Hvb).
  by eapply Hpl.
Qed.

Lemma NoDup_concat (xss : list (list A)) :
  Forall NoDup xss →
  (∀ i j b b' v, xss !! i = Some b → xss !! j = Some b' →
                 v ∈ b → v ∈ b' → i = j) →
  NoDup (concat xss).
Proof.
  induction xss as [|b xss IH]; intros Hnd Hdisj; simpl; [apply NoDup_nil_2|].
  apply Forall_cons in Hnd as [Hb Hnd]. apply NoDup_app. split_and!; [done| |].
  - intros v Hv (b' & Hb' & Hv')%elem_of_concat.
    apply list_elem_of_lookup_1 in Hb' as [j Hj].
    by specialize (Hdisj 0 (S j) b b' v eq_refl Hj Hv Hv').
  - apply IH; [done|]. intros i j b1 b2 v Hi Hj Hv1 Hv2.
    by injection (Hdisj (S i) (S j) b1 b2 v Hi Hj Hv1 Hv2).
Qed.

(** Keys that sit where they hash to are pairwise distinct. *)
Lemma placed_distinct c bs :
  Forall (ascending cmp) bs → placed hash c bs →
  distinct_keys cmp (concat bs).
Proof.
  intros Hs Hpl. split.
  - apply NoDup_concat.
    + eapply Forall_impl; [done|]. intros b Hb.
      by destruct (ascending_distinct cmp Hlo b Hb).
    + intros i j b b' v Hi Hj Hv Hv'.
      by rewrite <-(Hpl i b v Hi Hv), <-(Hpl j b' v Hj Hv').
  - intros v w (b & Hb & Hv)%elem_of_concat (b' & Hb' & Hw)%elem_of_concat E.
    apply list_elem_of_lookup_1 in Hb as [i Hi].
    apply list_elem_of_lookup_1 in Hb' as [j Hj].
    assert (i = j) as <-.
    { rewrite <-(Hpl i b v Hi Hv), <-(Hpl j b' w Hj Hw).
      unfold slot_of. by rewrite (Hhash v w E). }
    rewrite Hi in Hj. injection Hj as <-.
    apply (ascending_unique cmp Hlo b); try done.
    rewrite Forall_forall in Hs. apply Hs. by eapply list_elem_of_lookup_2.
Qed.

Lemma run_dir_op_inv k t bs (op : dir_op A) :
  run_inv (S k) t bs →
  ∃ t' bs', run_dir_op t op = Done t' ∧ run_inv k t' bs'.
Proof.
  intros (Hok & Hpl & Hlen & Hk).
  pose proof (hashtabs_ok_ascending cmp hash t bs Hok) as Hs.
  pose proof Hok as [_ _ _ _ _ Hsz _].
  destruct op as [x|x]; cbn [run_dir_op].
  - destruct (hashtabs_insert_ok cmp hash Hlo t bs x Hok)
      as (t' & s & b & _ & Eb & Hrun & Hok' & Hsz' & _ & Hcap' & _).
    exists t', (<[slot_of hash (t_cap_index t) x := ins cmp x b]> bs).
    rewrite size_incr_small in Hsz' by lia.
    split; [done|]. split; [done|]. rewrite Hcap', Hsz'. split_and!.
    + by apply placed_insert.
    + assert (Hb : ascending cmp b).
      { rewrite Forall_forall in Hs. apply Hs.
        by eapply list_elem_of_lookup_2. }
      destruct (find_vals cmp x b) as [w|] eqn:Ef.
      * apply find_vals_Some in Ef as [Hw E].
        rewrite (ins_dup cmp Hlo x b Hb) by eauto.
        rewrite list_insert_id by done. lia.
      * pose proof (find_vals_None cmp Hlo x b Hb Ef) as Hne.
        rewrite (concat_insert_perm bs _ b (ins cmp x b) x Eb (ins_new cmp x b Hne)).
        simpl. lia.
    + lia.
  - destruct (hashtabs_remove_ok cmp hash Hlo t bs x Hok)
      as (t' & Hrun & Hok' & Hcap' & Hsz').
    exists t', (remove_buckets cmp x bs).1. rewrite Hrun, bind_Done.
    split; [done|]. split; [done|]. rewrite Hcap'. split; [by apply placed_remove|].
    pose proof (remove_buckets_spec cmp Hlo x bs Hs) as Hsp.
    destruct (remove_buckets cmp x bs) as [bs' [v|]]; cbn [fst snd] in *.
    + destruct Hsp as (_ & Hp & _). apply Permutation_length in Hp.
      simpl in Hp. rewrite Hsz', size_decr_small by lia. lia.
    + destruct Hsp as [-> _]. rewrite Hsz'. lia.
Qed.

Lemma run_dir_ops_inv (ops : list (dir_op A)) : ∀ t bs,
  run_inv (length ops) t bs →
  ∃ t' bs', run_dir_ops t ops = Done t' ∧ run_inv 0 t' bs'.
Proof.
  induction ops as [|op ops IH]; intros t bs Hinv; [by eauto|].
  destruct (run_dir_op_inv _ t bs op Hinv) as (t1 & bs1 & Hrun1 & Hinv1).
  destruct (IH t1 bs1 Hinv1) as (t' & bs' & Hrun' & Hinv').
  exists t', bs'. cbn [run_dir_ops]. by rewrite Hrun1, bind_Done.
Qed.

(** Under a hash function that respects the comparator, the directories
    built from [hashtabs_new], for an expected count below the last prime,
    by fewer than [2^64] inserts and removals are well formed and hold
    pairwise distinct entries. *)
Lemma directory_reachable (cmp_r : option (A → A → Y → Z))
    (hash_r : option (A → H → Z)) n (ops : list (dir_op A)) :
  (n < 770793589)%Z →
  (Z.of_nat (length ops) ≤ SIZE_MAX)%Z →
  ∃ t bs,
    run_dir_ops (hashtabs_new (Some cmp) cmp_r (Some hash) hash_r n) ops
      = Done t ∧
    directory_ok cmp hash t bs.
Proof.
  intros Hn Hlen.
  destruct (run_dir_ops_inv ops
              (hashtabs_new (Some cmp) cmp_r (Some hash) hash_r n)
              (replicate (Z.to_nat (prime_at (_get_cap_index n))) []))
    as (t & bs & Hrun & Hok & Hpl & Hcount & _).
  { split_and!.
    - by apply hashtabs_new_ok.
    - intros i b v [-> _]%lookup_replicate Hv. by apply elem_of_nil in Hv.
    - by rewrite concat_replicate_nil.
    - simpl. lia. }
  exists t, bs. split; [done|]. split_and!; try done.
  apply (placed_distinct (t_cap_index t)); [|done].
  by apply (hashtabs_ok_ascending cmp hash t).
Qed.
End directory_reachable.

(** ** Inserting pairwise distinct keys into a fresh shallow directory *)

Section directory_fill.
Context {A Y H : Type} (cmp : A → A → Z) (hash : A → Z).
Context (Hlo : LinearOrder cmp).

(** After [k] inserts of pairwise distinct keys into the directory that
    [hashtabs_new] returns for an expected count below the last prime,
    [hashtabs_size] is [k] and [hashtabs_find] finds each of the keys. *)
Lemma hashtabs_inserts_counted (cmp_r : option (A → A → Y → Z))
    (hash_r : option (A → H → Z)) n (ks : list A) :
  (n < 770793589)%Z →
  distinct_keys cmp ks →
  (Z.of_nat (length ks) ≤ SIZE_MAX)%Z →
  ∃ t,
    insert_all (hashtabs_new (Some cmp) cmp_r (Some hash) hash_r n) ks
      = Done t ∧
    hashtabs_size t = Z.of_nat (length ks) ∧
    ∀ x, x ∈ ks → hashtabs_find t x = Done (Some x).
Proof.
  intros Hn Hd Hlen.
  pose proof (hashtabs_new_ok (Y:=Y) (H:=H) cmp hash cmp_r hash_r n Hn) as Hok0.
  destruct (insert_all_ok cmp hash Hlo ks _ _ Hok0)
    as (t & bs & Hrun & Hok & Hp & Hsz & _).
  { by rewrite concat_replicate_nil. }
  rewrite concat_replicate_nil in Hp. cbn [app] in Hp.
  exists t. split; [done|]. split.
  - unfold hashtabs_size. rewrite Hsz. cbn [hashtabs_new t_size].
    rewrite Z.add_0_l. apply to_size_t_id. lia.
  - intros x Hx. rewrite (hashtabs_find_ok cmp hash t bs x Hok). f_equal.
    apply (find_buckets_distinct cmp Hlo).
    + by apply (hashtabs_ok_ascending cmp hash t).
    + by apply (distinct_keys_perm cmp ks).
    + by rewrite Hp.
    + apply (lo_refl _ Hlo).
Qed.
End directory_fill.

(** ** The size field and the node count along the operations *)

Section store_size.
Context {A : Type}.
Implicit Types (m : gmap ptr (node_t A)) (a : ptr).

Lemma load_node_inv m p n :
  load_node m p = Done n → ∃ a, p = Some a ∧ m !! a = Some n.
Proof.
  destruct p as [a|]; [|done]. simpl.
  destruct (m !! a) as [n'|] eqn:E; [|done]. intros [= ->]. eauto.
Qed.

Lemma store_prev_size m a v m' : store_prev m a v = Done m' → size m' = size m.
Proof.
  unfold store_prev. intros (n & (? & [= <-] & Hn)%load_node_inv & [= <-])%bind_Done_inv.
  by apply map_size_insert_Some.
Qed.

Lemma store_next_size m a v m' : store_next m a v = Done m' → size m' = size m.
Proof.
  unfold store_next. intros (n & (? & [= <-] & Hn)%load_node_inv & [= <-])%bind_Done_inv.
  by apply map_size_insert_Some.
Qed.

Lemma store_prev_at_size m p v m' :
  store_prev_at m p v = Done m' → size m' = size m.
Proof. destruct p; [apply store_prev_size|done]. Qed.

Lemma store_next_at_size m p v m' :
  store_next_at m p v = Done m' → size m' = size m.
Proof. destruct p; [apply store_next_size|done]. Qed.

Lemma free_node_size m a m' : free_node m a = Done m' → size m = S (size m').
Proof.
  unfold free_node. destruct (m !! a) as [n|] eqn:E; [|done].
  intros [= <-]. rewrite map_size_delete, E. simpl.
  assert (size m ≠ 0) by (by eapply map_size_ne_0_lookup_2).
  lia.
Qed.

Lemma malloc_size m a n : a = malloc m → size (<[a := n]> m) = S (size m).
Proof. intros ->. apply map_size_insert_None, malloc_fresh. Qed.
End store_size.

Section chain_size.
Context {A Y : Type} (cmp : A → A → Z) (Hlo : LinearOrder cmp).
Implicit Types (q : queues_t A Y) (x v w : A) (xs : list A).

Lemma enqueu_body_grows fuel : ∀ q x tmp q',
  enqueu_body fuel q x tmp = Done q' →
  q' = q ∨ (q_size q' = size_incr (q_size q) ∧
            size (q_nodes q') = S (size (q_nodes q))).
Proof.
  induction fuel as [|fuel IH]; intros q x tmp q' Hrun; [done|].
  cbn [enqueu_body] in Hrun.
  apply bind_Done_inv in Hrun as (tn & _ & Hrun).
  destruct (n_next tn) as [nx|]; [|left; by injection Hrun].
  apply bind_Done_inv in Hrun as (nn & _ & Hrun).
  apply bind_Done_inv in Hrun as (c & _ & Hrun).
  destruct (c x (n_x nn) =? -1)%Z.
  { apply bind_Done_inv in Hrun as (m1 & H1%store_prev_size & Hrun).
    apply bind_Done_inv in Hrun as (m2 & H2%store_next_size & Hrun).
    injection Hrun as <-. right. split; [done|]. cbn [q_nodes].
    rewrite H2, H1. by apply malloc_size. }
  destruct (c x (n_x nn) =? 0)%Z; [left; by injection Hrun|].
  destruct (c x (n_x nn) =? 1)%Z; [|done]. by eapply IH.
Qed.

Lemma queues_enqueu_grows q x q' :
  queues_enqueu q x = Done q' → q' = q ∨ chain_grown q q'.
Proof.
  unfold queues_enqueu, chain_grown. intros Hrun.
  destruct (q_head q) as [h|].
  2:{ right. injection Hrun as <-. split; [done|]. by apply malloc_size. }
  apply bind_Done_inv in Hrun as (tl & _ & Hrun).
  apply bind_Done_inv in Hrun as (c & _ & Hrun).
  destruct (c x (n_x tl) =? 0)%Z; [left; by injection Hrun|].
  destruct (c x (n_x tl) =? 1)%Z.
  { apply bind_Done_inv in Hrun as (m1 & H1%store_next_at_size & Hrun).
    injection Hrun as <-. right. split; [done|]. cbn [q_nodes].
    rewrite H1. by apply malloc_size. }
  apply bind_Done_inv in Hrun as (hd & _ & Hrun).
  destruct (c x (n_x hd) =? -1)%Z.
  { apply bind_Done_inv in Hrun as (m1 & H1%store_prev_size & Hrun).
    injection Hrun as <-. right. split; [done|]. cbn [q_nodes].
    rewrite H1. by apply malloc_size. }
  destruct (c x (n_x hd) =? 0)%Z; [left; by injection Hrun|].
  apply enqueu_body_grows in Hrun as [->|Hsz]; [by left|by right].
Qed.

Lemma remove_unlink_shrinks q tmp q' r :
  remove_unlink q tmp = Done (q', r) → chain_shrunk q q'.
Proof.
  unfold remove_unlink. intros Hrun.
  apply bind_Done_inv in Hrun as (tn & _ & Hrun).
  apply bind_Done_inv in Hrun as (m1 & H1%store_next_at_size & Hrun).
  apply bind_Done_inv in Hrun as (tn1 & _ & Hrun).
  apply bind_Done_inv in Hrun as (m2 & H2%store_prev_at_size & Hrun).
  apply bind_Done_inv in Hrun as (tn2 & _ & Hrun).
  apply bind_Done_inv in Hrun as (m3 & H3%free_node_size & Hrun).
  injection Hrun as <- <-. split; [done|]. cbn [q_nodes]. congruence.
Qed.

Lemma remove_body_shrinks fuel : ∀ q x tmp q' v,
  remove_body fuel q x tmp = Done (q', Some v) → chain_shrunk q q'.
Proof.
  induction fuel as [|fuel IH]; intros q x tmp q' v Hrun; [done|].
  cbn [remove_body] in Hrun.
  destruct (decide (tmp = q_tail q)); [done|].
  apply bind_Done_inv in Hrun as (tn & _ & Hrun).
  apply bind_Done_inv in Hrun as (c & _ & Hrun).
  destruct (c x (n_x tn) =? -1)%Z; [done|].
  destruct (c x (n_x tn) =? 0)%Z.
  { destruct tmp as [a|]; [|done]. by eapply remove_unlink_shrinks. }
  destruct (c x (n_x tn) =? 1)%Z; [|done]. by eapply IH.
Qed.

Lemma queues_remove_shrinks q x q' v :
  queues_remove (Some q) x = Done (Some q', Some v) → chain_shrunk q q'.
Proof.
  unfold queues_remove. intros Hrun.
  destruct (q_head q) as [h|]; [|done].
  apply bind_Done_inv in Hrun as (hd & _ & Hrun).
  apply bind_Done_inv in Hrun as (c & _ & Hrun).
  destruct (c x (n_x hd) =? -1)%Z; [done|].
  destruct (c x (n_x hd) =? 0)%Z.
  { apply bind_Done_inv in Hrun as (m1 & H1 & Hrun).
    apply bind_Done_inv in Hrun as (hd' & _ & Hrun).
    apply bind_Done_inv in Hrun as (m2 & H2%free_node_size & Hrun).
    injection Hrun as <- <-. split; [done|]. cbn [q_nodes].
    destruct (n_next hd); [apply store_prev_size in H1|injection H1 as <-];
      congruence. }
  apply bind_Done_inv in Hrun as (tl & _ & Hrun).
  destruct (c x (n_x tl) =? 0)%Z.
  { apply bind_Done_inv in Hrun as (m1 & H1 & Hrun).
    apply bind_Done_inv in Hrun as (tl' & _ & Hrun).
    apply bind_Done_inv in Hrun as (m2 & H2 & Hrun).
    injection Hrun as <- <-. split; [done|]. cbn [q_nodes].
    destruct (q_tail q) as [t|]; [|done]. apply free_node_size in H2.
    destruct (n_prev tl); [apply store_next_size in H1|injection H1 as <-];
      congruence. }
  destruct (c x (n_x tl) =? 1)%Z; [done|].
  apply bind_Done_inv in Hrun as ([q1 r] & H1 & [= -> ->]).
  by eapply remove_body_shrinks.
Qed.

Lemma queues_dequeue_front_shrinks q q' r :
  queues_dequeue_front q = Done (q', r) →
  (r = None ∧ q' = q) ∨ (r ≠ None ∧ chain_shrunk q q').
Proof.
  unfold queues_dequeue_front. intros Hrun.
  destruct (q_head q) as [h|]; [|left; by injection Hrun as <- <-].
  apply bind_Done_inv in Hrun as (hd & _ & Hrun).
  apply bind_Done_inv in Hrun as (m1 & H1%free_node_size & Hrun).
  apply bind_Done_inv in Hrun as (m2 & H2 & Hrun).
  injection Hrun as <- <-. right. split; [done|]. split; [done|].
  cbn [q_nodes].
  destruct (n_next hd); [apply store_prev_size in H2|injection H2 as <-];
    congruence.
Qed.

Lemma queues_dequeue_back_shrinks q q' r :
  queues_dequeue_back q = Done (q', r) →
  (r = None ∧ q' = q) ∨ (r ≠ None ∧ chain_shrunk q q').
Proof.
  unfold queues_dequeue_back. intros Hrun.
  destruct (q_tail q) as [t|]; [|left; by injection Hrun as <- <-].
  apply bind_Done_inv in Hrun as (tl & _ & Hrun).
  apply bind_Done_inv in Hrun as (m1 & H1%free_node_size & Hrun).
  apply bind_Done_inv in Hrun as (m2 & H2 & Hrun).
  injection Hrun as <- <-. right. split; [done|]. split; [done|].
  cbn [q_nodes].
  destruct (n_prev tl); [apply store_next_size in H2|injection H2 as <-];
    congruence.
Qed.

Lemma ins_length x xs :
  ins cmp x xs = xs ∨ length (ins cmp x xs) = S (length xs).
Proof.
  induction xs as [|y ys IH]; simpl; [by right|].
  destruct (cmp x y =? -1)%Z; [by right|].
  destruct (cmp x y =? 0)%Z; [by left|].
  destruct IH as [->|E]; [by left|right; simpl; by rewrite E].
Qed.

(** Two lists a chain holds are the same list. *)
Lemma chain_ok_agree q xs ys : chain_ok cmp q xs → chain_ok cmp q ys → xs = ys.
Proof.
  intros Hx%(queues_to_list_ok cmp) Hy%(queues_to_list_ok cmp). congruence.
Qed.

Lemma chain_ok_head q xs : chain_ok cmp q xs → q_head q = None → xs = [].
Proof.
  intros (l & (_ & _ & _ & Hhd & _)%chain_rep_inv & <- & _) Hn.
  rewrite Hn in Hhd. by destruct l as [|[] ?].
Qed.

Lemma chain_ok_head_Some q xs :
  chain_ok cmp q xs → xs ≠ [] → is_Some (q_head q).
Proof.
  intros (l & (_ & _ & _ & Hhd & _)%chain_rep_inv & <- & _) Hne.
  rewrite Hhd. destruct l as [|[] ?]; [done|by eexists].
Qed.

Lemma removelast_length xs : xs ≠ [] → length xs = S (length (removelast xs)).
Proof.
  destruct xs as [|v xs _] using rev_ind; [done|]. intros _.
  rewrite removelast_last, length_app. simpl. lia.
Qed.

Lemma queues_enqueu_sized k q xs x :
  chain_sized cmp (S k) q xs →
  ∃ q', queues_enqueu q x = Done q' ∧ chain_sized cmp k q' (ins cmp x xs).
Proof.
  intros (Hq & Hsz & Hn & Hk). unfold queues_size in Hsz.
  destruct (queues_enqueu_ok cmp Hlo q xs x Hq) as (q' & Hrun & Hq' & _ & Hsame).
  exists q'. split; [done|]. split; [done|]. unfold queues_size.
  destruct (ins_length x xs) as [E|E].
  { rewrite (Hsame E), E. split_and!; [done|done|lia]. }
  rewrite E.
  destruct (queues_enqueu_grows q x q' Hrun) as [->|[Hsz' Hn']].
  { pose proof (chain_ok_agree q _ _ Hq Hq') as E'. rewrite <-E' in E. lia. }
  rewrite Hsz', Hn'. split_and!; [|lia|lia].
  destruct (q_head q) as [h|] eqn:Hh.
  - rewrite Hsz, size_incr_small by lia. lia.
  - rewrite (chain_ok_head q xs Hq Hh). done.
Qed.

Lemma run_op_sized k q xs (op : chain_op A) q' :
  chain_sized cmp (S k) q xs → run_op q op = Done q' →
  ∃ xs', chain_sized cmp k q' xs'.
Proof.
  intros (Hq & Hsz & Hn & Hk) Hrun. unfold queues_size in Hsz.
  assert (Hs : ascending cmp xs) by (by destruct Hq as (l & _ & _ & ?)).
  destruct op as [x|x| |]; cbn [run_op] in Hrun.
  - destruct (queues_enqueu_sized k q xs x) as (q1 & Hrun1 & Hq1); [done|].
    rewrite Hrun in Hrun1. injection Hrun1 as <-. eauto.
  - destruct (queues_remove_ok cmp Hlo q xs x Hq)
      as (q1 & Hrun1 & Hq1 & _ & Hsame & _).
    rewrite Hrun1, bind_Done in Hrun. injection Hrun as <-.
    exists (del cmp x xs).1. split; [done|]. unfold queues_size.
    pose proof (del_spec cmp Hlo x xs Hs) as Hd.
    destruct (del cmp x xs) as [xs' [v|]]; cbn [fst snd] in *.
    + destruct Hd as (_ & _ & Hp & _). apply Permutation_length in Hp.
      simpl in Hp. apply queues_remove_shrinks in Hrun1 as [-> Hn'].
      rewrite Hsz, size_decr_small by lia. split_and!; lia.
    + destruct Hd as [-> _]. rewrite Hsame by done. split_and!; [done|done|lia].
  - apply bind_Done_inv in Hrun as ([q1 r] & Hrun1 & [= ->]).
    destruct (queues_dequeue_front_ok cmp q xs Hq) as (q2 & Hrun2 & Hq2 & _).
    rewrite Hrun1 in Hrun2. injection Hrun2 as <- ->.
    exists (tail xs). split; [done|]. unfold queues_size.
    destruct (queues_dequeue_front_shrinks q q' _ Hrun1)
      as [[Hr ->]|[Hr [-> Hn']]].
    + destruct xs; [simpl; split_and!; [done|done|lia]|done].
    + destruct xs as [|v xs']; [done|]. simpl in *.
      rewrite Hsz, size_decr_small by lia. split_and!; lia.
  - apply bind_Done_inv in Hrun as ([q1 r] & Hrun1 & [= ->]).
    destruct (queues_dequeue_back_ok cmp q xs q' r Hq Hrun1) as [Hq' Hr].
    exists (removelast xs). split; [done|]. unfold queues_size.
    destruct (queues_dequeue_back_shrinks q q' r Hrun1)
      as [[Hn0 ->]|[_ [-> Hn']]].
    + destruct xs as [|v0 xs0]; [simpl; split_and!; [done|done|lia]|].
      rewrite Hr in Hn0 by done.
      by destruct (last_is_Some (v0 :: xs0)) as [_ [? Hl]]; [|congruence].
    + destruct xs as [|v0 xs0]; [simpl in *; lia|].
      pose proof (removelast_length (v0 :: xs0) ltac:(done)) as Hl.
      rewrite Hsz, size_decr_small by (simpl in *; lia). split_and!; lia.
Qed.

Lemma run_ops_sized (ops : list (chain_op A)) : ∀ q xs q',
  chain_sized cmp (length ops) q xs → run_ops q ops = Done q' →
  ∃ xs', chain_sized cmp 0 q' xs'.
Proof.
  induction ops as [|op ops IH]; intros q xs q' Hq Hrun.
  { injection Hrun as <-. eauto. }
  cbn [run_ops] in Hrun. apply bind_Done_inv in Hrun as (q1 & Hop & Hrun).
  destruct (run_op_sized _ q xs op q1 Hq Hop) as (xs1 & Hq1). eauto.
Qed.
End chain_size.

(** ** Traversals and disposal on linked nodes *)

Section chain_traverse.
Context {A Y : Type} (cmp : A → A → Z).
Implicit Types (q : queues_t A Y) (l : list (ptr * A)) (x v w : A).
Implicit Types (m : gmap ptr (node_t A)) (vs : list A).

Lemma zip_fst_snd l : zip l.*1 l.*2 = l.
Proof. induction l as [|[] ? IH]; simpl; [done|by f_equal]. Qed.

Lemma fst_zip_payloads l vs : length vs = length l → (zip l.*1 vs).*1 = l.*1.
Proof. intros Hl. apply fst_zip. rewrite length_fmap. lia. Qed.

Lemma snd_zip_payloads l vs : length vs = length l → (zip l.*1 vs).*2 = vs.
Proof. intros Hl. apply snd_zip. rewrite length_fmap. lia. Qed.

Lemma first_ptr_zip l vs d :
  length vs = length l → first_ptr (zip l.*1 vs) d = first_ptr l d.
Proof. destruct l as [|[] ?], vs; done. Qed.

Lemma map_vals_length {St} (apply : A → St → outcome (A * St * Z)) xs :
  ∀ y vs y' r, map_vals apply xs y = Done (vs, y', r) → length vs = length xs.
Proof.
  induction xs as [|v xs IH]; intros y vs y' r; simpl.
  { by intros [= <- _ _]. }
  intros ([[v' y1] r1] & _ & Hrun)%bind_Done_inv.
  destruct (r1 <? 0)%Z; [by injection Hrun as <- _ _|].
  apply bind_Done_inv in Hrun as ([[vs' y2] r2] & Hrec & [= <- _ _]).
  simpl. f_equal. by eapply IH.
Qed.

(** The loop of [queues_map_r] only writes to the nodes it visits. *)
Lemma map_r_loop_outside {St} (apply : A → St → outcome (A * St * Z)) l :
  ∀ m pv fuel y m' y' r a,
  NoDup l.*1 → dlseg m pv l None → a ∉ l.*1 →
  map_r_loop fuel apply m (first_ptr l None) y = Done (m', y', r) →
  m' !! a = m !! a.
Proof.
  induction l as [|[b u] l IH]; intros m pv fuel y m' y' r a Hnd Hseg Ha Hloop.
  { destruct fuel; [done|]. by injection Hloop as <- _ _. }
  destruct fuel; [done|]. cbn [first_ptr map_r_loop] in Hloop.
  destruct Hseg as [Hb Hl]. cbn [fmap list_fmap fst] in Hnd, Ha.
  apply NoDup_cons in Hnd as [Hbl Hnd].
  apply not_elem_of_cons in Ha as [Hab Ha].
  rewrite (load_node_Some _ _ _ Hb), bind_Done in Hloop.
  apply bind_Done_inv in Hloop as ([[u' y1] r1] & _ & Hloop).
  rewrite (store_x_Some _ _ _ _ Hb), bind_Done in Hloop.
  cbn [n_prev n_next] in Hloop.
  destruct (r1 <? 0)%Z.
  - injection Hloop as <- _ _. by rewrite lookup_insert_ne.
  - erewrite load_node_Some in Hloop by apply lookup_insert_eq.
    rewrite bind_Done in Hloop. cbn [n_next] in Hloop.
    rewrite (IH _ (Some b) _ _ _ _ _ a Hnd
               (dlseg_insert_ne _ _ _ _ _ _ Hbl Hl) Ha Hloop).
    by rewrite lookup_insert_ne.
Qed.

(** The loop of [queues_map_r] on a linked segment. *)
Lemma map_r_loop_vals {St} (apply : A → St → outcome (A * St * Z)) l :
  ∀ m pv fuel y vs y' r,
  NoDup l.*1 → dlseg m pv l None → length l < fuel →
  map_vals apply l.*2 y = Done (vs, y', r) →
  ∃ m', map_r_loop fuel apply m (first_ptr l None) y = Done (m', y', r) ∧
        dlseg m' pv (zip l.*1 vs) None ∧ size m' = size m.
Proof.
  induction l as [|[a v] l IH]; intros m pv fuel y vs y' r Hnd Hseg Hf Hrun.
  { destruct fuel; [lia|]. injection Hrun as <- <- <-. by exists m. }
  destruct fuel as [|fuel]; [lia|]. simpl in Hf.
  cbn [fmap list_fmap map_vals snd] in Hrun.
  apply bind_Done_inv in Hrun as ([[v' y1] r1] & Happ & Hrun).
  destruct Hseg as [Ha Hl]. cbn [fmap list_fmap fst] in Hnd.
  apply NoDup_cons in Hnd as [Hal Hnd].
  cbn [first_ptr map_r_loop].
  rewrite (load_node_Some _ _ _ Ha), bind_Done. cbn [n_x].
  rewrite Happ, bind_Done.
  rewrite (store_x_Some _ _ _ _ Ha), bind_Done. cbn [n_prev n_next].
  assert (Hsz : size (<[a := Node v' pv (first_ptr l None)]> m) = size m)
    by (by apply map_size_insert_Some).
  destruct (r1 <? 0)%Z.
  - injection Hrun as <- <- <-. eexists. split; [done|].
    split; [|done]. cbn [fmap list_fmap fst zip zip_with].
    fold (fst <$> l). fold (snd <$> l). rewrite zip_fst_snd.
    split; [by rewrite lookup_insert_eq|]. by apply dlseg_insert_ne.
  - apply bind_Done_inv in Hrun as ([[vs' y2] r2] & Hrec & [= <- <- <-]).
    pose proof (map_vals_length apply _ _ _ _ _ Hrec) as Hlen.
    rewrite length_fmap in Hlen.
    erewrite load_node_Some by apply lookup_insert_eq.
    rewrite bind_Done. cbn [n_next].
    destruct (IH (<[a := Node v' pv (first_ptr l None)]> m) (Some a) fuel
                y1 vs' y2 r2) as (m' & Hloop & Hseg' & Hsz');
      [done|by apply dlseg_insert_ne|lia|done|].
    exists m'. split; [done|]. split; [|congruence].
    cbn [fmap list_fmap fst zip zip_with]. fold (fst <$> l).
    split; [|done]. rewrite first_ptr_zip by done.
    rewrite (map_r_loop_outside apply l _ (Some a) _ _ _ _ _ a Hnd
               (dlseg_insert_ne _ _ _ _ _ _ Hal Hl) Hal Hloop).
    by rewrite lookup_insert_eq.
Qed.

Lemma queues_map_r_vals {St} (apply : A → St → outcome (A * St * Z))
    q l y vs y' r :
  chain_rep cmp q l →
  map_vals apply l.*2 y = Done (vs, y', r) →
  ∃ q', queues_map_r (Some q) apply y = Done (Some q', y', r) ∧
        chain_rep cmp q' (zip l.*1 vs) ∧ length vs = length l ∧
        q_size q' = q_size q ∧ size (q_nodes q') = size (q_nodes q).
Proof.
  intros (Hc & Hnd & Hseg & Hhd & Htl)%chain_rep_inv Hrun.
  pose proof (map_vals_length apply _ _ _ _ _ Hrun) as Hlen.
  rewrite length_fmap in Hlen.
  destruct (map_r_loop_vals apply l (q_nodes q) None (S (size (q_nodes q)))
              y vs y' r) as (m' & Hloop & Hseg' & Hsz); try done.
  { apply Nat.lt_succ_r. by eapply dlseg_length. }
  unfold queues_map_r. rewrite Hhd, Hloop, bind_Done.
  eexists. split; [done|]. split_and!; try done.
  split; [done|]. cbn [q_head q_tail q_nodes]. split; try done.
  - by rewrite fst_zip_payloads.
  - by rewrite first_ptr_zip.
  - intros Hne. rewrite Htl by (intros ->; by destruct vs).
    unfold last_ptr. rewrite <-!(fmap_last fst) || idtac.
    clear -Hlen. revert vs Hlen.
    induction l as [|[a v] l IH]; intros [|v' vs] Hlen; try done.
    simpl in Hlen. destruct l as [|[b u] l], vs as [|u' vs]; try done.
    specialize (IH (u' :: vs) ltac:(simpl in *; lia)). simpl in *.
    exact IH.
Qed.

(** The loop of [queues_map] is the loop of [queues_map_r] with a callback
    that leaves the context alone. *)
Lemma map_loop_map_r (apply : A → outcome (A * Z)) fuel : ∀ m tmp,
  map_loop fuel apply m tmp
  = '(m', _, r) ← map_r_loop fuel
        (λ v (_ : unit), '(v', r) ← apply v; Done (v', (), r)) m tmp ();
    Done (m', r).
Proof.
  induction fuel as [|fuel IH]; intros m tmp; [done|].
  cbn [map_loop map_r_loop]. destruct tmp as [a|]; [|done].
  destruct (load_node m (Some a)) as [tn| | |]; try done. rewrite !bind_Done.
  destruct (apply (n_x tn)) as [[v' r]| | |]; try done. rewrite !bind_Done.
  destruct (store_x m a v') as [m1| | |]; try done. rewrite !bind_Done.
  destruct (r <? 0)%Z; [done|].
  destruct (load_node m1 (Some a)) as [tn1| | |]; try done. rewrite !bind_Done.
  apply IH.
Qed.

(** The loop of [queues_free] on a linked segment. *)
Lemma free_loop_seg l : ∀ m pv fuel,
  NoDup l.*1 → dlseg m pv l None → length l < fuel →
  ∃ m', free_loop fuel m (first_ptr l None) = Done m' ∧
        size m = length l + size m' ∧
        ∀ a, a ∉ l.*1 → m' !! a = m !! a.
Proof.
  induction l as [|[a v] l IH]; intros m pv fuel Hnd Hseg Hf.
  { destruct fuel; [lia|]. by exists m. }
  destruct fuel as [|fuel]; [lia|]. simpl in Hf.
  destruct Hseg as [Ha Hl]. cbn [fmap list_fmap fst] in Hnd.
  apply NoDup_cons in Hnd as [Hal Hnd].
  cbn [first_ptr free_loop].
  rewrite (load_node_Some _ _ _ Ha), bind_Done.
  rewrite (free_node_Some _ _ _ Ha), bind_Done. cbn [n_next].
  destruct (IH (delete a m) (Some a) fuel) as (m' & Hloop & Hsz & Hout);
    [done|by apply dlseg_delete_ne|lia|].
  exists m'. split; [done|]. split.
  - rewrite (free_node_size m a (delete a m)); [simpl; lia|].
    by eapply free_node_Some.
  - intros b Hb. cbn [fmap list_fmap fst] in Hb.
    apply not_elem_of_cons in Hb as [Hab Hb].
    by rewrite Hout, lookup_delete_ne.
Qed.

Lemma queues_free_rep q l :
  chain_rep cmp q l →
  ∃ m', queues_free (Some q) = Done (None, m') ∧
        size (q_nodes q) = length l + size m' ∧
        ∀ a, a ∉ l.*1 → m' !! a = q_nodes q !! a.
Proof.
  intros (Hc & Hnd & Hseg & Hhd & Htl)%chain_rep_inv.
  destruct (free_loop_seg l (q_nodes q) None (S (size (q_nodes q))))
    as (m' & Hloop & Hsz & Hout); try done.
  { apply Nat.lt_succ_r. by eapply dlseg_length. }
  exists m'. unfold queues_free. by rewrite Hhd, Hloop.
Qed.
End chain_traverse.

(** ** Chains built by runs of operations *)

Section chain_runs_sized.
Context {A Y : Type} (cmp : A → A → Z) (Hlo : LinearOrder cmp).
Implicit Types (q : queues_t A Y) (xs : list A).

Lemma queues_to_list_rep q l : chain_rep cmp q l → queues_to_list q = Done l.*2.
Proof.
  intros Hrep. unfold queues_to_list.
  erewrite (queues_map_r_visit cmp collect (λ v acc, Done (acc ++ [v])));
    [|done|done].
  by rewrite visit_collect.
Qed.

(** The chain that [queues_new] returns, run through [ops]. *)
Lemma run_ops_new_sized (cmp_r : option (A → A → Y → Z)) q0
    (ops : list (chain_op A)) q :
  queues_new (Some cmp) cmp_r = Done q0 →
  (Z.of_nat (length ops) ≤ SIZE_MAX)%Z →
  run_ops q0 ops = Done q →
  ∃ xs, chain_sized cmp 0 q xs.
Proof.
  intros Hnew Hlen Hrun.
  destruct (queues_new_ok cmp cmp_r) as (q0' & Hnew' & Hq0 & _ & Hsz0).
  rewrite Hnew in Hnew'. injection Hnew' as <-.
  apply (run_ops_sized cmp Hlo ops q0 [] q); [|done].
  split_and!; try done. injection Hnew as <-. done.
Qed.
End chain_runs_sized.

(** ** Lookups and removals in directories built by the operations *)

Section directory_more.
Context {A Y H : Type} (cmp : A → A → Z) (hash : A → Z).
Context (Hlo : LinearOrder cmp).
Local Abbreviation run_inv := (run_inv cmp hash).
Implicit Types (t : hashtabs_t A Y H) (bs : list (list A)) (x v w : A).

Lemma find_buckets_None_inv x bs :
  Forall (ascending cmp) bs → find_buckets cmp x bs = None →
  ∀ w, w ∈ concat bs → cmp x w ≠ 0%Z.
Proof.
  induction bs as [|b bs IH]; intros Hs Hf w Hw; simpl in *;
    [by apply elem_of_nil in Hw|].
  apply Forall_cons in Hs as [Hb Hs].
  destruct (find_vals cmp x b) as [v|] eqn:Ef; [done|].
  apply elem_of_app in Hw as [Hw|Hw].
  - by apply (find_vals_None cmp Hlo x b Hb Ef).
  - by apply IH.
Qed.

Lemma del_missing x b :
  ascending cmp b → (∀ w, w ∈ b → cmp x w ≠ 0%Z) → del cmp x b = (b, None).
Proof.
  intros Hb Hne. pose proof (del_spec cmp Hlo x b Hb) as Hd.
  destruct (del cmp x b) as [b' [v|]].
  - destruct Hd as (Hv & E & _). by destruct (Hne v Hv).
  - by destruct Hd as [-> _].
Qed.

Lemma remove_slots_missing t bs x : ∀ n i,
  hashtabs_ok cmp hash t bs →
  i + n = length bs →
  (∀ w, w ∈ concat (drop i bs) → cmp x w ≠ 0%Z) →
  remove_slots n i t x = Done (t, None).
Proof.
  induction n as [|n IH]; intros i Hok Hn Hne; [done|].
  pose proof Hok as [_ _ _ _ Hs _ _].
  pose proof (Forall2_length _ _ _ Hs) as Hlen.
  destruct (lookup_lt_is_Some_2 (t_A t) i ltac:(lia)) as [s Es].
  destruct (Forall2_lookup_l _ _ _ _ _ Hs Es) as (b & Eb & Hsb).
  rewrite (drop_S _ _ _ Eb) in Hne. cbn [concat] in Hne.
  cbn [remove_slots]. unfold array_get. rewrite Es, bind_Done.
  assert (Hq : queues_remove s x = Done (s, None)).
  { destruct s as [q|]; [|done]. simpl in Hsb.
    destruct (queues_remove_ok cmp Hlo q b x Hsb)
      as (q' & Hrun & _ & _ & Hsame & _).
    rewrite del_missing in Hrun, Hsame.
    - by rewrite Hrun, (Hsame eq_refl).
    - by apply (slot_ok_ascending cmp (Some q)).
    - intros w Hw. apply Hne, elem_of_app. by left.
    - by apply (slot_ok_ascending cmp (Some q)).
    - intros w Hw. apply Hne, elem_of_app. by left. }
  rewrite Hq, bind_Done, list_insert_id, set_A_id by done.
  apply IH; [done|lia|]. intros w Hw. apply Hne, elem_of_app. by right.
Qed.

Lemma hashtabs_remove_missing t bs x :
  hashtabs_ok cmp hash t bs →
  (∀ w, w ∈ concat bs → cmp x w ≠ 0%Z) →
  hashtabs_remove t x = Done (t, None).
Proof.
  intros Hok Hne. pose proof Hok as [_ _ _ Hl Hs _ _].
  unfold hashtabs_remove. apply (remove_slots_missing t bs); [done| |done].
  by rewrite <-Hl, (Forall2_length _ _ _ Hs).
Qed.

Lemma run_dir_ops_inv_k (ops : list (dir_op A)) : ∀ t bs k,
  run_inv (length ops + k) t bs →
  ∃ t' bs', run_dir_ops t ops = Done t' ∧ run_inv k t' bs'.
Proof.
  induction ops as [|op ops IH]; intros t bs k Hinv; [by eauto|].
  destruct (run_dir_op_inv cmp hash Hlo _ t bs op Hinv)
    as (t1 & bs1 & Hrun1 & Hinv1).
  destruct (IH t1 bs1 k Hinv1) as (t' & bs' & Hrun' & Hinv').
  exists t', bs'. cbn [run_dir_ops]. by rewrite Hrun1, bind_Done.
Qed.

(** The directory that [hashtabs_new] returns, run through [ops], with room
    for [k] more operations. *)
Lemma run_dir_ops_new_inv (cmp_r : option (A → A → Y → Z))
    (hash_r : option (A → H → Z)) n (ops : list (dir_op A)) k t :
  (n < 770793589)%Z →
  (Z.of_nat (length ops + k) ≤ SIZE_MAX)%Z →
  run_dir_ops (hashtabs_new (Some cmp) cmp_r (Some hash) hash_r n) ops
    = Done t →
  ∃ bs, run_inv k t bs.
Proof.
  intros Hn Hlen Hrun.
  destruct (run_dir_ops_inv_k ops
              (hashtabs_new (Some cmp) cmp_r (Some hash) hash_r n)
              (replicate (Z.to_nat (prime_at (_get_cap_index n))) []) k)
    as (t' & bs & Hrun' & Hinv).
  { split_and!.
    - by apply hashtabs_new_ok.
    - intros i b v [-> _]%lookup_replicate Hv. by apply elem_of_nil in Hv.
    - by rewrite concat_replicate_nil.
    - simpl. lia. }
  rewrite Hrun in Hrun'. injection Hrun' as <-. eauto.
Qed.
End directory_more.

(** ** The slot a key hashes to *)

Section directory_slot.
Context {A Y H : Type} (cmp : A → A → Z) (hash : A → Z).
Context (Hlo : LinearOrder cmp) (Hhash : hash_respects cmp hash).
Implicit Types (t : hashtabs_t A Y H) (bs : list (list A)) (x v w : A).

(** With the keys placed, a scan of all buckets finds what the bucket of
    the key's own slot holds. *)
Lemma find_buckets_placed c bs x b :
  Forall (ascending cmp) bs → placed hash c bs →
  bs !! slot_of hash c x = Some b →
  find_buckets cmp x bs = find_vals cmp x b.
Proof.
  intros Hs Hpl Hb.
  pose proof (placed_distinct cmp hash Hlo Hhash c bs Hs Hpl) as Hd.
  destruct (find_vals cmp x b) as [v|] eqn:Ef.
  - apply find_vals_Some in Ef as [Hv E].
    apply (find_buckets_distinct cmp Hlo); try done.
    by eapply elem_of_concat_lookup.
  - apply find_buckets_None.
    intros w (b' & Hb' & Hw)%elem_of_concat E.
    apply list_elem_of_lookup_1 in Hb' as [j Hj].
    assert (j = slot_of hash c x) as ->.
    { rewrite <-(Hpl j b' w Hj Hw). unfold slot_of. by rewrite (Hhash x w E). }
    rewrite Hb in Hj. injection Hj as <-.
    assert (Hb0 : ascending cmp b).
    { rewrite Forall_forall in Hs. apply Hs. by eapply list_elem_of_lookup_2. }
    by apply (find_vals_None cmp Hlo x b Hb0 Ef w).
Qed.

Lemma hashtabs_find_slot t bs x :
  hashtabs_ok cmp hash t bs → placed hash (t_cap_index t) bs →
  ∃ s, t_A t !! slot_of hash (t_cap_index t) x = Some s ∧
       hashtabs_find t x = queues_find s x.
Proof.
  intros Hok Hpl. pose proof Hok as [_ _ _ _ Hs _ _].
  pose proof (slot_of_lt cmp hash t bs x Hok) as Hi.
  destruct (lookup_lt_is_Some_2 _ _ Hi) as [s Es].
  destruct (Forall2_lookup_l _ _ _ _ _ Hs Es) as (b & Eb & Hsb).
  exists s. split; [done|].
  rewrite (hashtabs_find_ok cmp hash t bs x Hok).
  rewrite (queues_find_slot cmp s b x Hsb). f_equal.
  apply (find_buckets_placed (t_cap_index t)); try done.
  by apply (hashtabs_ok_ascending cmp hash t).
Qed.
End directory_slot.

(** ** The load counter along inserts *)

Section directory_load.
Context {A Y H : Type} (cmp : A → A → Z) (hash : A → Z).
Context (Hlo : LinearOrder cmp).
Implicit Types (t : hashtabs_t A Y H) (bs : list (list A)) (x v w : A).
Implicit Types (s : option (queues_t A Y)).

Lemma filter_length_insert {T} (f : T → bool) (l : list T) i (u u' : T) :
  l !! i = Some u →
  length (List.filter f (<[i := u']> l)) + (if f u then 1 else 0)
  = length (List.filter f l) + (if f u' then 1 else 0).
Proof.
  revert i. induction l as [|z l IH]; intros [|i] Hi; simpl in *; try done.
  - injection Hi as ->. destruct (f u), (f u'); simpl; lia.
  - specialize (IH i Hi). destruct (f z); simpl; lia.
Qed.

Lemma filter_length_bound {T} (f : T → bool) (l : list T) :
  length (List.filter f l) ≤ length l.
Proof. induction l as [|z l IH]; simpl; [done|]. destruct (f z); simpl; lia. Qed.

Lemma filter_all_false {T} (f : T → bool) (l : list T) :
  Forall (λ z, f z = false) l → List.filter f l = [].
Proof. induction 1 as [|z l Hz _ IH]; simpl; [done|]. by rewrite Hz. Qed.

Lemma filter_length_pos {T} (f : T → bool) (l : list T) i (u : T) :
  l !! i = Some u → f u = true → 0 < length (List.filter f l).
Proof.
  revert i. induction l as [|z l IH]; intros [|i] Hi Hu; simpl in *; try done.
  - injection Hi as ->. rewrite Hu. simpl. lia.
  - specialize (IH i Hi Hu). destruct (f z); simpl; lia.
Qed.

(** What [hashtabs_insert] writes to the bucket array. *)
Lemma hashtabs_insert_slots t x t' :
  hashtabs_insert t x = Done t' →
  ∃ h q', t_hash t = Some h ∧
    t_A t' = <[Z.to_nat (to_size_t (h x) mod prime_at (t_cap_index t))
               := Some q']> (t_A t).
Proof.
  unfold hashtabs_insert. intros Hrun.
  destruct (t_hash t) as [h|]; [|done]. cbn [call] in Hrun.
  rewrite bind_Done in Hrun.
  apply bind_Done_inv in Hrun as (s & _ & Hrun).
  apply bind_Done_inv in Hrun as ([ld q] & _ & Hrun).
  apply bind_Done_inv in Hrun as (q' & _ & [= <-]). by exists h, q'.
Qed.

Lemma chain_ok_nonempty (q : queues_t A Y) xs :
  chain_ok cmp q xs → xs ≠ [] → chain_nonempty (Some q) = true.
Proof.
  intros Hq Hne. simpl.
  by destruct (chain_ok_head_Some cmp q xs Hq Hne) as [h ->].
Qed.

Lemma ins_nonempty x xs : ins cmp x xs ≠ [].
Proof.
  destruct xs as [|y ys]; simpl; [done|].
  destruct (cmp x y =? -1)%Z; [done|]. by destruct (cmp x y =? 0)%Z.
Qed.

Lemma hashtabs_new_load_ok (cmp0 : option (A → A → Z))
    (cmp_r : option (A → A → Y → Z)) (hash0 : option (A → Z))
    (hash_r : option (A → H → Z)) n :
  load_ok (hashtabs_new cmp0 cmp_r hash0 hash_r n).
Proof.
  assert (Hnull : Forall (λ s : option (queues_t A Y), s = None)
                    (t_A (hashtabs_new cmp0 cmp_r hash0 hash_r n))).
  { cbn [hashtabs_new t_A]. unfold calloc.
    destruct (_ <=? _)%Z; [by apply Forall_replicate|constructor]. }
  split_and!; [|by eapply Forall_impl; [done|]; left|done].
  unfold nonempty_chains. cbn [hashtabs_new t_load].
  rewrite filter_all_false; [done|].
  eapply Forall_impl; [done|]. by intros s ->.
Qed.

Lemma hashtabs_insert_load t bs x t' :
  hashtabs_ok cmp hash t bs → load_ok t →
  (t_size t < SIZE_MAX)%Z →
  hashtabs_insert t x = Done t' →
  load_ok t' ∧ (0 < t_load t')%Z.
Proof.
  intros Hok (Hld & Hne & Hle) Hsz Hrun.
  destruct (hashtabs_insert_ok cmp hash Hlo t bs x Hok)
    as (t1 & s & b & Es & Eb & Hrun1 & Hok1 & Hsz1 & Hld1 & _).
  rewrite Hrun in Hrun1. injection Hrun1 as <-.
  destruct (hashtabs_insert_slots t x t' Hrun) as (h & q' & Hh & HA).
  pose proof Hok as [_ Hh' _ Hl _ Hrange _]. rewrite Hh' in Hh.
  injection Hh as <-. fold (slot_of hash (t_cap_index t) x) in HA.
  set (i := slot_of hash (t_cap_index t) x) in *.
  assert (Hq' : chain_nonempty (Some q') = true).
  { destruct Hok1 as [_ _ _ _ Hs1 _ _]. rewrite HA in Hs1.
    assert (Hi : (<[i:=Some q']> (t_A t)) !! i = Some (Some q'))
      by (apply list_lookup_insert_eq; by eapply lookup_lt_Some).
    destruct (Forall2_lookup_l _ _ _ _ _ Hs1 Hi) as (b' & Eb' & Hsb').
    rewrite list_lookup_insert_eq in Eb' by (by eapply lookup_lt_Some).
    injection Eb' as <-. apply (chain_ok_nonempty q' _ Hsb'), ins_nonempty. }
  pose proof (filter_length_insert chain_nonempty (t_A t) i s (Some q') Es)
    as Hcount.
  rewrite Hq' in Hcount.
  pose proof (filter_length_bound chain_nonempty (<[i:=Some q']> (t_A t)))
    as Hbound.
  rewrite length_insert, Hl in Hbound.
  pose proof (prime_at_bounds (t_cap_index t) ltac:(by destruct Hok)) as Hp.
  assert (Hpos : 0 < length (List.filter chain_nonempty (<[i:=Some q']> (t_A t)))).
  { eapply filter_length_pos; [|exact Hq'].
    apply list_lookup_insert_eq. by eapply lookup_lt_Some. }
  unfold load_ok, nonempty_chains in *. rewrite HA, Hsz1, Hld1.
  rewrite (size_incr_small (t_size t)) by lia.
  assert (Hs : s = None ∨ chain_nonempty s = true).
  { rewrite Forall_forall in Hne. apply Hne. by eapply list_elem_of_lookup_2. }
  destruct s as [q|].
  - destruct Hs as [?|Hs]; [done|]. rewrite Hs in Hcount.
    split_and!; [lia| |lia|lia].
    apply Forall_insert; [done|by right].
  - simpl in Hcount. rewrite (size_incr_small (t_load t)) by lia.
    split_and!; [lia| |lia|lia].
    apply Forall_insert; [done|by right].
Qed.

Lemma insert_all_load ks : ∀ t bs t',
  hashtabs_ok cmp hash t bs → load_ok t →
  (t_size t + Z.of_nat (length ks) ≤ SIZE_MAX)%Z →
  insert_all t ks = Done t' →
  load_ok t' ∧ (ks ≠ [] → (0 < t_load t')%Z).
Proof.
  induction ks as [|x ks IH]; intros t bs t' Hok Hld Hsz Hrun.
  { injection Hrun as <-. done. }
  unfold insert_all in Hrun. cbn [visit] in Hrun.
  apply bind_Done_inv in Hrun as (t1 & Hins & Hrun).
  destruct (hashtabs_insert_ok cmp hash Hlo t bs x Hok)
    as (t2 & s & b & _ & _ & Hrun2 & Hok2 & Hsz2 & _).
  rewrite Hins in Hrun2. injection Hrun2 as <-.
  pose proof Hok as [_ _ _ _ _ Hrange _].
  destruct (hashtabs_insert_load t bs x t1 Hok Hld) as [Hld1 Hpos];
    [simpl in Hsz; lia|done|].
  rewrite size_incr_small in Hsz2 by (simpl in Hsz; lia).
  destruct (IH t1 _ t' Hok2 Hld1) as [Hld' Hpos'];
    [simpl in Hsz; lia|done|].
  split; [done|]. intros _. destruct ks as [|y ks]; [|by apply Hpos'].
  unfold insert_all in Hrun. cbn [visit] in Hrun. by injection Hrun as <-.
Qed.

Lemma loadfactor_at_least_one t :
  (0 < t_load t ≤ t_size t)%Z → (1 ≤ hashtabs_loadfactor t)%Z.
Proof.
  intros Hl. unfold hashtabs_loadfactor.
  destruct (Z.eqb_spec (t_load t) 0); [lia|].
  apply Z.div_le_lower_bound; lia.
Qed.
End directory_load.

(** ** The deep operations act as the shallow ones on the copies *)

Section dqueues_sim.
Context {Y : Type}.
Implicit Types (q : dqueues_t Y) (x : bytes).

Ltac sim :=
  unfold mbind, outcome_bind;
  cbn [dq_view dq_of q_size q_cmp q_cmp_r q_head q_tail q_nodes
       dq_size dq_nmems dq_cmp dq_cmp_r dq_head dq_tail dq_nodes];
  repeat (case_match; simplify_eq; try done).

Lemma dq_of_view q : dq_of (dq_size q) (dq_view q) = q.
Proof. by destruct q. Qed.

Lemma dq_view_of size (q : queues_t bytes Y) : dq_view (dq_of size q) = q.
Proof. by destruct q. Qed.

Lemma memcpy_exact n x : Z.of_nat (length x) = n → memcpy n x = Done x.
Proof.
  intros <-. unfold memcpy. rewrite Z.leb_refl, Nat2Z.id.
  by rewrite firstn_all.
Qed.

Lemma dfind_loop_view fuel : ∀ q x tmp,
  dfind_loop fuel q x tmp = find_loop fuel (dq_view q) x tmp.
Proof.
  induction fuel as [|fuel IH]; intros q x tmp; [done|].
  cbn [dfind_loop find_loop]. destruct tmp as [a|]; [|done].
  cbn [dq_view q_nodes q_cmp].
  destruct (load_node (dq_nodes q) (Some a)) as [tn| | |]; try done.
  rewrite !bind_Done. destruct (call (dq_cmp q)) as [c| | |]; try done.
  rewrite !bind_Done. rewrite IH. done.
Qed.

Lemma dqueues_find_view (q : option (dqueues_t Y)) x :
  dqueues_find q x = queues_find (dq_view <$> q) x.
Proof. destruct q as [q|]; [|done]. apply dfind_loop_view. Qed.

Lemma dqueues_dequeue_front_view q :
  dqueues_dequeue_front q
  = '(q', r) ← queues_dequeue_front (dq_view q); Done (dq_of (dq_size q) q', r).
Proof.
  unfold dqueues_dequeue_front, queues_dequeue_front. sim. by destruct q.
Qed.

Lemma dqueues_dequeue_back_view q :
  dqueues_dequeue_back q
  = '(q', r) ← queues_dequeue_back (dq_view q); Done (dq_of (dq_size q) q', r).
Proof.
  unfold dqueues_dequeue_back, queues_dequeue_back. sim. by destruct q.
Qed.

Lemma dremove_unlink_view q tmp :
  dremove_unlink q tmp
  = '(q', r) ← remove_unlink (dq_view q) tmp; Done (dq_of (dq_size q) q', r).
Proof. unfold dremove_unlink, remove_unlink. sim. Qed.

Lemma dremove_body_view fuel : ∀ q x tmp,
  dremove_body fuel q x tmp
  = '(q', r) ← remove_body fuel (dq_view q) x tmp;
    Done (dq_of (dq_size q) q', r).
Proof.
  induction fuel as [|fuel IH]; intros q x tmp; [done|].
  cbn [dremove_body remove_body]. cbn [dq_view q_tail q_nodes q_cmp].
  destruct (decide (tmp = dq_tail q)).
  { rewrite bind_Done. by rewrite dq_of_view. }
  destruct (load_node (dq_nodes q) tmp) as [tn| | |]; try done.
  rewrite !bind_Done. destruct (call (dq_cmp q)) as [c| | |]; try done.
  rewrite !bind_Done.
  destruct (c x (n_x tn) =? -1)%Z.
  { rewrite bind_Done. by rewrite dq_of_view. }
  destruct (c x (n_x tn) =? 0)%Z.
  { destruct tmp as [a|]; [|done]. apply dremove_unlink_view. }
  destruct (c x (n_x tn) =? 1)%Z; [|done]. apply IH.
Qed.

Lemma dqueues_remove_view q x :
  dqueues_remove (Some q) x
  = '(q', r) ← queues_remove (Some (dq_view q)) x;
    Done (fmap (M:=option) (dq_of (dq_size q)) q', r).
Proof.
  unfold dqueues_remove, queues_remove.
  cbn [dq_view q_head q_tail q_nodes q_cmp q_size q_cmp_r].
  destruct (dq_head q) as [h|]; [|by rewrite bind_Done; simpl; rewrite dq_of_view].
  destruct (load_node (dq_nodes q) (Some h)) as [hd| | |]; try done.
  rewrite !bind_Done. destruct (call (dq_cmp q)) as [c| | |]; try done.
  rewrite !bind_Done.
  destruct (c x (n_x hd) =? -1)%Z.
  { rewrite bind_Done. simpl. by rewrite dq_of_view. }
  destruct (c x (n_x hd) =? 0)%Z; [sim|].
  destruct (load_node (dq_nodes q) (dq_tail q)) as [tl| | |]; try done.
  rewrite !bind_Done.
  destruct (c x (n_x tl) =? 0)%Z; [sim|].
  destruct (c x (n_x tl) =? 1)%Z.
  { rewrite bind_Done. simpl. by rewrite dq_of_view. }
  rewrite dremove_body_view.
  fold (dq_view q).
  by destruct (remove_body _ (dq_view q) x (n_next hd)) as [[q' r]| | |].
Qed.

Lemma denqueu_body_view fuel : ∀ q x tmp,
  Z.of_nat (length x) = dq_size q →
  denqueu_body fuel q x tmp
  = q' ← enqueu_body fuel (dq_view q) x tmp; Done (dq_of (dq_size q) q').
Proof.
  induction fuel as [|fuel IH]; intros q x tmp Hx; [done|].
  cbn [denqueu_body enqueu_body]. cbn [dq_view q_tail q_nodes q_cmp].
  destruct (load_node (dq_nodes q) (Some tmp)) as [tn| | |]; try done.
  rewrite !bind_Done.
  destruct (n_next tn) as [nx|]; [|by rewrite bind_Done, dq_of_view].
  destruct (load_node (dq_nodes q) (Some nx)) as [nn| | |]; try done.
  rewrite !bind_Done. destruct (call (dq_cmp q)) as [c| | |]; try done.
  rewrite !bind_Done.
  destruct (c x (n_x nn) =? -1)%Z.
  { rewrite (memcpy_exact _ _ Hx), bind_Done. sim. }
  destruct (c x (n_x nn) =? 0)%Z; [by rewrite bind_Done, dq_of_view|].
  destruct (c x (n_x nn) =? 1)%Z; [|done]. by apply IH.
Qed.

Lemma dqueues_enqueu_view q x :
  Z.of_nat (length x) = dq_size q →
  dqueues_enqueu q x
  = q' ← queues_enqueu (dq_view q) x; Done (dq_of (dq_size q) q').
Proof.
  intros Hx. unfold dqueues_enqueu, queues_enqueu.
  cbn [dq_view q_head q_tail q_nodes q_cmp q_size q_cmp_r].
  destruct (dq_head q) as [h|];
    [|by rewrite (memcpy_exact _ _ Hx), !bind_Done].
  destruct (load_node (dq_nodes q) (dq_tail q)) as [tl| | |]; try done.
  rewrite !bind_Done. destruct (call (dq_cmp q)) as [c| | |]; try done.
  rewrite !bind_Done.
  destruct (c x (n_x tl) =? 0)%Z; [by rewrite bind_Done, dq_of_view|].
  destruct (c x (n_x tl) =? 1)%Z.
  { rewrite (memcpy_exact _ _ Hx), bind_Done. sim. }
  destruct (load_node (dq_nodes q) (Some h)) as [hd| | |]; try done.
  rewrite !bind_Done.
  destruct (c x (n_x hd) =? -1)%Z.
  { rewrite (memcpy_exact _ _ Hx), bind_Done. sim. }
  destruct (c x (n_x hd) =? 0)%Z; [by rewrite bind_Done, dq_of_view|].
  fold (dq_view q). by apply denqueu_body_view.
Qed.

Lemma dqueues_map_r_view {St} q
    (apply : bytes → St → outcome (bytes * St * Z)) (y : St) :
  dqueues_map_r (Some q) apply y
  = '(q', y', r) ← queues_map_r (Some (dq_view q)) apply y;
    Done (fmap (M:=option) (dq_of (dq_size q)) q', y', r).
Proof.
  unfold dqueues_map_r, queues_map_r.
  cbn [dq_view q_head q_tail q_nodes q_cmp q_size q_cmp_r].
  by destruct (map_r_loop _ _ _ _ _) as [[[m y'] r]| | |].
Qed.

Lemma dqueues_to_list_view q : dqueues_to_list q = queues_to_list (dq_view q).
Proof.
  unfold dqueues_to_list, queues_to_list. rewrite dqueues_map_r_view.
  by destruct (queues_map_r _ _ _) as [[[q' y'] r]| | |].
Qed.

Lemma drun_op_view q (op : dchain_op) :
  op_sized (dq_size q) op →
  drun_op q op
  = q' ← run_op (dq_view q) (shallow_op op); Done (dq_of (dq_size q) q').
Proof.
  intros Hop. destruct op as [x|x| |]; cbn [drun_op run_op shallow_op].
  - by apply dqueues_enqueu_view.
  - rewrite dqueues_remove_view.
    destruct (queues_remove _ x) as [[[q'|] r]| | |]; done.
  - rewrite dqueues_dequeue_front_view.
    by destruct (queues_dequeue_front _) as [[q' r]| | |].
  - rewrite dqueues_dequeue_back_view.
    by destruct (queues_dequeue_back _) as [[q' r]| | |].
Qed.

Lemma drun_ops_view (ops : list dchain_op) : ∀ q,
  Forall (op_sized (dq_size q)) ops →
  drun_ops q ops
  = q' ← run_ops (dq_view q) (shallow_op <$> ops); Done (dq_of (dq_size q) q').
Proof.
  induction ops as [|op ops IH]; intros q Hops.
  { simpl. by rewrite dq_of_view. }
  apply Forall_cons in Hops as [Hop Hops].
  cbn [drun_ops run_ops fmap list_fmap]. rewrite (drun_op_view q op Hop).
  destruct (run_op (dq_view q) (shallow_op op)) as [q1| | |]; try done.
  rewrite !bind_Done. rewrite IH by done.
  cbn [dq_of dq_size]. by rewrite dq_view_of.
Qed.
End dqueues_sim.

(** ** Trial division decides primality *)

Lemma no_divisor_sound fuel : ∀ d n e,
  (0 < d)%Z → no_divisor fuel d n = true →
  (d ≤ e)%Z → (e * e ≤ n)%Z → (e < d + Z.of_nat fuel)%Z → ¬ (e | n)%Z.
Proof.
  induction fuel as [|fuel IH]; intros d n e Hd Hno Hde He Hf; [lia|].
  cbn [no_divisor] in Hno.
  destruct (Z.ltb_spec n (d * d)) as [Hlt|Hge]; [nia|].
  destruct (Z.eqb_spec (n mod d) 0) as [?|Hmod]; [done|].
  destruct (decide (e = d)) as [->|Hne].
  - intros Hdiv. apply Hmod, Z.mod_divide; [lia|done].
  - apply (IH (d + 1)%Z); [lia|done|lia|done|lia].
Qed.

Lemma is_prime_sound n : is_prime n = true → Z.prime n.
Proof.
  unfold is_prime. intros [Hn Hno]%andb_prop.
  apply Z.ltb_lt in Hn. split; [done|].
  intros m Hm [k Hk].
  assert (Hkpos : (1 < k < n)%Z) by nia.
  assert (Hsq : ∀ e, (2 ≤ e)%Z → (e * e ≤ n)%Z → ¬ (e | n)%Z).
  { intros e He Hee.
    apply (no_divisor_sound (Z.to_nat (Z.sqrt n)) 2 n e); try done.
    pose proof (Z.sqrt_spec n ltac:(lia)) as Hs.
    rewrite Z2Nat.id by apply Z.sqrt_nonneg.
    destruct (Z.lt_ge_cases e (2 + Z.sqrt n)) as [?|Hge]; [done|].
    pose proof (Z.sqrt_nonneg n). unfold Z.succ in Hs.
    assert ((Z.sqrt n + 1) * (Z.sqrt n + 1) ≤ e * e)%Z
      by (apply Z.mul_le_mono_nonneg; lia).
    lia. }
  destruct (Z.le_gt_cases m k) as [Hle|Hgt].
  - apply (Hsq m); [lia|nia|]. exists k. lia.
  - apply (Hsq k); [lia|nia|]. exists m. lia.
Qed.

(** ** Insertion followed by removal, and insertion in any order *)

Section round_trips.
Context {A Y : Type} (cmp : A → A → Z) (Hlo : LinearOrder cmp).
Implicit Types (q : queues_t A Y) (x v w : A) (xs ks : list A).

Lemma del_ins x xs :
  ascending cmp xs → (∀ w, w ∈ xs → cmp x w ≠ 0%Z) →
  del cmp x (ins cmp x xs) = (xs, Some x).
Proof.
  induction xs as [|y ys IH]; intros Hs Hne; simpl.
  { by rewrite (lo_refl _ Hlo). }
  apply ascending_cons in Hs as [Hs Hy].
  destruct (Z.eqb_spec (cmp x y) (-1)) as [E1|E1].
  { simpl. by rewrite (lo_refl _ Hlo). }
  destruct (Z.eqb_spec (cmp x y) 0) as [E0|E0].
  { destruct (Hne y); [apply elem_of_cons; by left|done]. }
  simpl.
  destruct (Z.eqb_spec (cmp x y) (-1)) as [?|_]; [done|].
  destruct (Z.eqb_spec (cmp x y) 0) as [?|_]; [done|].
  rewrite IH; [done|done|]. intros w Hw. apply Hne, elem_of_cons. by right.
Qed.

Lemma run_ops_sized_k (ops : list (chain_op A)) : ∀ k q xs q',
  chain_sized cmp (length ops + k) q xs → run_ops q ops = Done q' →
  ∃ xs', chain_sized cmp k q' xs'.
Proof.
  induction ops as [|op ops IH]; intros k q xs q' Hq Hrun.
  { injection Hrun as <-. eauto. }
  cbn [run_ops] in Hrun. apply bind_Done_inv in Hrun as (q1 & Hop & Hrun).
  destruct (run_op_sized cmp Hlo _ q xs op q1 Hq Hop) as (xs1 & Hq1). eauto.
Qed.

Lemma run_ops_new_sized_k (cmp_r : option (A → A → Y → Z)) q0
    (ops : list (chain_op A)) k q :
  queues_new (Some cmp) cmp_r = Done q0 →
  (Z.of_nat (length ops + k) ≤ SIZE_MAX)%Z →
  run_ops q0 ops = Done q →
  ∃ xs, chain_sized cmp k q xs.
Proof.
  intros Hnew Hlen Hrun.
  destruct (queues_new_ok cmp cmp_r) as (q0' & Hnew' & Hq0 & _ & Hsz0).
  rewrite Hnew in Hnew'. injection Hnew' as <-.
  apply (run_ops_sized_k ops k q0 [] q); [|done].
  split_and!; try done; try (simpl; lia). by injection Hnew as <-.
Qed.

(** Inserting the keys [ks] one after the other. *)
Lemma enqueu_all_ok ks : ∀ q xs,
  chain_ok cmp q xs →
  ∃ q', run_ops q (Enqueu <$> ks) = Done q' ∧
        chain_ok cmp q' (foldl (λ acc x, ins cmp x acc) xs ks).
Proof.
  induction ks as [|x ks IH]; intros q xs Hq; [by eauto|].
  destruct (queues_enqueu_ok cmp Hlo q xs x Hq) as (q1 & Hrun1 & Hq1 & _).
  destruct (IH q1 _ Hq1) as (q' & Hrun' & Hq').
  exists q'. cbn [fmap list_fmap run_ops run_op]. by rewrite Hrun1, bind_Done.
Qed.

Lemma foldl_ins_perm ks : ∀ xs,
  distinct_keys cmp (xs ++ ks) →
  foldl (λ acc x, ins cmp x acc) xs ks ≡ₚ xs ++ ks.
Proof.
  induction ks as [|x ks IH]; intros xs Hd; simpl; [by rewrite app_nil_r|].
  pose proof (distinct_keys_fresh cmp _ _ _ Hd) as Hne.
  pose proof (ins_new cmp x xs Hne) as Hp.
  rewrite IH.
  - rewrite Hp. simpl. apply Permutation_middle.
  - apply (distinct_keys_perm cmp (xs ++ x :: ks)); [|done].
    rewrite Hp. simpl. symmetry. apply Permutation_middle.
Qed.

Lemma ascending_perm_eq xs ys :
  ascending cmp xs → ascending cmp ys → xs ≡ₚ ys → xs = ys.
Proof.
  intros Hx Hy Hp. apply (StronglySorted_unique_strong (below cmp)); try done.
  unfold below. intros a b _ _ Hab Hba.
  rewrite (lo_antisym _ Hlo) in Hba. lia.
Qed.
End round_trips.

Section directory_round_trip.
Context {A Y H : Type} (cmp : A → A → Z) (hash : A → Z).
Context (Hlo : LinearOrder cmp).
Implicit Types (t : hashtabs_t A Y H) (bs : list (list A)) (x v w : A).

Lemma remove_buckets_insert x bs : ∀ i b,
  Forall (ascending cmp) bs → bs !! i = Some b →
  (∀ w, w ∈ concat bs → cmp x w ≠ 0%Z) →
  remove_buckets cmp x (<[i := ins cmp x b]> bs) = (bs, Some x).
Proof.
  induction bs as [|b0 bs IH]; intros i b Hs Hi Hne; [done|].
  apply Forall_cons in Hs as [Hb0 Hs]. simpl in Hne.
  destruct i as [|i]; simpl in *.
  - injection Hi as ->. rewrite (del_ins cmp Hlo); [done|done|].
    intros w Hw. apply Hne, elem_of_app. by left.
  - rewrite (del_missing cmp Hlo x b0 Hb0).
    + rewrite (IH i b); [done|done|done|].
      intros w Hw. apply Hne, elem_of_app. by right.
    + intros w Hw. apply Hne, elem_of_app. by left.
Qed.

Lemma size_decr_incr n : (0 ≤ n ≤ SIZE_MAX)%Z → size_decr (size_incr n) = n.
Proof.
  intros Hn. unfold size_decr, size_incr, to_size_t, SIZE_MAX in *.
  destruct (decide (n = 2 ^ 64 - 1)%Z) as [->|]; [done|].
  rewrite (Z.mod_small (n + 1)) by lia.
  replace (n + 1 - 1)%Z with n by lia. apply Z.mod_small. lia.
Qed.
End directory_round_trip.

(** ** The reentrant twins act as the plain operations *)

Section queues_r_sim.
Context {A Y : Type}.
Implicit Types (q : queues_t A Y) (x : A) (y : Y).

Lemma set_cmp_id q : set_cmp (q_cmp q) q = q.
Proof. by destruct q. Qed.

Lemma set_cmp_set c c' q : set_cmp c (set_cmp c' q) = set_cmp c q.
Proof. done. Qed.

Lemma call_close (cr : option (A → A → Y → Z)) y :
  call (close_cmp cr y) = (f ← call cr; Done (λ a b, f a b y)).
Proof. by destruct cr. Qed.

Lemma find_loop_r_plain fuel : ∀ q x y tmp,
  find_loop_r fuel q x y tmp
  = find_loop fuel (set_cmp (close_cmp (q_cmp_r q) y) q) x tmp.
Proof.
  induction fuel as [|fuel IH]; intros q x y tmp; [done|].
  cbn [find_loop_r find_loop]. destruct tmp as [a|]; [|done].
  cbn [set_cmp q_nodes q_cmp].
  destruct (load_node (q_nodes q) (Some a)) as [tn| | |]; try done.
  rewrite !bind_Done, call_close.
  destruct (call (q_cmp_r q)) as [c| | |]; try done.
  rewrite !bind_Done. by rewrite IH.
Qed.

Lemma enqueu_body_r_plain fuel : ∀ q x y tmp,
  enqueu_body_r fuel q x y tmp
  = q' ← enqueu_body fuel (set_cmp (close_cmp (q_cmp_r q) y) q) x tmp;
    Done (set_cmp (q_cmp q) q').
Proof.
  induction fuel as [|fuel IH]; intros q x y tmp; [done|].
  cbn [enqueu_body_r enqueu_body]. cbn [set_cmp q_nodes q_cmp].
  destruct (load_node (q_nodes q) (Some tmp)) as [tn| | |]; try done.
  rewrite !bind_Done.
  destruct (n_next tn) as [nx|];
    [|by rewrite bind_Done, set_cmp_set, set_cmp_id].
  destruct (load_node (q_nodes q) (Some nx)) as [nn| | |]; try done.
  rewrite !bind_Done, call_close.
  destruct (call (q_cmp_r q)) as [c| | |]; try done.
  rewrite !bind_Done.
  destruct (c x (n_x nn) y =? -1)%Z.
  { cbn [q_size q_cmp_r q_head q_tail].
    destruct (store_prev _ nx _) as [m1| | |]; try done. rewrite !bind_Done.
    by destruct (store_next m1 tmp _) as [m2| | |]. }
  destruct (c x (n_x nn) y =? 0)%Z;
    [by rewrite bind_Done, set_cmp_set, set_cmp_id|].
  destruct (c x (n_x nn) y =? 1)%Z; [|done]. apply IH.
Qed.

Lemma queues_enqueu_r_plain q x y :
  queues_enqueu_r q x y
  = q' ← queues_enqueu (set_cmp (close_cmp (q_cmp_r q) y) q) x;
    Done (set_cmp (q_cmp q) q').
Proof.
  unfold queues_enqueu_r, queues_enqueu.
  cbn [set_cmp q_head q_tail q_nodes q_cmp q_size q_cmp_r].
  destruct (q_head q) as [h|]; [|done].
  destruct (load_node (q_nodes q) (q_tail q)) as [tl| | |]; try done.
  rewrite !bind_Done, call_close.
  destruct (call (q_cmp_r q)) as [c| | |]; try done.
  rewrite !bind_Done.
  destruct (c x (n_x tl) y =? 0)%Z; [by rewrite bind_Done; destruct q|].
  destruct (c x (n_x tl) y =? 1)%Z.
  { by destruct (store_next_at _ (q_tail q) _) as [m1| | |]. }
  destruct (load_node (q_nodes q) (Some h)) as [hd| | |]; try done.
  rewrite !bind_Done.
  destruct (c x (n_x hd) y =? -1)%Z.
  { by destruct (store_prev _ h _) as [m1| | |]. }
  destruct (c x (n_x hd) y =? 0)%Z; [by rewrite bind_Done; destruct q|].
  apply enqueu_body_r_plain.
Qed.

Lemma remove_unlink_set_cmp c q tmp :
  remove_unlink (set_cmp c q) tmp
  = '(q', r) ← remove_unlink q tmp; Done (set_cmp c q', r).
Proof.
  unfold remove_unlink. cbn [set_cmp q_nodes q_size q_cmp q_cmp_r q_head q_tail].
  unfold mbind, outcome_bind. repeat (case_match; simplify_eq; try done).
Qed.

Lemma remove_body_r_plain fuel : ∀ q x y tmp,
  remove_body_r fuel q x y tmp
  = '(q', r) ← remove_body fuel (set_cmp (close_cmp (q_cmp_r q) y) q) x tmp;
    Done (set_cmp (q_cmp q) q', r).
Proof.
  induction fuel as [|fuel IH]; intros q x y tmp; [done|].
  cbn [remove_body_r remove_body]. cbn [set_cmp q_nodes q_cmp q_tail].
  destruct (decide (tmp = q_tail q));
    [by rewrite bind_Done, set_cmp_set, set_cmp_id|].
  destruct (load_node (q_nodes q) tmp) as [tn| | |]; try done.
  rewrite !bind_Done, call_close.
  destruct (call (q_cmp_r q)) as [c| | |]; try done.
  rewrite !bind_Done.
  destruct (c x (n_x tn) y =? -1)%Z;
    [by rewrite bind_Done, set_cmp_set, set_cmp_id|].
  destruct (c x (n_x tn) y =? 0)%Z.
  { destruct tmp as [a|]; [|done].
    fold (set_cmp (close_cmp (q_cmp_r q) y) q).
    rewrite remove_unlink_set_cmp.
    destruct (remove_unlink q a) as [[q' r]| | |] eqn:E; try done.
    rewrite !bind_Done, set_cmp_set.
    unfold remove_unlink in E. unfold mbind, outcome_bind in E.
    repeat (case_match; simplify_eq; try done). }
  destruct (c x (n_x tn) y =? 1)%Z; [|done]. apply IH.
Qed.

Lemma queues_remove_r_plain q x y :
  queues_remove_r (Some q) x y
  = '(q', r) ← queues_remove (Some (set_cmp (close_cmp (q_cmp_r q) y) q)) x;
    Done (fmap (M:=option) (set_cmp (q_cmp q)) q', r).
Proof.
  unfold queues_remove_r, queues_remove.
  cbn [set_cmp q_head q_tail q_nodes q_cmp q_size q_cmp_r].
  destruct (q_head q) as [h|]; [|by rewrite bind_Done; destruct q].
  destruct (load_node (q_nodes q) (Some h)) as [hd| | |]; try done.
  rewrite !bind_Done, call_close.
  destruct (call (q_cmp_r q)) as [c| | |]; try done.
  rewrite !bind_Done.
  destruct (c x (n_x hd) y =? -1)%Z; [by rewrite bind_Done; destruct q|].
  destruct (c x (n_x hd) y =? 0)%Z.
  { unfold mbind, outcome_bind. repeat (case_match; simplify_eq; try done). }
  destruct (load_node (q_nodes q) (q_tail q)) as [tl| | |]; try done.
  rewrite !bind_Done.
  destruct (c x (n_x tl) y =? 0)%Z.
  { unfold mbind, outcome_bind. repeat (case_match; simplify_eq; try done). }
  destruct (c x (n_x tl) y =? 1)%Z; [by rewrite bind_Done; destruct q|].
  rewrite remove_body_r_plain. fold (set_cmp (close_cmp (q_cmp_r q) y) q).
  by destruct (remove_body _ _ x (n_next hd)) as [[q' r]| | |].
Qed.

Lemma queues_find_r_plain q x y :
  queues_find_r (Some q) x y
  = queues_find (Some (set_cmp (close_cmp (q_cmp_r q) y) q)) x.
Proof. apply find_loop_r_plain. Qed.
End queues_r_sim.

(** ** Traversals that read the entries *)

Section read_traversal.
Context {A Y H : Type} (cmp : A → A → Z) (hash : A → Z).
Implicit Types (t : hashtabs_t A Y H) (bs : list (list A)).
Implicit Types (s : option (queues_t A Y)).

Lemma visit_until_app {St} (g : A → St → outcome (St * Z)) xs ys : ∀ y,
  visit_until g (xs ++ ys) y
  = '(y', r) ← visit_until g xs y;
    if (r <? 0)%Z then Done (y', (-1)%Z) else visit_until g ys y'.
Proof.
  induction xs as [|v xs IH]; intros y; simpl.
  { by destruct (visit_until g ys y) as [[y' r]| | |]. }
  destruct (g v y) as [[y1 r1]| | |]; try done. rewrite !bind_Done.
  destruct (r1 <? 0)%Z; [done|]. apply IH.
Qed.

Lemma visit_until_result {St} (g : A → St → outcome (St * Z)) xs :
  ∀ y y' r, visit_until g xs y = Done (y', r) → r = 1%Z ∨ r = (-1)%Z.
Proof.
  induction xs as [|v xs IH]; intros y y' r; simpl.
  { intros [= _ <-]. by left. }
  intros ([y1 r1] & _ & Hrun)%bind_Done_inv.
  destruct (r1 <? 0)%Z; [injection Hrun as _ <-; by right|by eapply IH].
Qed.

Lemma map_r_loop_read {St} (apply : A → St → outcome (A * St * Z))
    (g : A → St → outcome (St * Z)) (m : gmap ptr (node_t A)) l :
  ∀ pv fuel y,
  (∀ v y, apply v y = '(y', r) ← g v y; Done (v, y', r)) →
  dlseg m pv l None →
  length l < fuel →
  map_r_loop fuel apply m (first_ptr l None) y
  = '(y', r) ← visit_until g l.*2 y; Done (m, y', r).
Proof.
  induction l as [|[a va] l IH]; intros pv fuel y Happ Hseg Hf;
    (destruct fuel as [|fuel]; [simpl in Hf; lia|]); [done|].
  destruct Hseg as [Ha Hl]. cbn [map_r_loop first_ptr].
  rewrite (load_node_Some _ _ _ Ha), bind_Done.
  cbn [n_x fmap list_fmap snd visit_until]. rewrite Happ.
  destruct (g va y) as [[y' r]| | |]; try done.
  rewrite !bind_Done.
  rewrite (store_x_Some _ _ _ _ Ha), bind_Done. cbn [n_prev n_next].
  rewrite insert_id by done.
  destruct (r <? 0)%Z; [done|].
  rewrite (load_node_Some _ _ _ Ha), bind_Done. cbn [n_next].
  eapply IH; [done|done|simpl in Hf; lia].
Qed.

Lemma queues_map_r_read {St} (apply : A → St → outcome (A * St * Z))
    (g : A → St → outcome (St * Z)) s b y :
  (∀ v y, apply v y = '(y', r) ← g v y; Done (v, y', r)) →
  slot_ok cmp s b →
  queues_map_r s apply y = '(y', r) ← visit_until g b y; Done (s, y', r).
Proof.
  intros Happ. destruct s as [q|]; [|simpl; by intros ->].
  intros (l & (Hc & Hnd & Hseg & Hhd & Htl)%chain_rep_inv & <- & _).
  unfold queues_map_r. rewrite Hhd.
  erewrite map_r_loop_read; [|done|done|].
  - destruct (visit_until g l.*2 y) as [[y' r]| | |]; try done.
    simpl. rewrite <-Hhd. by destruct q.
  - apply Nat.lt_succ_r. by eapply dlseg_length.
Qed.

Lemma map_r_slots_read {St} (apply : A → St → outcome (A * St * Z))
    (g : A → St → outcome (St * Z)) t bs :
  (∀ v y, apply v y = '(y', r) ← g v y; Done (v, y', r)) →
  hashtabs_ok cmp hash t bs →
  ∀ n i y, i + n = length bs →
  map_r_slots n i t apply y
  = '(y', r) ← visit_until g (concat (drop i bs)) y; Done (t, y', r).
Proof.
  intros Happ Hok. pose proof Hok as [_ _ _ _ Hs _ _].
  pose proof (Forall2_length _ _ _ Hs) as Hlen.
  induction n as [|n IH]; intros i y Hn.
  { rewrite drop_ge by lia. done. }
  destruct (lookup_lt_is_Some_2 (t_A t) i ltac:(lia)) as [s Es].
  destruct (Forall2_lookup_l _ _ _ _ _ Hs Es) as (b & Eb & Hsb).
  rewrite (drop_S _ _ _ Eb). cbn [map_r_slots concat]. unfold array_get.
  rewrite Es, bind_Done, (queues_map_r_read apply g s b y Happ Hsb).
  rewrite visit_until_app.
  destruct (visit_until g b y) as [[y1 r1]| | |] eqn:E; try done.
  rewrite !bind_Done. rewrite list_insert_id, set_A_id by done.
  destruct (r1 <? 0)%Z; [done|]. apply IH. lia.
Qed.

(** The loop of [hashtabs_map] is the loop of [hashtabs_map_r] with a
    callback that leaves the context alone. *)
Lemma map_slots_map_r (apply : A → outcome (A * Z)) n : ∀ i t,
  map_slots n i t apply
  = '(t', _, r) ← map_r_slots n i t
        (λ v (_ : unit), '(v', r) ← apply v; Done (v', (), r)) ();
    Done (t', r).
Proof.
  induction n as [|n IH]; intros i t; [done|].
  cbn [map_slots map_r_slots].
  destruct (array_get (t_A t) i) as [s| | |]; try done. rewrite !bind_Done.
  destruct s as [q|]; cbn [queues_map queues_map_r].
  - rewrite map_loop_map_r.
    destruct (map_r_loop _ _ _ _ _) as [[[m []] r]| | |]; try done.
    rewrite !bind_Done. destruct (r <? 0)%Z; [done|]. apply IH.
  - rewrite !bind_Done. change (1 <? 0)%Z with false. cbv iota. apply IH.
Qed.
End read_traversal.

(** ** Bits of the standard hash *)

Lemma lxor_range k a b :
  (0 ≤ k)%Z → (0 ≤ a < 2 ^ k)%Z → (0 ≤ b < 2 ^ k)%Z →
  (0 ≤ Z.lxor a b < 2 ^ k)%Z.
Proof.
  intros Hk Ha Hb. split; [apply Z.lxor_nonneg; lia|].
  destruct (decide (Z.lxor a b = 0%Z)) as [->|Hne]; [lia|].
  assert (0 < k)%Z.
  { destruct (decide (k = 0%Z)) as [->|]; [|lia].
    assert (a = 0%Z) as -> by lia. assert (b = 0%Z) as -> by lia. done. }
  apply Z.log2_lt_pow2; [pose proof (Z.lxor_nonneg a b); lia|].
  eapply Z.le_lt_trans; [apply Z.log2_lxor; lia|].
  apply Z.max_lub_lt.
  - destruct (decide (a = 0%Z)) as [->|]; [simpl; lia|].
    apply Z.log2_lt_pow2; lia.
  - destruct (decide (b = 0%Z)) as [->|]; [simpl; lia|].
    apply Z.log2_lt_pow2; lia.
Qed.

Lemma shiftr_range k a n :
  (0 ≤ n)%Z → (0 ≤ a < 2 ^ k)%Z → (0 ≤ Z.shiftr a n < 2 ^ k)%Z.
Proof.
  intros Hn Ha. rewrite Z.shiftr_div_pow2 by done.
  pose proof (Z.pow_pos_nonneg 2 n ltac:(lia) Hn). split.
  - apply Z.div_pos; lia.
  - eapply Z.le_lt_trans; [|apply Ha]. apply Z.div_le_upper_bound; nia.
Qed.

Lemma testbit_above k a i :
  (0 ≤ a < 2 ^ k)%Z → (k ≤ i)%Z → Z.testbit a i = false.
Proof.
  intros Ha Hi. destruct (decide (a = 0%Z)) as [->|]; [apply Z.bits_0|].
  apply Z.bits_above_log2; [lia|].
  eapply Z.lt_le_trans; [|exact Hi].
  apply Z.log2_lt_pow2; [lia|]. lia.
Qed.

(** [x ↦ (x >> 16) ^ x] loses nothing. *)
Lemma xorshift_inj k a b :
  (0 ≤ k)%Z → (0 ≤ a < 2 ^ k)%Z → (0 ≤ b < 2 ^ k)%Z →
  Z.lxor (Z.shiftr a 16) a = Z.lxor (Z.shiftr b 16) b → a = b.
Proof.
  intros Hk Ha Hb E.
  assert (Hbits : ∀ n i, (0 ≤ i)%Z → (k ≤ i + Z.of_nat n)%Z →
                         Z.testbit a i = Z.testbit b i).
  { induction n as [|n IH]; intros i Hi Hn.
    - rewrite !(testbit_above k) by lia. done.
    - pose proof (f_equal (λ z, Z.testbit z i) E) as Ei. cbv beta in Ei.
      rewrite !Z.lxor_spec, !Z.shiftr_spec in Ei by done.
      rewrite (IH (i + 16)%Z) in Ei by lia.
      by destruct (Z.testbit a i), (Z.testbit b i), (Z.testbit b (i + 16)). }
  apply Z.bits_inj'. intros i Hi. apply (Hbits (Z.to_nat k)); lia.
Qed.

(** Multiplying by [0x45d9f3b] modulo [2^64] loses nothing. *)
Lemma mul_odd_inj a b :
  (0 ≤ a < 2 ^ 64)%Z → (0 ≤ b < 2 ^ 64)%Z →
  to_size_t (a * 0x45d9f3b) = to_size_t (b * 0x45d9f3b) → a = b.
Proof.
  unfold to_size_t. intros Ha Hb E.
  assert (Hinv : ((0x45d9f3b * 0xf9e122f8119de1f3) mod 2 ^ 64 = 1)%Z)
    by (vm_compute; reflexivity).
  assert (Hmul : ∀ z, (0 ≤ z < 2 ^ 64)%Z →
            (((z * 0x45d9f3b) mod 2 ^ 64 * 0xf9e122f8119de1f3) mod 2 ^ 64
             = z)%Z).
  { intros z Hz. rewrite Z.mul_mod_idemp_l by lia.
    rewrite <-Z.mul_assoc, <-Z.mul_mod_idemp_r, Hinv by lia.
    rewrite Z.mul_1_r. apply Z.mod_small. lia. }
  rewrite <-(Hmul a Ha), <-(Hmul b Hb). by rewrite E.
Qed.

Lemma to_size_t_bound n : (0 ≤ to_size_t n < 2 ^ 64)%Z.
Proof. unfold to_size_t. apply Z.mod_pos_bound. lia. Qed.

Lemma stdhash_mix_range x : (0 ≤ stdhash_mix x < 2 ^ 64)%Z.
Proof.
  unfold stdhash_mix. cbv zeta.
  apply (lxor_range 64); [lia|apply shiftr_range; [lia|]|];
    apply to_size_t_bound.
Qed.

Lemma stdhash_mix_inj x x' :
  (0 ≤ x < 2 ^ 64)%Z → (0 ≤ x' < 2 ^ 64)%Z →
  stdhash_mix x = stdhash_mix x' → x = x'.
Proof.
  unfold stdhash_mix. cbv zeta. intros Hx Hx' E.
  apply (xorshift_inj 64) in E; [|lia|apply to_size_t_bound..].
  apply mul_odd_inj in E;
    [|apply (lxor_range 64); [lia|apply shiftr_range; [lia|]|];
      apply to_size_t_bound..].
  apply (xorshift_inj 64) in E; [|lia|apply to_size_t_bound..].
  apply mul_odd_inj in E;
    [|apply (lxor_range 64); [lia|apply shiftr_range; [lia|]|]; done..].
  by apply (xorshift_inj 64) in E.
Qed.

Lemma stdhash_step_range seed x :
  (0 ≤ seed < 2 ^ 64)%Z → (0 ≤ stdhash_step seed x < 2 ^ 64)%Z.
Proof.
  intros Hs. unfold stdhash_step.
  apply (lxor_range 64); [lia|done|apply to_size_t_bound].
Qed.

Lemma lxor_cancel_l s u v : Z.lxor s u = Z.lxor s v → u = v.
Proof.
  intros E. apply (f_equal (Z.lxor s)) in E.
  by rewrite <-!Z.lxor_assoc, Z.lxor_nilpotent, !Z.lxor_0_l in E.
Qed.

Lemma to_size_t_add_inj c u v :
  (0 ≤ u < 2 ^ 64)%Z → (0 ≤ v < 2 ^ 64)%Z →
  to_size_t (u + c) = to_size_t (v + c) → u = v.
Proof.
  unfold to_size_t. intros Hu Hv E.
  pose proof (Z.div_mod (u + c) (2 ^ 64) ltac:(lia)) as H1.
  pose proof (Z.div_mod (v + c) (2 ^ 64) ltac:(lia)) as H2.
  rewrite E in H1.
  assert ((u + c) / 2 ^ 64 = (v + c) / 2 ^ 64)%Z by lia.
  lia.
Qed.

Lemma stdhash_step_inj seed u v :
  (0 ≤ u < 2 ^ 64)%Z → (0 ≤ v < 2 ^ 64)%Z →
  stdhash_step seed u = stdhash_step seed v → u = v.
Proof.
  unfold stdhash_step. intros Hu Hv E%lxor_cancel_l.
  apply (to_size_t_add_inj
           (0x9e3779b9 + to_size_t (Z.shiftl seed 6) + Z.shiftr seed 2));
    [done|done|].
  rewrite !Z.add_assoc. exact E.
Qed.

Lemma stdhash_loop_snoc rounds : ∀ a i seed,
  stdhash_loop (S rounds) a i seed
  = h ← stdhash_loop rounds a i seed;
    x ← array_get a (i + rounds);
    Done (stdhash_step h (stdhash_mix x)).
Proof.
  induction rounds as [|rounds IH]; intros a i seed.
  { cbn [stdhash_loop]. rewrite bind_Done, Nat.add_0_r.
    by destruct (array_get a i). }
  cbn [stdhash_loop] in *.
  destruct (array_get a i) as [x| | |]; try done. rewrite !bind_Done.
  rewrite IH. by rewrite Nat.add_succ_r.
Qed.

Lemma stdhash_loop_prefix rounds : ∀ a b i seed,
  i + rounds ≤ length a →
  stdhash_loop rounds (a ++ b) i seed = stdhash_loop rounds a i seed.
Proof.
  induction rounds as [|rounds IH]; intros a b i seed Hi; [done|].
  cbn [stdhash_loop]. unfold array_get.
  rewrite lookup_app_l by lia.
  destruct (a !! i) as [x|]; [|done]. rewrite !bind_Done. apply IH. lia.
Qed.

Lemma stdhash_loop_range rounds : ∀ a i seed,
  i + rounds ≤ length a → (0 ≤ seed < 2 ^ 64)%Z →
  ∃ h, stdhash_loop rounds a i seed = Done h ∧ (0 ≤ h < 2 ^ 64)%Z.
Proof.
  induction rounds as [|rounds IH]; intros a i seed Hi Hs; [by eauto|].
  cbn [stdhash_loop]. unfold array_get.
  destruct (lookup_lt_is_Some_2 a i ltac:(lia)) as [x ->].
  rewrite bind_Done. apply IH; [lia|]. by apply stdhash_step_range.
Qed.

(** ** Draining a chain *)

Section chain_drain.
Context {A Y : Type} (cmp : A → A → Z).
Implicit Types (q : queues_t A Y) (xs : list A).

Lemma drain_front_ok xs : ∀ q,
  chain_ok cmp q xs →
  ∃ q', drain_front (length xs) q = Done (q', Some <$> xs) ∧
        chain_ok cmp q' [] ∧
        (xs ≠ [] → q_head q' = None ∧ q_tail q' = None).
Proof.
  induction xs as [|v xs IH]; intros q Hq.
  { exists q. by split_and!. }
  destruct (queues_dequeue_front_ok cmp q (v :: xs) Hq)
    as (q1 & Hrun & Hq1 & Hend).
  cbn [head tail] in *.
  destruct (IH q1 Hq1) as (q' & Hdrain & Hq' & Hend').
  exists q'. cbn [length drain_front]. rewrite Hrun, bind_Done, Hdrain.
  split_and!; try done. intros _.
  destruct xs as [|w xs]; [|by apply Hend'].
  injection Hdrain as <-. by apply Hend.
Qed.

Lemma drain_back_ok xs : ∀ q,
  chain_ok cmp q xs →
  ∃ q', drain_back (length xs) q = Done (q', Some <$> reverse xs) ∧
        chain_ok cmp q' [].
Proof.
  induction xs as [|v xs IH] using rev_ind; intros q Hq.
  { exists q. by split_and!. }
  destruct (queues_dequeue_back_returns cmp q (xs ++ [v]) Hq)
    as (q1 & r & Hrun); [by destruct xs|].
  destruct (queues_dequeue_back_ok cmp q (xs ++ [v]) q1 r Hq Hrun)
    as [Hq1 Hr].
  rewrite Hr in Hrun by (by destruct xs).
  rewrite last_snoc in Hrun. rewrite removelast_last in Hq1.
  destruct (IH q1 Hq1) as (q' & Hdrain & Hq').
  exists q'. rewrite length_app, Nat.add_1_r. cbn [drain_back].
  rewrite Hrun, bind_Done, Hdrain, bind_Done.
  by rewrite reverse_snoc.
Qed.
End chain_drain.

(** ** The example comparators are linear orders *)

Lemma key_cmp_linear {A : Type} (key : A → Z) :
  LinearOrder (λ a b, zcmp (key a) (key b)).
Proof.
  split; unfold cmp_range, zcmp; intros;
    repeat match goal with
    | |- context [(?a ?= ?b)%Z] => destruct (Z.compare_spec a b)
    | H : context [(?a ?= ?b)%Z] |- _ => destruct (Z.compare_spec a b)
    end; try lia; auto.
Qed.

Lemma zcmp_linear : LinearOrder zcmp.
Proof. apply (key_cmp_linear (λ a, a)). Qed.

Lemma bcmp_linear : LinearOrder bcmp.
Proof. apply (key_cmp_linear byte_key). Qed.

Lemma zhash_respects : hash_respects zcmp zhash.
Proof.
  intros a b. unfold zcmp, zhash.
  destruct (Z.compare_spec a b); [done|lia..].
Qed.

Lemma cmp17_linear : LinearOrder cmp17.
Proof. apply (key_cmp_linear (λ a, a mod 17)%Z). Qed.

(** Integer keys that compare equal are equal. *)
Lemma zcmp_eq a b : zcmp a b = 0%Z → a = b.
Proof. unfold zcmp. destruct (Z.compare_spec a b); [done|lia..]. Qed.

Lemma zcmp_distinct ks : NoDup ks → distinct_keys zcmp ks.
Proof. intros Hnd. split; [done|]. intros v w _ _. apply zcmp_eq. Qed.

(** The directory [ztable_513] and its buckets. *)
Lemma ztable_513_ok :
  directory_ok zcmp zhash ztable_513
    [[]; [1]; []; [3]; []; [5]; []; []; []; []; []]%Z.
Proof.
  pose proof (hashtabs_new_ok (Y:=unit) (H:=unit) zcmp zhash None None 5
                eq_refl) as Hok0.
  destruct (insert_all_buckets zcmp zhash zcmp_linear [5; 1; 3]%Z _ _ Hok0)
    as (t' & Hrun & Hok & Hsz & Hcap).
  assert (t' = ztable_513) as ->.
  { unfold ztable_513, ztable. by rewrite Hrun. }
  split_and!.
  - exact Hok.
  - apply zcmp_distinct. simpl. repeat (apply NoDup_cons; split; [set_solver|]).
    apply NoDup_nil_2.
  - vm_compute. discriminate.
Qed.

(** C10: on the chain that [queues_new] returns, enqueueing one key and
    removing it with [queues_remove] leaves the head pointer [NULL] and the
    tail pointer pointing at the freed node, so head and tail are not [NULL]
    together; [queues_dequeue_front] on the same chain sets both to [NULL],
    and a [queues_dequeue_back] after the keyed removal reads freed memory. *)
Theorem remove_last_leaves_tail :
  ∃ q : queues_t Z unit,
    run_ops zchain [Enqueu 1%Z; Remove 1%Z] = Done q ∧
    q_head q = None ∧ q_tail q = Some 1%positive ∧
    q_nodes q !! 1%positive = None ∧
    run_op q DequeueBack = Undefined ∧
    (∃ q', run_ops zchain [Enqueu 1%Z; DequeueFront] = Done q' ∧
           q_head q' = None ∧ q_tail q' = None).
Proof.
  eexists. split; [vm_compute; reflexivity|].
  split_and!; try (vm_compute; reflexivity).
  eexists. split; [vm_compute; reflexivity|]. split; reflexivity.
Qed.

(** C6: in the directory expecting 5 elements, inserting 5, removing 5 and
    inserting 5 again leaves one chain with an entry while the load counter
    is 0: the insert only counts a chain it allocates, and the removal
    uncounted the chain it emptied. *)
Theorem load_misses_refilled_chain :
  ∃ t : hashtabs_t Z unit unit,
    run_dir_ops (ztable 5) [Insert 5%Z; Delete 5%Z; Insert 5%Z] = Done t ∧
    hashtabs_to_list t = Done [5%Z] ∧
    nonempty_chains t = 1%Z ∧ t_load t = 0%Z ∧
    hashtabs_loadfactor t = 0%Z.
Proof.
  eexists. split; [vm_compute; reflexivity|].
  split_and!; vm_compute; reflexivity.
Qed.

(** C1: in the deep directory for four-byte records, one insert makes
    [dhashtabs_size] report 5, the record size plus one, where the number of
    members is 1: [dhashtabs_insert] increments the [size] field, which
    holds the record size, and [dhashtabs_size] returns that field.  The
    key is found, and a second insert into another slot allocates its chain
    with record size 5 and copies past the end of the four-byte record.
    The shallow directory counts the inserts
    ([hashtabs_inserts_counted]). *)
Theorem dhashtabs_size_counts_record_size :
  dhashtabs_size dtable = 4%Z ∧
  ∃ t : dhashtabs_t unit unit,
    dhashtabs_insert dtable rec5 = Done t ∧
    dhashtabs_size t = 5%Z ∧ dt_nmems t = 0%Z ∧
    dhashtabs_find t rec5 = Done (Some rec5) ∧
    dhashtabs_insert t rec7 = Undefined.
Proof.
  split; [reflexivity|].
  eexists. split; [vm_compute; reflexivity|].
  split_and!; vm_compute; reflexivity.
Qed.
(** C8, the claim as stated fails: for an expected count of 770793589
    [hashtabs_new] selects the sentinel [SIZE_MAX] as capacity, and the
    bucket array is not an array of that length with every slot [NULL]:
    [calloc] cannot give [SIZE_MAX] pointers, the array is [NULL], and the
    first insert reads through it. *)
Lemma hashtabs_new_no_array_at_sentinel :
  hashtabs_capacity (ztable 770793589) = SIZE_MAX ∧
  t_A (ztable 770793589) = [] ∧
  Z.of_nat (length (t_A (ztable 770793589)))
    ≠ hashtabs_capacity (ztable 770793589) ∧
  hashtabs_insert (ztable 770793589) 0%Z = Undefined.
Proof. split_and!; vm_compute; done. Qed.

(** C8, amended: [hashtabs_new] gives the directory the least capacity of
    the ladder above the expected count [n] (11 for [n = 5]), and the
    sentinel [SIZE_MAX] once [n] is at or past the last prime 770793589;
    size and load start at 0.  For [n] below the last prime the bucket
    array has the length of the capacity and every slot of it is [NULL]. *)
Theorem hashtabs_new_capacity {A Y H : Type} (cmp : option (A → A → Z))
    (cmp_r : option (A → A → Y → Z)) (hash : option (A → Z))
    (hash_r : option (A → H → Z)) (n : Z) :
  let t := hashtabs_new cmp cmp_r hash hash_r n in
  hashtabs_capacity t ∈ _primes ∧
  (∀ p, p ∈ _primes → (n < p)%Z → (hashtabs_capacity t ≤ p)%Z) ∧
  ((n < SIZE_MAX)%Z → (n < hashtabs_capacity t)%Z) ∧
  ((770793589 ≤ n)%Z → hashtabs_capacity t = SIZE_MAX) ∧
  (n = 5%Z → hashtabs_capacity t = 11%Z) ∧
  ((n < 770793589)%Z →
   (hashtabs_capacity t ≤ 770793589)%Z ∧
   Z.of_nat (length (t_A t)) = hashtabs_capacity t ∧
   (∀ i, (0 ≤ i < hashtabs_capacity t)%Z →
         t_A t !! Z.to_nat i = Some None)) ∧
  hashtabs_size t = 0%Z ∧ t_load t = 0%Z.
Proof.
  cbv zeta. unfold hashtabs_capacity. cbn [hashtabs_new t_cap_index t_A].
  destruct (get_cap_index_spec n) as (Hr & _ & _).
  split_and!; try done.
  - by apply prime_at_elem.
  - intros p. apply get_cap_index_least.
  - apply get_cap_index_above.
  - apply get_cap_index_clamp.
  - by intros ->.
  - intros Hn. pose proof (get_cap_index_below n Hn) as Hi.
    pose proof (prime_at_below _ Hi) as Hp.
    rewrite calloc_ladder by done. split_and!; [lia| |].
    + rewrite length_replicate. lia.
    + intros i Hlt. apply lookup_replicate_2. lia.
Qed.

(** For 5 expected elements: capacity 11 and eleven [NULL] slots. *)
Lemma hashtabs_new_capacity_witness :
  hashtabs_capacity (ztable 5) = 11%Z ∧
  Z.of_nat (length (t_A (ztable 5))) = 11%Z ∧
  t_A (ztable 5) !! 10%nat = Some None.
Proof.
  destruct (hashtabs_new_capacity (Y:=unit) (H:=unit) (Some zcmp) None
              (Some zhash) None 5%Z)
    as (_ & _ & _ & _ & Hcap & Harr & _).
  specialize (Hcap eq_refl). destruct (Harr eq_refl) as (_ & Hlen & Hnull).
  fold (ztable 5) in Hcap, Hlen, Hnull. rewrite Hcap in Hlen, Hnull.
  split; [exact Hcap|]. split; [exact Hlen|].
  apply (Hnull 10%Z). lia.
Defined.

(** C9, the claim as stated fails: with four keys at capacity 11, the
    load factor is 3 after 0, 11 and 22 (one chain) and 2 after 1 is added
    (a second chain); the rehash of the directory holding 1 and 18 raises
    the load factor from 1 to 2, both keys meeting in one chain at capacity
    17; and the rehash of the directory holding 1 alone leaves it at 1. *)
Lemma loadfactor_not_monotone :
  (∃ t t' : hashtabs_t Z unit unit,
     insert_all (ztable 5) [0; 11; 22]%Z = Done t ∧
     hashtabs_insert t 1%Z = Done t' ∧
     hashtabs_capacity t' = hashtabs_capacity t ∧
     hashtabs_loadfactor t = 3%Z ∧ hashtabs_loadfactor t' = 2%Z) ∧
  (∃ t t' : hashtabs_t Z unit unit,
     insert_all (ztable 5) [1; 18]%Z = Done t ∧
     hashtabs_rehash t = Done (t, t') ∧
     hashtabs_capacity t = 11%Z ∧ hashtabs_capacity t' = 17%Z ∧
     hashtabs_size t' = hashtabs_size t ∧
     hashtabs_loadfactor t = 1%Z ∧ hashtabs_loadfactor t' = 2%Z) ∧
  (∃ t t' : hashtabs_t Z unit unit,
     insert_all (ztable 5) [1]%Z = Done t ∧
     hashtabs_rehash t = Done (t, t') ∧
     hashtabs_capacity t = 11%Z ∧ hashtabs_capacity t' = 17%Z ∧
     hashtabs_size t' = hashtabs_size t ∧
     hashtabs_loadfactor t = 1%Z ∧ hashtabs_loadfactor t' = 1%Z).
Proof.
  split_and!.
  - eexists _, _. split; [vm_compute; reflexivity|].
    split; [vm_compute; reflexivity|]. split_and!; vm_compute; reflexivity.
  - eexists _, _. split; [vm_compute; reflexivity|].
    split; [vm_compute; reflexivity|]. split_and!; vm_compute; reflexivity.
  - eexists _, _. split; [vm_compute; reflexivity|].
    split; [vm_compute; reflexivity|]. split_and!; vm_compute; reflexivity.
Qed.

(** C9, amended: the load factor is [size / load], truncated, and 0 when
    [load] is 0; an insert that returns, into a chain that already holds an
    entry, on a directory whose size counter is below [SIZE_MAX], keeps the
    capacity and does not lower the load factor. *)
Theorem loadfactor_insert_same_chain {A Y H : Type} (hash : A → Z)
    (t t' : hashtabs_t A Y H) (x : A) (q : queues_t A Y) :
  (0 ≤ t_load t ≤ SIZE_MAX)%Z →
  (0 ≤ hashtabs_size t < SIZE_MAX)%Z →
  t_hash t = Some hash →
  t_A t !! slot_of hash (t_cap_index t) x = Some (Some q) →
  q_head q ≠ None →
  hashtabs_insert t x = Done t' →
  hashtabs_capacity t' = hashtabs_capacity t ∧
  hashtabs_loadfactor t
    = (if (t_load t =? 0)%Z then 0 else hashtabs_size t / t_load t)%Z ∧
  (hashtabs_loadfactor t ≤ hashtabs_loadfactor t')%Z.
Proof.
  intros Hld Hsz Hh Es _ Hrun.
  assert (Hfields : t_size t' = size_incr (t_size t) ∧
                    t_load t' = t_load t ∧
                    t_cap_index t' = t_cap_index t).
  { unfold hashtabs_insert in Hrun. rewrite Hh in Hrun. cbn [call] in Hrun.
    rewrite bind_Done in Hrun.
    fold (slot_of hash (t_cap_index t) x) in Hrun.
    unfold array_get in Hrun. rewrite Es, !bind_Done in Hrun.
    by apply bind_Done_inv in Hrun as (q' & _ & [= <-]). }
  destruct Hfields as (Hsz' & Hld' & Hcap').
  unfold hashtabs_capacity, hashtabs_loadfactor, hashtabs_size in *.
  rewrite Hcap', Hld', Hsz'. split_and!; try done.
  rewrite size_incr_small by lia.
  destruct (Z.eqb_spec (t_load t) 0); [done|].
  apply Z.div_le_mono; lia.
Qed.

(** Inserting 12 into the directory holding 5, 1 and 3: it joins 1 in
    slot 1, and the load factor goes from 3 / 3 to 4 / 3. *)
Lemma loadfactor_insert_same_chain_witness :
  ∃ t',
    hashtabs_insert ztable_513 12%Z = Done t' ∧
    hashtabs_capacity t' = hashtabs_capacity ztable_513 ∧
    hashtabs_loadfactor ztable_513 = 1%Z ∧
    (hashtabs_loadfactor ztable_513 ≤ hashtabs_loadfactor t')%Z.
Proof.
  destruct (hashtabs_insert ztable_513 12%Z) as [t'| | |] eqn:Hrun;
    try (vm_compute in Hrun; discriminate).
  destruct (t_A ztable_513 !! slot_of zhash (t_cap_index ztable_513) 12%Z)
    as [[q|]|] eqn:Es; try (vm_compute in Es; discriminate).
  assert (Hq : q = default zchain
                 (default None
                    (t_A ztable_513
                       !! slot_of zhash (t_cap_index ztable_513) 12%Z)))
    by (by rewrite Es).
  destruct (loadfactor_insert_same_chain zhash ztable_513 t' 12%Z q)
    as (Hcap & Hlf & Hle).
  - vm_compute. split; discriminate.
  - vm_compute. split; [discriminate|reflexivity].
  - reflexivity.
  - exact Es.
  - rewrite Hq. vm_compute. discriminate.
  - exact Hrun.
  - exists t'. split; [reflexivity|]. split; [exact Hcap|].
    split; [|exact Hle]. vm_compute. reflexivity.
Defined.

(** C2, the claim as stated fails: under the comparator by sign [zdiff]
    the directory holds 0, 1, 2, 3 and 4 in one chain, 3 is found in it,
    and the insert of 3 does not add one to the size: it never returns.
    The scan of [queues_enqueu] meets the answer 2, for which its [switch]
    has no case, and stays on the same node. *)
Lemma hashtabs_insert_sign_comparator :
  hashtabs_to_list ztable_diff_01234 = Done [0; 1; 2; 3; 4]%Z ∧
  hashtabs_size ztable_diff_01234 = 5%Z ∧
  hashtabs_find ztable_diff_01234 3%Z = Done (Some 3%Z) ∧
  zdiff 3 3 = 0%Z ∧
  hashtabs_insert ztable_diff_01234 3%Z = Diverges.
Proof. split_and!; vm_compute; reflexivity. Qed.

(** C2, amended: on a well-formed directory, whose comparator is a linear
    order answering [-1], [0] or [1], every [hashtabs_insert] returns and
    adds one to the size counter (wrapping at [SIZE_MAX]); this includes
    the insert of a key that compares equal to a member of the chain it is
    hashed to, which leaves every bucket as it was, so that a size that
    counted the members before is one more than their number after. *)
Theorem hashtabs_insert_counts_every_call {A Y H : Type} (cmp : A → A → Z)
    (hash : A → Z) (t : hashtabs_t A Y H) (bs : list (list A)) (x : A) :
  LinearOrder cmp →
  hashtabs_ok cmp hash t bs →
  ∃ t',
    hashtabs_insert t x = Done t' ∧
    hashtabs_size t' = size_incr (hashtabs_size t) ∧
    ((hashtabs_size t < SIZE_MAX)%Z →
     hashtabs_size t' = (hashtabs_size t + 1)%Z) ∧
    (∀ b w,
       bs !! slot_of hash (t_cap_index t) x = Some b → w ∈ b →
       cmp x w = 0%Z →
       hashtabs_ok cmp hash t' bs ∧
       hashtabs_to_list t = Done (concat bs) ∧
       hashtabs_to_list t' = Done (concat bs) ∧
       (hashtabs_size t = Z.of_nat (length (concat bs)) →
        (hashtabs_size t < SIZE_MAX)%Z →
        hashtabs_size t' = (Z.of_nat (length (concat bs)) + 1)%Z)).
Proof.
  intros Hlo Hok.
  destruct (hashtabs_insert_ok cmp hash Hlo t bs x Hok)
    as (t' & s & b & _ & Eb & Hrun & Hok' & Hsz & _).
  pose proof Hok as [_ _ _ _ _ Hrange _].
  exists t'. unfold hashtabs_size. split_and!; try done.
  - intros Hlt. rewrite Hsz. apply size_incr_small. lia.
  - intros b' w Eb' Hw E. rewrite Eb in Eb'. injection Eb' as <-.
    rewrite (ins_dup cmp Hlo x b) in Hok'.
    + rewrite list_insert_id in Hok' by done. split_and!; try done.
      * by eapply hashtabs_to_list_ok.
      * by eapply hashtabs_to_list_ok.
      * intros E' Hlt. rewrite Hsz, size_incr_small by lia. lia.
    + destruct Hok as [_ _ _ _ Hs _ _].
      destruct (Forall2_lookup_r _ _ _ _ _ Hs Eb) as (s' & _ & Hsb).
      by apply (slot_ok_ascending cmp s' b).
    + eauto.
Qed.

(** Inserting 3 again into the directory holding 5, 1 and 3
    makes the size 4 and leaves three entries. *)
Lemma hashtabs_insert_counts_witness :
  hashtabs_size ztable_513 = 3%Z ∧
  ∃ t',
    hashtabs_insert ztable_513 3%Z = Done t' ∧
    hashtabs_size t' = 4%Z ∧ hashtabs_to_list t' = Done [1; 3; 5]%Z.
Proof.
  split; [reflexivity|].
  destruct ztable_513_ok as (Hok & _ & _).
  destruct (hashtabs_insert_counts_every_call zcmp zhash ztable_513 _ 3%Z
              zcmp_linear Hok) as (t' & Hrun & _ & Hsz & Hdup).
  exists t'. split; [exact Hrun|]. split.
  - apply Hsz. vm_compute. reflexivity.
  - apply (Hdup [3%Z] 3%Z); [reflexivity| |reflexivity].
    apply elem_of_cons. by left.
Defined.




(** ** Runs of chain operations *)

Section chain_runs.
Context {A Y : Type} (cmp : A → A → Z) (Hlo : LinearOrder cmp).
Implicit Types (q : queues_t A Y) (xs : list A).

Lemma ascending_tail xs : ascending cmp xs → ascending cmp (tail xs).
Proof.
  destruct xs as [|y ys]; [done|]. by intros [? _]%ascending_cons.
Qed.

Lemma run_op_ok q xs (op : chain_op A) :
  chain_ok cmp q xs → op ≠ DequeueBack →
  ∃ q' xs', run_op q op = Done q' ∧ chain_ok cmp q' xs'.
Proof.
  intros Hq Hop. destruct op as [x|x| |]; [| | |done]; cbn [run_op].
  - destruct (queues_enqueu_ok cmp Hlo q xs x Hq) as (q' & -> & Hq' & _).
    eauto.
  - destruct (queues_remove_ok cmp Hlo q xs x Hq) as (q' & -> & Hq' & _).
    rewrite bind_Done. eauto.
  - destruct (queues_dequeue_front_ok cmp q xs Hq) as (q' & -> & Hq' & _).
    rewrite bind_Done. eauto.
Qed.

Lemma run_ops_ok (ops : list (chain_op A)) : ∀ q xs,
  chain_ok cmp q xs → Forall (λ op, op ≠ DequeueBack) ops →
  ∃ q' xs', run_ops q ops = Done q' ∧ chain_ok cmp q' xs'.
Proof.
  induction ops as [|op ops IH]; intros q xs Hq Hops; [by eauto|].
  apply Forall_cons in Hops as [Hop Hops].
  destruct (run_op_ok q xs op Hq Hop) as (q1 & xs1 & Hrun & Hq1).
  destruct (IH q1 xs1 Hq1 Hops) as (q' & xs' & Hrun' & Hq').
  exists q', xs'. cbn [run_ops]. by rewrite Hrun, bind_Done.
Qed.
Lemma run_op_sound q xs (op : chain_op A) q' :
  chain_ok cmp q xs → run_op q op = Done q' → ∃ xs', chain_ok cmp q' xs'.
Proof.
  intros Hq Hrun.
  assert (op = DequeueBack ∨ op ≠ DequeueBack) as [->|Hop]
    by (destruct op; auto).
  - cbn [run_op] in Hrun.
    apply bind_Done_inv in Hrun as ([q1 r] & Hback & [= ->]).
    destruct (queues_dequeue_back_ok cmp q xs q' r Hq Hback) as [Hq' _].
    eauto.
  - destruct (run_op_ok q xs op Hq Hop) as (q1 & xs1 & Hrun1 & Hq1).
    rewrite Hrun in Hrun1. injection Hrun1 as <-. eauto.
Qed.

Lemma run_ops_sound (ops : list (chain_op A)) : ∀ q xs q',
  chain_ok cmp q xs → run_ops q ops = Done q' → ∃ xs', chain_ok cmp q' xs'.
Proof.
  induction ops as [|op ops IH]; intros q xs q' Hq Hrun.
  { injection Hrun as <-. eauto. }
  cbn [run_ops] in Hrun. apply bind_Done_inv in Hrun as (q1 & Hop & Hrun).
  destruct (run_op_sound q xs op q1 Hq Hop) as (xs1 & Hq1). eauto.
Qed.
End chain_runs.

(** C4: under a comparator that is a linear order answering [-1], [0] or
    [1], every run of [queues_enqueu], [queues_remove] and
    [queues_dequeue_front] calls on the chain that [queues_new] returns
    returns; and after every run that returns, [queues_dequeue_back] calls
    included, the traversal of the chain from head to tail yields a sequence
    in which each entry compares below the next one, with no two entries
    comparing equal. *)
Theorem chain_stays_ascending {A Y : Type} (cmp : A → A → Z)
    (cmp_r : option (A → A → Y → Z)) (q0 : queues_t A Y)
    (ops : list (chain_op A)) :
  LinearOrder cmp →
  queues_new (Some cmp) cmp_r = Done q0 →
  (Forall (λ op, op ≠ DequeueBack) ops → ∃ q, run_ops q0 ops = Done q) ∧
  (∀ q, run_ops q0 ops = Done q →
     ∃ xs, queues_to_list q = Done xs ∧
       (∀ i a b, xs !! i = Some a → xs !! S i = Some b → (cmp a b < 0)%Z) ∧
       distinct_keys cmp xs).
Proof.
  intros Hlo Hnew.
  destruct (queues_new_ok cmp cmp_r) as (q0' & Hnew' & Hq0 & _).
  rewrite Hnew in Hnew'. injection Hnew' as <-. split.
  - intros Hops.
    destruct (run_ops_ok cmp Hlo ops q0 [] Hq0 Hops) as (q & _ & Hrun & _).
    eauto.
  - intros q Hrun.
    destruct (run_ops_sound cmp Hlo ops q0 [] q Hq0 Hrun) as (xs & Hq).
    exists xs. split; [by eapply queues_to_list_ok|].
    destruct Hq as (l & _ & _ & Hs). split.
    + intros i a b. by apply (ascending_adjacent cmp).
    + by apply (ascending_distinct cmp Hlo).
Qed.

(** Inserts and removals on integer keys: the chain ends as 1, 3. *)
Lemma chain_stays_ascending_witness :
  ∃ q,
    run_ops zchain [Enqueu 5; Enqueu 1; Remove 5; Enqueu 3; Remove 7]%Z
      = Done q ∧
    queues_to_list q = Done [1; 3]%Z ∧ (zcmp 1 3 < 0)%Z.
Proof.
  destruct (chain_stays_ascending zcmp None zchain
              [Enqueu 5; Enqueu 1; Remove 5; Enqueu 3; Remove 7]%Z
              zcmp_linear eq_refl) as [Hruns Hsorted].
  destruct Hruns as (q & Hrun).
  { repeat (apply Forall_cons; split; [discriminate|]). apply Forall_nil_2. }
  destruct (Hsorted q Hrun) as (xs & Hlist & Hadj & _).
  exists q. split; [exact Hrun|].
  assert (Hq : q = returned zchain
                 (run_ops zchain
                    [Enqueu 5; Enqueu 1; Remove 5; Enqueu 3; Remove 7]%Z))
    by (by rewrite Hrun).
  assert (Hxs : xs = [1; 3]%Z).
  { rewrite Hq in Hlist. vm_compute in Hlist. by injection Hlist. }
  rewrite Hxs in Hlist, Hadj. split; [exact Hlist|].
  by apply (Hadj 0).
Defined.

(** The chains of the examples are well formed. *)
Lemma zchain_135_ok : chain_ok zcmp zchain_135 [1; 3; 5]%Z.
Proof.
  destruct (queues_new_ok (Y:=unit) zcmp None) as (q0 & Hnew & Hq0 & _).
  injection Hnew as <-.
  destruct (run_ops_ok zcmp zcmp_linear [Enqueu 5; Enqueu 1; Enqueu 3]%Z
              _ _ Hq0) as (q & xs & Hrun & Hq).
  { repeat (apply Forall_cons; split; [discriminate|]). apply Forall_nil_2. }
  assert (q = zchain_135) as -> by (unfold zchain_135, zchain; by rewrite Hrun).
  pose proof (queues_to_list_ok zcmp _ _ Hq) as Hl.
  vm_compute in Hl. injection Hl as <-. exact Hq.
Qed.

Lemma dchain_57_ok : dchain_ok bcmp dchain_57 [rec5; rec7].
Proof.
  exists [(2%positive, rec5); (1%positive, rec7)]. split_and!.
  - reflexivity.
  - split.
    + simpl. repeat (apply NoDup_cons; split; [set_solver|]). apply NoDup_nil_2.
    + simpl. split_and!; try done; vm_compute; reflexivity.
    + reflexivity.
    + intros _. reflexivity.
  - reflexivity.
  - apply ascending_cons. split.
    + apply ascending_cons. split; [constructor|]. by intros w ?%elem_of_nil.
    + intros w ->%list_elem_of_singleton. reflexivity.
Qed.

(** C3, the claim as stated fails: under the comparator by sign [zdiff] the
    chain built by enqueueing 0, 1, 2, 3 and 4 is ascending, each entry
    comparing below the next, and 3 compares equal to its member 3; the
    enqueue of 3 is no no-op, it does not return.  The tail answers [-1]
    and the head [3], which the two [switch] statements pass on, and the
    scan of the body meets the answer 2 at the entry 1, for which its
    [switch] has no case: it stays on the same node. *)
Lemma queues_enqueu_sign_comparator :
  queues_to_list zchain_diff_01234 = Done [0; 1; 2; 3; 4]%Z ∧
  (∀ i a b, [0; 1; 2; 3; 4]%Z !! i = Some a →
            [0; 1; 2; 3; 4]%Z !! S i = Some b → (zdiff a b < 0)%Z) ∧
  queues_find (Some zchain_diff_01234) 3%Z = Done (Some 3%Z) ∧
  zdiff 3 3 = 0%Z ∧
  queues_enqueu zchain_diff_01234 3%Z = Diverges.
Proof.
  split_and!; try (vm_compute; reflexivity).
  intros i a b Ha Hb.
  do 4 (destruct i as [|i]; [by simplify_eq/=|]).
  destruct i; simplify_eq/=.
Qed.

(** C3, amended: on a well-formed chain, shallow or deep, ascending under a
    comparator that is a linear order answering [-1], [0] or [1], [enqueu]
    of a value that compares equal to a member returns the chain exactly as
    it was: no node is added or rewritten, the member stays, and nothing
    tells the caller of the rejection. *)
Theorem chain_insert_duplicate_noop :
  (∀ (A Y : Type) (cmp : A → A → Z) (q : queues_t A Y) (xs : list A) (x w : A),
     LinearOrder cmp → chain_ok cmp q xs → w ∈ xs → cmp x w = 0%Z →
     queues_enqueu q x = Done q ∧ queues_to_list q = Done xs) ∧
  (∀ (Y : Type) (cmp : bytes → bytes → Z) (q : dqueues_t Y)
     (xs : list bytes) (x w : bytes),
     LinearOrder cmp → dchain_ok cmp q xs → w ∈ xs → cmp x w = 0%Z →
     dqueues_enqueu q x = Done q).
Proof.
  split.
  - intros A Y cmp q xs x w Hlo Hq Hw E.
    destruct (queues_enqueu_ok cmp Hlo q xs x Hq) as (q' & Hrun & _ & _ & Hsame).
    rewrite Hrun, Hsame; [by erewrite queues_to_list_ok|].
    apply (ins_dup cmp Hlo); [|by eauto].
    by destruct Hq as (l & _ & _ & ?).
  - intros Y cmp q xs x w Hlo Hq Hw E. by eapply dqueues_enqueu_dup.
Qed.

(** Enqueueing 3 again on the chain 1, 3, 5, and the record 5 again on the
    deep chain holding the records 5 and 7. *)
Lemma chain_insert_duplicate_witness :
  queues_enqueu zchain_135 3%Z = Done zchain_135 ∧
  queues_to_list zchain_135 = Done [1; 3; 5]%Z ∧
  dqueues_enqueu dchain_57 rec5 = Done dchain_57.
Proof.
  destruct chain_insert_duplicate_noop as [Hshallow Hdeep].
  assert (H3 : 3%Z ∈ [1; 3; 5]%Z) by (apply elem_of_cons; right; apply elem_of_cons; by left).
  destruct (Hshallow Z unit zcmp zchain_135 [1; 3; 5]%Z 3%Z 3%Z zcmp_linear
              zchain_135_ok H3 eq_refl) as [H1 H2].
  split; [exact H1|]. split; [exact H2|].
  apply (Hdeep unit bcmp dchain_57 [rec5; rec7] rec5 rec5 bcmp_linear
           dchain_57_ok); [|reflexivity].
  apply elem_of_cons. by left.
Defined.
(** C5, the claim as stated fails, in two ways.  Under [cmp17] the keys 5
    and 22 compare equal and sit in the slots 5 and 0 at capacity 11; at
    capacity 17 both hash to slot 5, the chain there rejects the second as
    a duplicate, and the traversal of the directory returned lacks 5.  And
    the rehash of a directory at the last prime 770793589 that holds the
    key 0 asks for a bucket array of [SIZE_MAX] slots, which [calloc] cannot
    give: the insert of 0 goes through the [NULL] array and the rehash
    returns no directory. *)
Lemma hashtabs_rehash_loses_or_fails :
  (∃ t' : hashtabs_t Z unit unit,
     hashtabs_rehash ztable17_5_22 = Done (ztable17_5_22, t') ∧
     hashtabs_capacity ztable17_5_22 = 11%Z ∧ hashtabs_capacity t' = 17%Z ∧
     hashtabs_to_list ztable17_5_22 = Done [22; 5]%Z ∧
     hashtabs_to_list t' = Done [22]%Z) ∧
  (∃ t : hashtabs_t Z unit unit,
     hashtabs_insert (ztable 513862367) 0%Z = Done t ∧
     hashtabs_capacity t = 770793589%Z ∧
     hashtabs_to_list t = Done [0%Z] ∧
     hashtabs_rehash t = Undefined).
Proof.
  split.
  - eexists. split; [vm_compute; reflexivity|].
    split_and!; vm_compute; reflexivity.
  - destruct (hashtabs_insert_last_prime zcmp zhash zcmp_linear
                (Y:=unit) (H:=unit) None None 513862367%Z 0%Z)
      as (t & Hrun & Hcap & Hlist & Hre); [lia|].
    exists t. by rewrite Hre.
Qed.

(** C5, amended: the rehash of a well-formed directory [t] whose entries
    are pairwise distinct and whose capacity is below the last prime
    770793589 returns a directory [t'] and leaves [t] as it was; the full
    traversals of [t'] and of [t] yield the same entries; a key found in
    [t] is found in [t'] with the same entry; and the capacity of [t'] is
    the least capacity of the ladder above that of [t]. *)
Theorem hashtabs_rehash_migrates {A Y H : Type} (cmp : A → A → Z)
    (hash : A → Z) (t : hashtabs_t A Y H) (bs : list (list A)) :
  LinearOrder cmp →
  directory_ok cmp hash t bs →
  (hashtabs_capacity t < 770793589)%Z →
  ∃ t' xs xs',
    hashtabs_rehash t = Done (t, t') ∧
    hashtabs_to_list t = Done xs ∧ hashtabs_to_list t' = Done xs' ∧
    xs' ≡ₚ xs ∧
    (∀ x v, hashtabs_find t x = Done (Some v) →
            hashtabs_find t' x = Done (Some v)) ∧
    hashtabs_capacity t' ∈ _primes ∧
    (hashtabs_capacity t < hashtabs_capacity t')%Z ∧
    (∀ p, p ∈ _primes → (hashtabs_capacity t < p)%Z →
          (hashtabs_capacity t' ≤ p)%Z) ∧
    hashtabs_size t' = Z.of_nat (length xs).
Proof.
  intros Hlo Hdir Hcap.
  destruct (hashtabs_rehash_ok cmp hash Hlo t bs Hdir Hcap)
    as (t' & bs' & Hrun & (Hok' & _ & _) & Hp & Hcap' & Hsz').
  destruct Hdir as (Hok & Hd & _).
  exists t', (concat bs), (concat bs').
  assert (Ecap : hashtabs_capacity t'
                 = prime_at (_get_cap_index (hashtabs_capacity t)))
    by (unfold hashtabs_capacity at 1; by rewrite Hcap').
  rewrite Ecap. split_and!; try done.
  - by apply (hashtabs_to_list_ok cmp hash).
  - by apply (hashtabs_to_list_ok cmp hash).
  - intros x v.
    rewrite (hashtabs_find_ok cmp hash t bs x Hok),
            (hashtabs_find_ok cmp hash t' bs' x Hok').
    intros [= E]. f_equal.
    apply (distinct_keys_find cmp Hlo x bs bs' v); try done.
    by apply (hashtabs_ok_ascending cmp hash t').
  - apply prime_at_elem.
    by destruct (get_cap_index_spec (hashtabs_capacity t)) as (? & _).
  - apply get_cap_index_above. unfold SIZE_MAX. lia.
  - intros p. apply get_cap_index_least.
Qed.

(** The rehash of the directory holding 5, 1 and 3 at capacity
    11 gives a directory of capacity 17 that holds the same keys. *)
Lemma hashtabs_rehash_migrates_witness :
  hashtabs_capacity ztable_513 = 11%Z ∧
  ∃ t' xs',
    hashtabs_rehash ztable_513 = Done (ztable_513, t') ∧
    hashtabs_to_list t' = Done xs' ∧ xs' ≡ₚ [1; 3; 5]%Z ∧
    hashtabs_find t' 3%Z = Done (Some 3%Z) ∧
    (hashtabs_capacity t' ≤ 17)%Z ∧ (11 < hashtabs_capacity t')%Z ∧
    hashtabs_size t' = 3%Z.
Proof.
  assert (Hc : hashtabs_capacity ztable_513 = 11%Z) by (vm_compute; reflexivity).
  split; [exact Hc|].
  destruct (hashtabs_rehash_migrates zcmp zhash ztable_513 _ zcmp_linear
              ztable_513_ok)
    as (t' & xs & xs' & Hrun & Hl & Hl' & Hp & Hfind & _ & Hgt & Hleast & Hsz).
  { rewrite Hc. reflexivity. }
  assert (xs = [1; 3; 5]%Z) as -> by (vm_compute in Hl; by injection Hl).
  rewrite Hc in Hgt, Hleast.
  exists t', xs'. split; [exact Hrun|]. split; [exact Hl'|].
  split; [exact Hp|]. split.
  { apply Hfind. vm_compute. reflexivity. }
  split.
  { apply Hleast; [|reflexivity].
    apply elem_of_cons; right. apply elem_of_cons. by left. }
  split; [exact Hgt|exact Hsz].
Defined.

(** ** Lookups, removals and dequeues on a well-formed chain *)

(** X1: on a well-formed chain, [queues_find] returns the one member that
    compares equal to the key, and [NULL] exactly when no member does; on a
    [NULL] handle it returns [NULL]. *)
Theorem queues_find_member {A Y : Type} (cmp : A → A → Z) (q : queues_t A Y)
    (xs : list A) (x : A) :
  LinearOrder cmp →
  chain_ok cmp q xs →
  (∀ v, queues_find (Some q) x = Done (Some v) ↔ v ∈ xs ∧ cmp x v = 0%Z) ∧
  (queues_find (Some q) x = Done None ↔ ∀ w, w ∈ xs → cmp x w ≠ 0%Z) ∧
  queues_find (@None (queues_t A Y)) x = Done None.
Proof.
  intros Hlo Hq. rewrite (queues_find_ok cmp q xs x Hq).
  assert (Hs : ascending cmp xs) by (by destruct Hq as (l & _ & _ & ?)).
  split_and!; [|split|done].
  - intros v. split.
    + intros [= E]. by apply find_vals_Some.
    + intros [Hv E]. f_equal. by apply (find_vals_member cmp Hlo).
  - intros [= E]. by apply (find_vals_None cmp Hlo).
  - intros Hne. f_equal. destruct (find_vals cmp x xs) as [v|] eqn:E; [|done].
    apply find_vals_Some in E as [Hv E]. by destruct (Hne v Hv).
Qed.

Lemma queues_find_member_witness :
  queues_find (Some zchain_135) 3%Z = Done (Some 3%Z) ∧
  queues_find (Some zchain_135) 4%Z = Done None.
Proof.
  destruct (queues_find_member zcmp zchain_135 [1; 3; 5]%Z 3%Z zcmp_linear
              zchain_135_ok) as (Hfound & _ & _).
  destruct (queues_find_member zcmp zchain_135 [1; 3; 5]%Z 4%Z zcmp_linear
              zchain_135_ok) as (_ & Hmiss & _).
  split.
  - apply Hfound. split; [|reflexivity].
    apply elem_of_cons; right. apply elem_of_cons. by left.
  - apply Hmiss. intros w Hw.
    repeat (apply elem_of_cons in Hw as [->|Hw]; [discriminate|]).
    by apply elem_of_nil in Hw.
Defined.

(** X2: after [queues_enqueu] of [x] on a well-formed chain, [queues_find]
    of [x] returns a member that compares equal to [x]: [x] itself when no
    member compared equal before, the member that was there otherwise; and
    every key found before is found as before. *)
Theorem queues_enqueu_then_find {A Y : Type} (cmp : A → A → Z)
    (q : queues_t A Y) (xs : list A) (x : A) :
  LinearOrder cmp →
  chain_ok cmp q xs →
  ∃ q' v,
    queues_enqueu q x = Done q' ∧
    queues_find (Some q') x = Done (Some v) ∧ cmp x v = 0%Z ∧
    ((∀ w, w ∈ xs → cmp x w ≠ 0%Z) → v = x) ∧
    (∀ w, w ∈ xs → cmp x w = 0%Z → v = w) ∧
    (∀ y w, queues_find (Some q) y = Done (Some w) →
            queues_find (Some q') y = Done (Some w)).
Proof.
  intros Hlo Hq.
  assert (Hs : ascending cmp xs) by (by destruct Hq as (l & _ & _ & ?)).
  destruct (queues_enqueu_ok cmp Hlo q xs x Hq) as (q' & Hrun & Hq' & _ & _).
  pose proof (ins_ascending cmp Hlo x xs Hs) as Hs'.
  pose proof (queues_find_ok cmp q' _ x Hq') as Hfx.
  destruct (find_vals cmp x xs) as [w|] eqn:Ef.
  - apply find_vals_Some in Ef as [Hw E].
    exists q', w. rewrite Hfx. split_and!; try done.
    + f_equal. rewrite (ins_dup cmp Hlo x xs Hs) by eauto.
      by apply (find_vals_member cmp Hlo).
    + intros Hne. by destruct (Hne w Hw).
    + intros w' Hw' E'. apply (ascending_unique cmp Hlo xs); try done.
      by rewrite <-(lo_eq_l _ Hlo x w w' E).
    + intros y u. rewrite (queues_find_ok cmp q xs y Hq),
        (queues_find_ok cmp q' _ y Hq').
      by rewrite (ins_dup cmp Hlo x xs Hs) by eauto.
  - pose proof (find_vals_None cmp Hlo x xs Hs Ef) as Hne.
    pose proof (ins_new cmp x xs Hne) as Hp.
    exists q', x. rewrite Hfx. split_and!; try done.
    + f_equal. apply (find_vals_member cmp Hlo); [done| |apply (lo_refl _ Hlo)].
      rewrite Hp. apply elem_of_cons. by left.
    + apply (lo_refl _ Hlo).
    + intros w Hw E. by destruct (Hne w Hw).
    + intros y u. rewrite (queues_find_ok cmp q xs y Hq),
        (queues_find_ok cmp q' _ y Hq').
      intros [= [Hu E]%find_vals_Some]. f_equal.
      apply (find_vals_member cmp Hlo); [done| |done].
      by apply ins_keeps.
Qed.

Lemma queues_enqueu_then_find_witness :
  ∃ q',
    queues_enqueu zchain_135 4%Z = Done q' ∧
    queues_find (Some q') 4%Z = Done (Some 4%Z) ∧
    queues_find (Some q') 5%Z = Done (Some 5%Z).
Proof.
  destruct (queues_enqueu_then_find zcmp zchain_135 [1; 3; 5]%Z 4%Z
              zcmp_linear zchain_135_ok)
    as (q' & v & Hrun & Hfind & _ & Hnew & _ & Hkeep).
  exists q'. split; [exact Hrun|]. split.
  - rewrite Hfind. f_equal. f_equal. apply Hnew. intros w Hw.
    repeat (apply elem_of_cons in Hw as [->|Hw]; [discriminate|]).
    by apply elem_of_nil in Hw.
  - apply Hkeep. vm_compute. reflexivity.
Defined.

(** X3: [queues_remove] of a key that no member compares equal to returns
    [NULL] and leaves the chain exactly as it was; so does [queues_remove] on
    a [NULL] handle. *)
Theorem queues_remove_missing {A Y : Type} (cmp : A → A → Z)
    (q : queues_t A Y) (xs : list A) (x : A) :
  LinearOrder cmp →
  chain_ok cmp q xs →
  (∀ w, w ∈ xs → cmp x w ≠ 0%Z) →
  queues_remove (Some q) x = Done (Some q, None) ∧
  queues_remove (@None (queues_t A Y)) x = Done (None, None).
Proof.
  intros Hlo Hq Hne. split; [|done].
  assert (Hs : ascending cmp xs) by (by destruct Hq as (l & _ & _ & ?)).
  destruct (queues_remove_ok cmp Hlo q xs x Hq) as (q' & Hrun & _ & _ & Hsame & _).
  pose proof (del_spec cmp Hlo x xs Hs) as Hd.
  destruct (del cmp x xs) as [xs' [v|]]; cbn [fst snd] in *.
  - destruct Hd as (Hv & E & _). by destruct (Hne v Hv).
  - by rewrite Hrun, Hsame.
Qed.

Lemma queues_remove_missing_witness :
  queues_remove (Some zchain_135) 4%Z = Done (Some zchain_135, None).
Proof.
  apply (queues_remove_missing zcmp zchain_135 [1; 3; 5]%Z 4%Z zcmp_linear
           zchain_135_ok).
  intros w Hw.
  repeat (apply elem_of_cons in Hw as [->|Hw]; [discriminate|]).
  by apply elem_of_nil in Hw.
Defined.

(** X4: [queues_remove] of a key that a member [v] compares equal to returns
    [v] and unlinks it: the chain left is well formed, holds the other
    members and no longer [v], [queues_find] of the key returns [NULL], every
    other member is found as before, and the size field is one less. *)
Theorem queues_remove_present {A Y : Type} (cmp : A → A → Z)
    (q : queues_t A Y) (xs : list A) (x v : A) :
  LinearOrder cmp →
  chain_ok cmp q xs →
  v ∈ xs → cmp x v = 0%Z →
  ∃ q' xs',
    queues_remove (Some q) x = Done (Some q', Some v) ∧
    chain_ok cmp q' xs' ∧ xs ≡ₚ v :: xs' ∧ v ∉ xs' ∧
    queues_find (Some q') x = Done None ∧
    (∀ y w, cmp y v ≠ 0%Z → queues_find (Some q) y = Done (Some w) →
            queues_find (Some q') y = Done (Some w)) ∧
    queues_size q' = size_decr (queues_size q).
Proof.
  intros Hlo Hq Hv E.
  assert (Hs : ascending cmp xs) by (by destruct Hq as (l & _ & _ & ?)).
  destruct (queues_remove_ok cmp Hlo q xs x Hq)
    as (q' & Hrun & Hq' & _ & _ & Hsz).
  pose proof (del_spec cmp Hlo x xs Hs) as Hd.
  destruct (del cmp x xs) as [xs' [u|]]; cbn [fst snd] in *;
    [|destruct Hd as [_ Hne]; by destruct (Hne v Hv)].
  destruct Hd as (Hu & Eu & Hp & Hs' & Hgone).
  assert (u = v) as ->.
  { apply (ascending_unique cmp Hlo xs); try done.
    by rewrite <-(lo_eq_l _ Hlo x u v Eu). }
  exists q', xs'. split_and!; try done.
  - intros Hin. by destruct (Hgone v Hin).
  - rewrite (queues_find_ok cmp q' xs' x Hq'). f_equal.
    destruct (find_vals cmp x xs') as [w|] eqn:Ef; [|done].
    apply find_vals_Some in Ef as [Hw Ew]. by destruct (Hgone w Hw).
  - intros y w Hy. rewrite (queues_find_ok cmp q xs y Hq),
      (queues_find_ok cmp q' xs' y Hq').
    intros [= [Hw Ew]%find_vals_Some]. f_equal.
    apply (find_vals_member cmp Hlo); [done| |done].
    rewrite Hp in Hw. apply elem_of_cons in Hw as [->|Hw]; [done|done].
  - unfold queues_size. by apply Hsz.
Qed.

Lemma queues_remove_present_witness :
  ∃ q',
    queues_remove (Some zchain_135) 3%Z = Done (Some q', Some 3%Z) ∧
    queues_find (Some q') 3%Z = Done None ∧
    queues_find (Some q') 5%Z = Done (Some 5%Z) ∧
    queues_size q' = 2%Z.
Proof.
  assert (H3 : 3%Z ∈ [1; 3; 5]%Z)
    by (apply elem_of_cons; right; apply elem_of_cons; by left).
  destruct (queues_remove_present zcmp zchain_135 [1; 3; 5]%Z 3%Z 3%Z
              zcmp_linear zchain_135_ok H3 eq_refl)
    as (q' & xs' & Hrun & _ & _ & _ & Hgone & Hkeep & Hsz).
  exists q'. split; [exact Hrun|]. split; [exact Hgone|]. split.
  - apply Hkeep; [discriminate|]. vm_compute. reflexivity.
  - rewrite Hsz. vm_compute. reflexivity.
Defined.

(** X5: on a well-formed chain that holds an entry, [queues_dequeue_front]
    returns the first entry, which compares below every entry left, and
    [queues_dequeue_back] returns the last one, which compares above every
    entry left; each leaves a well-formed chain of the other entries, in
    their order. *)
Theorem queues_dequeue_ends {A Y : Type} (cmp : A → A → Z)
    (q : queues_t A Y) (xs : list A) :
  LinearOrder cmp →
  chain_ok cmp q xs →
  xs ≠ [] →
  (∃ q' v,
     queues_dequeue_front q = Done (q', Some v) ∧ head xs = Some v ∧
     chain_ok cmp q' (tail xs) ∧ ∀ w, w ∈ tail xs → cmp v w = (-1)%Z) ∧
  (∃ q' v,
     queues_dequeue_back q = Done (q', Some v) ∧ last xs = Some v ∧
     chain_ok cmp q' (removelast xs) ∧
     ∀ w, w ∈ removelast xs → cmp w v = (-1)%Z).
Proof.
  intros Hlo Hq Hne.
  assert (Hs : ascending cmp xs) by (by destruct Hq as (l & _ & _ & ?)).
  split.
  - destruct (queues_dequeue_front_ok cmp q xs Hq) as (q' & Hrun & Hq' & _).
    destruct xs as [|v xs']; [done|]. exists q', v. cbn [head tail] in *.
    split_and!; try done. by apply ascending_cons in Hs as [_ ?].
  - destruct (queues_dequeue_back_returns cmp q xs Hq Hne) as (q' & r & Hrun).
    destruct (queues_dequeue_back_ok cmp q xs q' r Hq Hrun) as [Hq' Hr].
    destruct xs as [|v xs' _] using rev_ind; [done|].
    rewrite Hr in Hrun by done. rewrite last_snoc in Hrun |- *.
    rewrite removelast_last in Hq' |- *.
    exists q', v. split_and!; try done. by apply ascending_snoc.
Qed.

(** On the chain 1, 3, 5 the front is 1 and the back is 5. *)
Lemma queues_dequeue_ends_witness :
  (∃ q', queues_dequeue_front zchain_135 = Done (q', Some 1%Z) ∧
         queues_to_list q' = Done [3; 5]%Z) ∧
  (∃ q', queues_dequeue_back zchain_135 = Done (q', Some 5%Z) ∧
         queues_to_list q' = Done [1; 3]%Z).
Proof.
  destruct (queues_dequeue_ends zcmp zchain_135 [1; 3; 5]%Z zcmp_linear
              zchain_135_ok ltac:(discriminate))
    as [(q1 & v1 & Hrun1 & Hv1 & Hq1 & _) (q2 & v2 & Hrun2 & Hv2 & Hq2 & _)].
  injection Hv1 as <-. injection Hv2 as <-. split.
  - exists q1. split; [exact Hrun1|]. exact (queues_to_list_ok zcmp q1 _ Hq1).
  - exists q2. split; [exact Hrun2|]. exact (queues_to_list_ok zcmp q2 _ Hq2).
Defined.

(** X6: after every run of fewer than [2^64] chain operations on the chain
    that [queues_new] returns, [queues_size] is the number of entries a
    traversal visits, and the chain has as many nodes allocated. *)
Theorem queues_size_counts {A Y : Type} (cmp : A → A → Z)
    (cmp_r : option (A → A → Y → Z)) (q0 q : queues_t A Y)
    (ops : list (chain_op A)) :
  LinearOrder cmp →
  queues_new (Some cmp) cmp_r = Done q0 →
  (Z.of_nat (length ops) ≤ SIZE_MAX)%Z →
  run_ops q0 ops = Done q →
  ∃ xs, queues_to_list q = Done xs ∧
        queues_size q = Z.of_nat (length xs) ∧
        size (q_nodes q) = length xs.
Proof.
  intros Hlo Hnew Hlen Hrun.
  destruct (run_ops_new_sized cmp Hlo cmp_r q0 ops q Hnew Hlen Hrun)
    as (xs & Hq & Hsz & Hn & _).
  exists xs. split; [by apply (queues_to_list_ok cmp)|done].
Qed.

Lemma queues_size_counts_witness :
  ∃ q,
    run_ops zchain [Enqueu 5; Enqueu 1; Remove 5; DequeueBack; Enqueu 3]%Z
      = Done q ∧
    queues_to_list q = Done [3]%Z ∧ queues_size q = 1%Z.
Proof.
  set (ops := [Enqueu 5; Enqueu 1; Remove 5; DequeueBack; Enqueu 3]%Z).
  destruct (run_ops zchain ops) as [q| | |] eqn:Hrun;
    try (vm_compute in Hrun; discriminate).
  destruct (queues_size_counts zcmp None zchain q ops zcmp_linear eq_refl)
    as (xs & Hlist & Hsz & _); [vm_compute; discriminate|exact Hrun|].
  exists q. split; [reflexivity|].
  assert (Hq : q = returned zchain (run_ops zchain ops)) by (by rewrite Hrun).
  assert (xs = [3]%Z) as ->.
  { rewrite Hq in Hlist. vm_compute in Hlist. by injection Hlist. }
  split; [exact Hlist|exact Hsz].
Defined.

(** X7: on a well-formed chain, [queues_map_r] calls [apply] on the entries
    from head to tail, passing the context along and storing what [apply]
    leaves in the entry; it stops after the first call that returns a
    negative value and then returns [-1], and returns [1] when it reaches
    the end.  The entries it did not reach, the size field and the number
    of nodes are as before.  On a [NULL] handle it returns [1]. *)
Theorem queues_map_r_order {A Y St : Type} (cmp : A → A → Z)
    (q : queues_t A Y) (xs : list A)
    (apply : A → St → outcome (A * St * Z)) (y y' : St) (vs : list A)
    (r : Z) :
  chain_ok cmp q xs →
  map_vals apply xs y = Done (vs, y', r) →
  (∃ q', queues_map_r (Some q) apply y = Done (Some q', y', r) ∧
         queues_to_list q' = Done vs ∧
         queues_size q' = queues_size q ∧
         size (q_nodes q') = size (q_nodes q)) ∧
  queues_map_r (@None (queues_t A Y)) apply y = Done (None, y, 1%Z).
Proof.
  intros (l & Hrep & <- & _) Hrun. split; [|done].
  destruct (queues_map_r_vals cmp apply q l y vs y' r Hrep Hrun)
    as (q' & Hmap & Hrep' & Hlen & Hsz & Hn).
  exists q'. split_and!; try done.
  rewrite (queues_to_list_rep cmp q' _ Hrep'). f_equal.
  by apply snd_zip_payloads.
Qed.

(** Summing the entries 1, 3, 5 up to the first one above 2: the callback
    is run on 1 and on 3, where it stops the traversal. *)
Lemma queues_map_r_order_witness :
  ∃ q',
    queues_map_r (Some zchain_135)
      (λ v acc, Done (v, acc + v, if 2 <? v then -1 else 1)%Z) 0%Z
    = Done (Some q', 4%Z, (-1)%Z) ∧
    queues_to_list q' = Done [1; 3; 5]%Z.
Proof.
  destruct (queues_map_r_order zcmp zchain_135 [1; 3; 5]%Z
              (λ v acc, Done (v, acc + v, if 2 <? v then -1 else 1)%Z)
              0%Z 4%Z [1; 3; 5]%Z (-1)%Z zchain_135_ok eq_refl)
    as [(q' & Hmap & Hlist & _) _].
  exists q'. split; [exact Hmap|exact Hlist].
Defined.

(** X8: [queues_map] is [queues_map_r] with a callback that takes no
    context: same calls in the same order, same entries stored, same
    result. *)
Theorem queues_map_as_map_r {A Y : Type} (q : option (queues_t A Y))
    (apply : A → outcome (A * Z)) :
  queues_map q apply
  = '(q', _, r) ← queues_map_r q
        (λ v (_ : unit), '(v', r) ← apply v; Done (v', (), r)) ();
    Done (q', r).
Proof.
  destruct q as [q|]; [|done]. unfold queues_map, queues_map_r.
  rewrite map_loop_map_r.
  by destruct (map_r_loop _ _ _ _ _) as [[[m []] r]| | |].
Qed.

(** X9: [queues_free] on a chain built from [queues_new] by fewer than
    [2^64] operations returns with the handle set to [NULL] and every node
    of the chain freed, also when a keyed removal has left the tail pointer
    stale; on a [NULL] handle it does nothing. *)
Theorem queues_free_releases {A Y : Type} (cmp : A → A → Z)
    (cmp_r : option (A → A → Y → Z)) (q0 q : queues_t A Y)
    (ops : list (chain_op A)) :
  LinearOrder cmp →
  queues_new (Some cmp) cmp_r = Done q0 →
  (Z.of_nat (length ops) ≤ SIZE_MAX)%Z →
  run_ops q0 ops = Done q →
  queues_free (Some q) = Done (None, ∅) ∧
  queues_free (@None (queues_t A Y)) = Done (None, ∅).
Proof.
  intros Hlo Hnew Hlen Hrun. split; [|done].
  destruct (run_ops_new_sized cmp Hlo cmp_r q0 ops q Hnew Hlen Hrun)
    as (xs & (l & Hrep & <- & _) & _ & Hn & _).
  destruct (queues_free_rep cmp q l Hrep) as (m' & Hfree & Hsz & _).
  rewrite Hfree. do 2 f_equal. apply map_size_empty_inv.
  rewrite length_fmap in Hn. lia.
Qed.

Lemma queues_free_releases_witness :
  ∃ q,
    run_ops zchain [Enqueu 1; Enqueu 3; Remove 3; Remove 1]%Z = Done q ∧
    q_tail q ≠ None ∧
    queues_free (Some q) = Done (None, ∅).
Proof.
  set (ops := [Enqueu 1; Enqueu 3; Remove 3; Remove 1]%Z).
  destruct (run_ops zchain ops) as [q| | |] eqn:Hrun;
    try (vm_compute in Hrun; discriminate).
  destruct (queues_free_releases zcmp None zchain q ops zcmp_linear eq_refl)
    as [Hfree _]; [vm_compute; discriminate|exact Hrun|].
  exists q. split; [reflexivity|]. split; [|exact Hfree].
  assert (Hq : q = returned zchain (run_ops zchain ops)) by (by rewrite Hrun).
  rewrite Hq. vm_compute. discriminate.
Defined.

(** ** Lookups in directories built by inserts and removals *)

(** X10: in a directory built from [hashtabs_new], for an expected count
    below the last prime 770793589, by inserts and removals, under a hash
    function that gives keys comparing equal the same value,
    the scan of [hashtabs_find] over every chain returns what [queues_find]
    returns on the one chain at slot [hash(x) mod capacity]. *)
Theorem hashtabs_find_in_own_slot {A Y H : Type} (cmp : A → A → Z)
    (hash : A → Z) (cmp_r : option (A → A → Y → Z))
    (hash_r : option (A → H → Z)) (n : Z) (ops : list (dir_op A))
    (t : hashtabs_t A Y H) (x : A) :
  LinearOrder cmp →
  hash_respects cmp hash →
  (n < 770793589)%Z →
  (Z.of_nat (length ops) ≤ SIZE_MAX)%Z →
  run_dir_ops (hashtabs_new (Some cmp) cmp_r (Some hash) hash_r n) ops
    = Done t →
  ∃ s, t_A t !! slot_of hash (t_cap_index t) x = Some s ∧
       hashtabs_find t x = queues_find s x.
Proof.
  intros Hlo Hhash Hn Hlen Hrun.
  destruct (run_dir_ops_new_inv cmp hash Hlo cmp_r hash_r n ops 0 t)
    as (bs & Hok & Hpl & _); [done|lia|done|].
  by apply (hashtabs_find_slot cmp hash Hlo Hhash t bs).
Qed.

Lemma hashtabs_find_in_own_slot_witness :
  ∃ t s,
    run_dir_ops (ztable 5) [Insert 5; Insert 1; Insert 12; Delete 1]%Z
      = Done t ∧
    t_A t !! 1%nat = Some s ∧
    hashtabs_find t 12%Z = queues_find s 12%Z ∧
    queues_find s 12%Z = Done (Some 12%Z).
Proof.
  set (ops := [Insert 5; Insert 1; Insert 12; Delete 1]%Z).
  destruct (run_dir_ops (ztable 5) ops) as [t| | |] eqn:Hrun;
    try (vm_compute in Hrun; discriminate).
  destruct (hashtabs_find_in_own_slot zcmp zhash None None 5 ops t 12%Z
              zcmp_linear zhash_respects)
    as (s & Hs & Hfind); [reflexivity|vm_compute; discriminate|exact Hrun|].
  assert (Ht : t = returned (ztable 5) (run_dir_ops (ztable 5) ops))
    by (unfold ztable in *; by rewrite Hrun).
  assert (Hslot : slot_of zhash (t_cap_index t) 12%Z = 1%nat)
    by (rewrite Ht; vm_compute; reflexivity).
  rewrite Hslot in Hs.
  exists t, s. split; [reflexivity|]. split; [exact Hs|].
  split; [exact Hfind|]. rewrite <-Hfind, Ht. vm_compute. reflexivity.
Defined.

(** X11: in a directory built from [hashtabs_new], for an expected count
    below the last prime 770793589, by inserts and removals, under a hash
    function that gives keys comparing equal the same value: after
    [hashtabs_insert] of [x], [hashtabs_find] of [x] returns an entry that
    compares equal to [x], which is [x] itself when [hashtabs_find] did not
    find the key before; and every key found before is found as before. *)
Theorem hashtabs_insert_then_find {A Y H : Type} (cmp : A → A → Z)
    (hash : A → Z) (cmp_r : option (A → A → Y → Z))
    (hash_r : option (A → H → Z)) (n : Z) (ops : list (dir_op A))
    (t : hashtabs_t A Y H) (x : A) :
  LinearOrder cmp →
  hash_respects cmp hash →
  (n < 770793589)%Z →
  (Z.of_nat (length ops) < SIZE_MAX)%Z →
  run_dir_ops (hashtabs_new (Some cmp) cmp_r (Some hash) hash_r n) ops
    = Done t →
  ∃ t' v,
    hashtabs_insert t x = Done t' ∧
    hashtabs_find t' x = Done (Some v) ∧ cmp x v = 0%Z ∧
    (hashtabs_find t x = Done None → v = x) ∧
    (∀ y w, hashtabs_find t y = Done (Some w) →
            hashtabs_find t' y = Done (Some w)).
Proof.
  intros Hlo Hhash Hn Hlen Hrun.
  destruct (run_dir_ops_new_inv cmp hash Hlo cmp_r hash_r n ops 1 t)
    as (bs & Hinv); [done|lia|done|].
  destruct (run_dir_op_inv cmp hash Hlo 0 t bs (Insert x) Hinv)
    as (t' & bs' & Hrun' & Hok' & Hpl' & _).
  cbn [run_dir_op] in Hrun'.
  destruct Hinv as (Hok & Hpl & _).
  pose proof (hashtabs_ok_ascending cmp hash t bs Hok) as Hs.
  pose proof (hashtabs_ok_ascending cmp hash t' bs' Hok') as Hs'.
  pose proof (placed_distinct cmp hash Hlo Hhash _ bs' Hs' Hpl') as Hd'.
  destruct (hashtabs_insert_ok cmp hash Hlo t bs x Hok)
    as (t1 & s & b & _ & Eb & Hrun1 & Hok1 & _).
  rewrite Hrun' in Hrun1. injection Hrun1 as <-.
  assert (bs' = <[slot_of hash (t_cap_index t) x := ins cmp x b]> bs) as ->.
  { destruct Hok' as [_ _ _ _ Hs1 _ _], Hok1 as [_ _ _ _ Hs2 _ _].
    clear -Hs1 Hs2 Hlo. revert Hs2. generalize (<[slot_of hash (t_cap_index t) x:=ins cmp x b]> bs).
    induction Hs1 as [|s0 b0 ss bb Hsb _ IH]; intros l2 Hs2;
      inversion Hs2 as [|? b2 ? bb2 Hsb2 Hrest]; subst; [done|].
    f_equal; [|by apply IH].
    destruct s0 as [q|]; simpl in *; [|congruence].
    by apply (chain_ok_agree cmp q). }
  assert (Hkeep : ∀ w, w ∈ concat bs →
            w ∈ concat (<[slot_of hash (t_cap_index t) x := ins cmp x b]> bs)).
  { intros w (b0 & Hb0 & Hw)%elem_of_concat.
    apply list_elem_of_lookup_1 in Hb0 as [j Hj].
    destruct (decide (j = slot_of hash (t_cap_index t) x)) as [->|Hne].
    - rewrite Eb in Hj. injection Hj as <-.
      eapply elem_of_concat_lookup;
        [apply list_lookup_insert_eq; by eapply lookup_lt_Some|].
      by apply ins_keeps.
    - eapply elem_of_concat_lookup; [|done].
      by rewrite list_lookup_insert_ne. }
  assert (Hx : ∃ v, v ∈ ins cmp x b ∧ cmp x v = 0%Z ∧
                    (find_vals cmp x b = None → v = x)).
  { assert (Hb : ascending cmp b).
    { rewrite Forall_forall in Hs. apply Hs. by eapply list_elem_of_lookup_2. }
    destruct (find_vals cmp x b) as [w|] eqn:Ef.
    - apply find_vals_Some in Ef as [Hw E]. exists w.
      split_and!; [by apply ins_keeps|done|done].
    - exists x. split_and!; [|apply (lo_refl _ Hlo)|done].
      rewrite (ins_new cmp x b (find_vals_None cmp Hlo x b Hb Ef)).
      apply elem_of_cons. by left. }
  destruct Hx as (v & Hv & E & Hnew).
  exists t', v. split; [done|].
  rewrite (hashtabs_find_ok cmp hash t' _ x Hok').
  split_and!; try done.
  - f_equal. apply (find_buckets_distinct cmp Hlo); try done.
    eapply elem_of_concat_lookup; [|done].
    apply list_lookup_insert_eq. by eapply lookup_lt_Some.
  - rewrite (hashtabs_find_ok cmp hash t bs x Hok). intros [= Hf].
    apply Hnew.
    rewrite <-(find_buckets_placed cmp hash Hlo Hhash (t_cap_index t) bs x b);
      done.
  - intros y w. rewrite (hashtabs_find_ok cmp hash t bs y Hok),
      (hashtabs_find_ok cmp hash t' _ y Hok').
    intros [= [Hw Ew]%find_buckets_Some]. f_equal.
    apply (find_buckets_distinct cmp Hlo); try done. by apply Hkeep.
Qed.

Lemma hashtabs_insert_then_find_witness :
  ∃ t t',
    run_dir_ops (ztable 5) [Insert 5; Insert 1; Delete 5]%Z = Done t ∧
    hashtabs_insert t 12%Z = Done t' ∧
    hashtabs_find t' 12%Z = Done (Some 12%Z) ∧
    hashtabs_find t' 1%Z = Done (Some 1%Z).
Proof.
  set (ops := [Insert 5; Insert 1; Delete 5]%Z).
  destruct (run_dir_ops (ztable 5) ops) as [t| | |] eqn:Hrun;
    try (vm_compute in Hrun; discriminate).
  destruct (hashtabs_insert_then_find zcmp zhash None None 5 ops t 12%Z
              zcmp_linear zhash_respects)
    as (t' & v & Hins & Hfind & _ & Hnew & Hkeep);
    [reflexivity|vm_compute; reflexivity|exact Hrun|].
  assert (Ht : t = returned (ztable 5) (run_dir_ops (ztable 5) ops))
    by (unfold ztable in *; by rewrite Hrun).
  exists t, t'. split; [reflexivity|]. split; [exact Hins|]. split.
  - rewrite Hfind. f_equal. f_equal. apply Hnew. rewrite Ht.
    vm_compute. reflexivity.
  - apply Hkeep. rewrite Ht. vm_compute. reflexivity.
Defined.

(** X12: on a well-formed directory, when [hashtabs_find] of a key returns
    [NULL], [hashtabs_remove] of the key returns [NULL] and leaves the
    directory, its size and load counters included, exactly as it was. *)
Theorem hashtabs_remove_missing_key {A Y H : Type} (cmp : A → A → Z)
    (hash : A → Z) (t : hashtabs_t A Y H) (bs : list (list A)) (x : A) :
  LinearOrder cmp →
  hashtabs_ok cmp hash t bs →
  hashtabs_find t x = Done None →
  hashtabs_remove t x = Done (t, None).
Proof.
  intros Hlo Hok. rewrite (hashtabs_find_ok cmp hash t bs x Hok).
  intros [= Hf]. apply (hashtabs_remove_missing cmp hash Hlo t bs); [done|].
  apply (find_buckets_None_inv cmp Hlo); [|done].
  by apply (hashtabs_ok_ascending cmp hash t).
Qed.

Lemma hashtabs_remove_missing_key_witness :
  hashtabs_find ztable_513 2%Z = Done None ∧
  hashtabs_remove ztable_513 2%Z = Done (ztable_513, None).
Proof.
  assert (Hf : hashtabs_find ztable_513 2%Z = Done None)
    by (vm_compute; reflexivity).
  split; [exact Hf|].
  destruct ztable_513_ok as (Hok & _ & _).
  exact (hashtabs_remove_missing_key zcmp zhash ztable_513 _ 2%Z zcmp_linear
           Hok Hf).
Defined.

(** X13: [hashtabs_new] never gives a larger expected count a smaller
    capacity. *)
Theorem hashtabs_new_capacity_monotone {A Y H : Type}
    (cmp : option (A → A → Z)) (cmp_r : option (A → A → Y → Z))
    (hash : option (A → Z)) (hash_r : option (A → H → Z)) (n n' : Z) :
  (n ≤ n')%Z →
  (hashtabs_capacity (hashtabs_new cmp cmp_r hash hash_r n)
   ≤ hashtabs_capacity (hashtabs_new cmp cmp_r hash hash_r n'))%Z.
Proof.
  intros Hn. unfold hashtabs_capacity. cbn [hashtabs_new t_cap_index].
  destruct (get_cap_index_spec n) as (Hr & Hbelow & _).
  destruct (get_cap_index_spec n') as (Hr' & _ & Habove').
  set (r := _get_cap_index n) in *. set (r' := _get_cap_index n') in *.
  destruct (Z.lt_trichotomy r r') as [Hlt|[->|Hgt]]; [|done|].
  - apply Z.lt_le_incl, prime_at_mono; lia.
  - specialize (Hbelow r' ltac:(lia)). specialize (Habove' ltac:(lia)). lia.
Qed.

Lemma hashtabs_new_capacity_monotone_witness :
  (hashtabs_capacity (ztable 5) ≤ hashtabs_capacity (ztable 200))%Z ∧
  hashtabs_capacity (ztable 200) = 227%Z.
Proof.
  split; [|reflexivity].
  apply (hashtabs_new_capacity_monotone (Some zcmp) None (Some zhash) None).
  lia.
Defined.

(** X14: after inserting pairwise distinct keys into the directory that
    [hashtabs_new] returns for an expected count below the last prime
    770793589, the full traversal with [hashtabs_map_r] visits each of the
    keys once and nothing else. *)
Theorem hashtabs_traversal_of_inserts {A Y H : Type} (cmp : A → A → Z)
    (hash : A → Z) (cmp_r : option (A → A → Y → Z))
    (hash_r : option (A → H → Z)) (n : Z) (ks : list A) :
  LinearOrder cmp →
  (n < 770793589)%Z →
  distinct_keys cmp ks →
  ∃ t xs,
    insert_all (hashtabs_new (Some cmp) cmp_r (Some hash) hash_r n) ks
      = Done t ∧
    hashtabs_to_list t = Done xs ∧ xs ≡ₚ ks.
Proof.
  intros Hlo Hn Hd.
  pose proof (hashtabs_new_ok (Y:=Y) (H:=H) cmp hash cmp_r hash_r n Hn) as Hok0.
  destruct (insert_all_ok cmp hash Hlo ks _ _ Hok0)
    as (t & bs & Hrun & Hok & Hp & _).
  { by rewrite concat_replicate_nil. }
  rewrite concat_replicate_nil in Hp. cbn [app] in Hp.
  exists t, (concat bs). split; [done|]. split; [|done].
  by apply (hashtabs_to_list_ok cmp hash).
Qed.

Lemma hashtabs_traversal_of_inserts_witness :
  ∃ t,
    insert_all (ztable 5) [5; 12; 1; 3]%Z = Done t ∧
    hashtabs_to_list t = Done [1; 12; 3; 5]%Z.
Proof.
  destruct (hashtabs_traversal_of_inserts zcmp zhash (Y:=unit) (H:=unit)
              None None 5 [5; 12; 1; 3]%Z zcmp_linear eq_refl)
    as (t & xs & Hrun & Hlist & _).
  { apply zcmp_distinct.
    repeat (apply NoDup_cons; split; [set_solver|]). apply NoDup_nil_2. }
  exists t. split; [exact Hrun|].
  assert (Ht : t = returned (ztable 5) (insert_all (ztable 5) [5; 12; 1; 3]%Z))
    by (unfold ztable in *; by rewrite Hrun).
  rewrite Hlist. rewrite Ht in Hlist. vm_compute in Hlist. symmetry.
  exact Hlist.
Defined.

(** ** The load counter *)

(** X15: after any sequence of inserts, repeated keys included, into the
    directory that [hashtabs_new] returns for an expected count below the
    last prime 770793589, the size counter is the number of
    [hashtabs_insert] calls, the load counter is the number of chains that
    hold an entry, and the load factor is at least 1 once a key was
    inserted. *)
Theorem hashtabs_load_counts_chains {A Y H : Type} (cmp : A → A → Z)
    (hash : A → Z) (cmp_r : option (A → A → Y → Z))
    (hash_r : option (A → H → Z)) (n : Z) (ks : list A) :
  LinearOrder cmp →
  (n < 770793589)%Z →
  (Z.of_nat (length ks) ≤ SIZE_MAX)%Z →
  ∃ t,
    insert_all (hashtabs_new (Some cmp) cmp_r (Some hash) hash_r n) ks
      = Done t ∧
    hashtabs_size t = Z.of_nat (length ks) ∧
    t_load t = nonempty_chains t ∧
    (ks ≠ [] → (1 ≤ hashtabs_loadfactor t)%Z).
Proof.
  intros Hlo Hn Hlen.
  pose proof (hashtabs_new_ok (Y:=Y) (H:=H) cmp hash cmp_r hash_r n Hn) as Hok0.
  destruct (insert_all_buckets cmp hash Hlo ks _ _ Hok0)
    as (t & Hrun & Hok & Hsz & _).
  destruct (insert_all_load cmp hash Hlo ks _ _ t Hok0
              (hashtabs_new_load_ok _ _ _ _ n))
    as [(Hld & _ & Hle) Hpos]; [simpl; lia|done|].
  exists t. split_and!; try done.
  - unfold hashtabs_size. rewrite Hsz. cbn [hashtabs_new t_size].
    rewrite Z.add_0_l. apply to_size_t_id. lia.
  - intros Hne. apply loadfactor_at_least_one. split; [by apply Hpos|done].
Qed.

Lemma hashtabs_load_counts_chains_witness :
  ∃ t,
    insert_all (ztable 5) [5; 16; 1; 5]%Z = Done t ∧
    hashtabs_size t = 4%Z ∧ t_load t = 2%Z ∧ nonempty_chains t = 2%Z ∧
    hashtabs_loadfactor t = 2%Z.
Proof.
  destruct (hashtabs_load_counts_chains zcmp zhash (Y:=unit) (H:=unit)
              None None 5 [5; 16; 1; 5]%Z zcmp_linear eq_refl)
    as (t & Hrun & Hsz & Hld & _); [vm_compute; discriminate|].
  assert (Ht : t = returned (ztable 5) (insert_all (ztable 5) [5; 16; 1; 5]%Z))
    by (unfold ztable in *; by rewrite Hrun).
  exists t. split; [exact Hrun|]. split; [exact Hsz|].
  assert (Hn : nonempty_chains t = 2%Z) by (rewrite Ht; vm_compute; reflexivity).
  split; [by rewrite Hld|]. split; [exact Hn|].
  rewrite Ht. vm_compute. reflexivity.
Defined.

(** X16: the directory that [hashtabs_rehash] returns for a well-formed
    directory with pairwise distinct entries and a capacity below the last
    prime 770793589 has its counters right whatever
    those of the old directory were: its size is the number of entries, its
    load the number of chains that hold an entry, and its load factor is at
    least 1 when there is an entry. *)
Theorem hashtabs_rehash_recounts {A Y H : Type} (cmp : A → A → Z)
    (hash : A → Z) (t : hashtabs_t A Y H) (bs : list (list A)) :
  LinearOrder cmp →
  directory_ok cmp hash t bs →
  (hashtabs_capacity t < 770793589)%Z →
  ∃ t' xs,
    hashtabs_rehash t = Done (t, t') ∧
    hashtabs_to_list t' = Done xs ∧
    hashtabs_size t' = Z.of_nat (length xs) ∧
    t_load t' = nonempty_chains t' ∧
    (xs ≠ [] → (1 ≤ hashtabs_loadfactor t')%Z).
Proof.
  intros Hlo Hdir Hcap.
  destruct (hashtabs_rehash_ok cmp hash Hlo t bs Hdir Hcap)
    as (t' & bs' & Hrun & (Hok' & _ & _) & Hp & _ & Hsz').
  destruct Hdir as (Hok & _ & Hcount).
  pose proof Hok as [Hc Hh _ _ _ Hrange _].
  pose proof Hrun as Hrun0.
  rewrite (hashtabs_rehash_eq cmp hash t bs Hok), Hc, Hh in Hrun0.
  apply bind_Done_inv in Hrun0 as (t1 & Hall & [= <-]).
  destruct (insert_all_load cmp hash Hlo (concat bs) _ _ t1
              (hashtabs_new_ok cmp hash (t_cmp_r t) (t_hash_r t)
                 (prime_at (t_cap_index t)) Hcap)
              (hashtabs_new_load_ok _ _ _ _ (prime_at (t_cap_index t))))
    as [(Hld & _ & Hle) Hpos]; [simpl; lia|done|].
  exists t1, (concat bs'). split_and!; try done.
  - by apply (hashtabs_to_list_ok cmp hash).
  - rewrite Hsz'. by rewrite Hp.
  - intros Hne. apply loadfactor_at_least_one. split; [|done].
    apply Hpos. intros E. apply Hne. rewrite E in Hp.
    by apply Permutation_nil_r in Hp.
Qed.

(** After inserting 5, removing it and inserting it again the load counter
    is 0; the directory the rehash returns has load 1. *)
Lemma hashtabs_rehash_recounts_witness :
  ∃ t t',
    run_dir_ops (ztable 5) [Insert 5; Delete 5; Insert 5]%Z = Done t ∧
    t_load t = 0%Z ∧
    hashtabs_rehash t = Done (t, t') ∧
    t_load t' = 1%Z ∧ hashtabs_size t' = 1%Z.
Proof.
  set (ops := [Insert 5; Delete 5; Insert 5]%Z).
  destruct (directory_reachable zcmp zhash zcmp_linear zhash_respects
              (Y:=unit) (H:=unit) None None 5 ops)
    as (t & bs & Hrun & Hdir); [reflexivity|vm_compute; discriminate|].
  assert (Ht : t = returned (ztable 5) (run_dir_ops (ztable 5) ops))
    by (unfold ztable in *; by rewrite Hrun).
  destruct (hashtabs_rehash_recounts zcmp zhash t bs zcmp_linear Hdir)
    as (t' & xs & Hre & Hlist & Hsz & Hld & _).
  { rewrite Ht. vm_compute. reflexivity. }
  assert (Ht' : t' = (returned (t, t) (hashtabs_rehash t)).2)
    by (by rewrite Hre).
  exists t, t'. split; [exact Hrun|]. split.
  { rewrite Ht. vm_compute. reflexivity. }
  split; [exact Hre|]. split.
  - rewrite Hld, Ht', Ht. vm_compute. reflexivity.
  - rewrite Ht', Ht. vm_compute. reflexivity.
Defined.

(** ** The deep chain *)

(** X17: the deep chain operations act on the fields [nmems], [head],
    [tail] and on the nodes as the shallow operations act on [size], [head],
    [tail] and the nodes, the copies being the payloads: lookups, keyed
    removals and dequeues always, insertions for a record of exactly
    [size] bytes, which is copied whole. *)
Theorem dqueues_as_queues {Y : Type} (q : dqueues_t Y) (x : bytes) :
  dqueues_find (Some q) x = queues_find (Some (dq_view q)) x ∧
  dqueues_remove (Some q) x
    = ('(q', r) ← queues_remove (Some (dq_view q)) x;
       Done (fmap (M:=option) (dq_of (dq_size q)) q', r)) ∧
  dqueues_dequeue_front q
    = ('(q', r) ← queues_dequeue_front (dq_view q);
       Done (dq_of (dq_size q) q', r)) ∧
  dqueues_dequeue_back q
    = ('(q', r) ← queues_dequeue_back (dq_view q);
       Done (dq_of (dq_size q) q', r)) ∧
  (Z.of_nat (length x) = dq_size q →
   dqueues_enqueu q x
     = (q' ← queues_enqueu (dq_view q) x; Done (dq_of (dq_size q) q'))).
Proof.
  split_and!.
  - apply (dqueues_find_view (Some q)).
  - apply dqueues_remove_view.
  - apply dqueues_dequeue_front_view.
  - apply dqueues_dequeue_back_view.
  - apply dqueues_enqueu_view.
Qed.

(** Enqueueing the four-byte record 5 into the empty deep chain for
    four-byte records. *)
Lemma dqueues_as_queues_witness :
  dqueues_enqueu dchain rec5
  = (q' ← queues_enqueu (dq_view dchain) rec5; Done (dq_of (dq_size dchain) q')).
Proof.
  destruct (dqueues_as_queues dchain rec5) as (_ & _ & _ & _ & Henq).
  apply Henq. reflexivity.
Defined.

(** X18: under a comparator that is a linear order, every run of
    [dqueues_enqueu], [dqueues_remove] and [dqueues_dequeue_front] calls on
    the chain that [dqueues_new] returns for records of [size] bytes, each
    insertion passing a record of [size] bytes, returns; and after every run
    that returns, [dqueues_dequeue_back] calls included, the traversal is
    ascending with no two copies comparing equal, [dqueues_size] is the
    number of copies and the record size is still [size]. *)
Theorem dqueues_stays_ascending {Y : Type} (cmp : bytes → bytes → Z)
    (cmp_r : option (bytes → bytes → Y → Z)) (size : Z) (q0 : dqueues_t Y)
    (ops : list dchain_op) :
  LinearOrder cmp →
  dqueues_new (Some cmp) cmp_r size = Done q0 →
  Forall (op_sized size) ops →
  (Z.of_nat (length ops) ≤ SIZE_MAX)%Z →
  (Forall (λ op, op ≠ DDequeueBack) ops → ∃ q, drun_ops q0 ops = Done q) ∧
  (∀ q, drun_ops q0 ops = Done q →
     ∃ xs, dqueues_to_list q = Done xs ∧
       (∀ i a b, xs !! i = Some a → xs !! S i = Some b → (cmp a b < 0)%Z) ∧
       distinct_keys cmp xs ∧
       dqueues_size q = Z.of_nat (length xs) ∧ dq_size q = size).
Proof.
  intros Hlo Hnew Hops Hlen. injection Hnew as <-.
  set (q0 := DQueue size 0 (Some cmp) cmp_r None None ∅).
  assert (Hnew : queues_new (Some cmp) cmp_r = Done (dq_view q0)) by done.
  pose proof (drun_ops_view ops q0 Hops) as Hview. cbn [q0 dq_size] in Hview.
  fold q0 in Hview. split.
  - intros Hnb. rewrite Hview.
    destruct (queues_new_ok cmp cmp_r) as (q1 & Hnew1 & Hq1 & _).
    rewrite Hnew in Hnew1. injection Hnew1 as <-.
    destruct (run_ops_ok cmp Hlo (shallow_op <$> ops) (dq_view q0) [] Hq1)
      as (q' & _ & Hrun & _).
    { apply Forall_fmap. eapply Forall_impl; [exact Hnb|].
      intros [] ?; done. }
    rewrite Hrun. eauto.
  - intros q Hrun. rewrite Hview in Hrun.
    apply bind_Done_inv in Hrun as (q' & Hrun & [= <-]).
    destruct (run_ops_new_sized cmp Hlo cmp_r (dq_view q0)
                (shallow_op <$> ops) q' Hnew)
      as (xs & Hq' & Hsz & _); [by rewrite length_fmap|done|].
    exists xs. rewrite dqueues_to_list_view, dq_view_of.
    split; [by apply (queues_to_list_ok cmp)|].
    destruct Hq' as (l & _ & _ & Hs). split_and!; try done.
    + intros i a b. by apply (ascending_adjacent cmp).
    + by apply (ascending_distinct cmp Hlo).
Qed.

Lemma dqueues_stays_ascending_witness :
  ∃ q,
    drun_ops dchain [DEnqueu rec7; DEnqueu rec5; DEnqueu rec7; DRemove rec7]
      = Done q ∧
    dqueues_to_list q = Done [rec5] ∧ dqueues_size q = 1%Z.
Proof.
  set (ops := [DEnqueu rec7; DEnqueu rec5; DEnqueu rec7; DRemove rec7]).
  destruct (dqueues_stays_ascending (Y:=unit) bcmp None 4 dchain ops
              bcmp_linear eq_refl) as [Hruns Hsorted].
  { repeat (apply Forall_cons; split; [reflexivity|]). apply Forall_nil_2. }
  { vm_compute. discriminate. }
  destruct Hruns as (q & Hrun).
  { repeat (apply Forall_cons; split; [discriminate|]). apply Forall_nil_2. }
  destruct (Hsorted q Hrun) as (xs & Hlist & _ & _ & Hsz & _).
  assert (Hq : q = returned dchain (drun_ops dchain ops)) by (by rewrite Hrun).
  assert (xs = [rec5]) as ->.
  { rewrite Hq in Hlist. vm_compute in Hlist. by injection Hlist. }
  exists q. split; [exact Hrun|]. split; [exact Hlist|exact Hsz].
Defined.

(** X19: on a deep chain built in this way, [dqueues_enqueu] of a record of
    [size] bytes followed by [dqueues_find] of the record returns a copy
    that compares equal to it, and every record found before is found as
    before. *)
Theorem dqueues_enqueu_then_find {Y : Type} (cmp : bytes → bytes → Z)
    (cmp_r : option (bytes → bytes → Y → Z)) (size : Z) (q0 q : dqueues_t Y)
    (ops : list dchain_op) (x : bytes) :
  LinearOrder cmp →
  dqueues_new (Some cmp) cmp_r size = Done q0 →
  Forall (op_sized size) ops →
  drun_ops q0 ops = Done q →
  Z.of_nat (length x) = size →
  ∃ q' v,
    dqueues_enqueu q x = Done q' ∧
    dqueues_find (Some q') x = Done (Some v) ∧ cmp x v = 0%Z ∧
    (dqueues_find (Some q) x = Done None → v = x) ∧
    (∀ y w, dqueues_find (Some q) y = Done (Some w) →
            dqueues_find (Some q') y = Done (Some w)).
Proof.
  intros Hlo Hnew Hops Hrun Hx. injection Hnew as <-.
  set (q0 := DQueue size 0 (Some cmp) cmp_r None None ∅) in *.
  assert (Hnew : queues_new (Some cmp) cmp_r = Done (dq_view q0)) by done.
  rewrite (drun_ops_view ops q0 Hops) in Hrun.
  apply bind_Done_inv in Hrun as (q1 & Hrun & [= <-]).
  destruct (queues_new_ok cmp cmp_r) as (q2 & Hnew2 & Hq2 & _).
  rewrite Hnew in Hnew2. injection Hnew2 as <-.
  destruct (run_ops_sound cmp Hlo (shallow_op <$> ops) (dq_view q0) [] q1
              Hq2 Hrun) as (xs & Hq1).
  assert (Hs : ascending cmp xs) by (by destruct Hq1 as (l & _ & _ & ?)).
  destruct (queues_enqueu_ok cmp Hlo q1 xs x Hq1) as (q' & Henq & Hq' & _ & _).
  pose proof (ins_ascending cmp Hlo x xs Hs) as Hs'.
  assert (Hv : ∃ v, find_vals cmp x (ins cmp x xs) = Some v ∧ cmp x v = 0%Z ∧
                    (find_vals cmp x xs = None → v = x)).
  { destruct (find_vals cmp x xs) as [w|] eqn:Ef.
    - pose proof Ef as [Hw E]%find_vals_Some. exists w.
      rewrite (ins_dup cmp Hlo x xs Hs) by eauto. done.
    - exists x. split_and!; [|apply (lo_refl _ Hlo)|done].
      apply (find_vals_member cmp Hlo); [done| |apply (lo_refl _ Hlo)].
      rewrite (ins_new cmp x xs (find_vals_None cmp Hlo x xs Hs Ef)).
      apply elem_of_cons. by left. }
  destruct Hv as (v & Hfv & E & Hnew').
  exists (dq_of size q'), v.
  rewrite dqueues_enqueu_view by done. cbn [dq_of dq_size].
  rewrite dq_view_of, Henq, bind_Done.
  rewrite !(dqueues_find_view (Some _)). cbn [fmap option_fmap option_map].
  rewrite !dq_view_of.
  rewrite (queues_find_ok cmp q' _ x Hq'), (queues_find_ok cmp q1 xs x Hq1).
  split_and!; try done.
  - by rewrite Hfv.
  - intros [= Hf]. by apply Hnew'.
  - intros y w. rewrite !(dqueues_find_view (Some _)).
    cbn [fmap option_fmap option_map]. rewrite !dq_view_of.
    rewrite (queues_find_ok cmp q' _ y Hq'), (queues_find_ok cmp q1 xs y Hq1).
    intros [= [Hw Ew]%find_vals_Some]. f_equal.
    apply (find_vals_member cmp Hlo); [done|by apply ins_keeps|done].
Qed.

Lemma dqueues_enqueu_then_find_witness :
  ∃ q',
    dqueues_enqueu dchain_57 [Byte.x06; Byte.x00; Byte.x00; Byte.x00]
      = Done q' ∧
    dqueues_find (Some q') [Byte.x06; Byte.x00; Byte.x00; Byte.x00]
      = Done (Some [Byte.x06; Byte.x00; Byte.x00; Byte.x00]) ∧
    dqueues_find (Some q') rec7 = Done (Some rec7).
Proof.
  set (rec6 := [Byte.x06; Byte.x00; Byte.x00; Byte.x00]).
  destruct (dqueues_enqueu_then_find (Y:=unit) bcmp None 4 dchain dchain_57
              [DEnqueu rec7; DEnqueu rec5] rec6 bcmp_linear eq_refl)
    as (q' & v & Henq & Hfind & _ & Hnew & Hkeep).
  { repeat (apply Forall_cons; split; [reflexivity|]). apply Forall_nil_2. }
  { vm_compute. reflexivity. }
  { reflexivity. }
  exists q'. split; [exact Henq|]. split.
  - rewrite Hfind. f_equal. f_equal. apply Hnew. vm_compute. reflexivity.
  - apply Hkeep. vm_compute. reflexivity.
Defined.

(** ** The capacities of the ladder *)

(** X20: the capacities of the ladder ascend strictly, each of them but the
    last is a prime number, and the last, the sentinel [SIZE_MAX] that the
    capacity is clamped to, is not: 3 divides it. *)
Theorem ladder_of_primes :
  (∀ i j, (0 ≤ i)%Z → (i < j)%Z → (j ≤ NPRIMES)%Z →
          (prime_at i < prime_at j)%Z) ∧
  (∀ i, (0 ≤ i < NPRIMES)%Z → Z.prime (prime_at i)) ∧
  prime_at NPRIMES = SIZE_MAX ∧ (3 | SIZE_MAX)%Z ∧ ¬ Z.prime SIZE_MAX.
Proof.
  split_and!.
  - apply prime_at_mono.
  - intros i Hi. apply is_prime_sound.
    assert (Hall : forallb is_prime (take 45 _primes) = true)
      by (vm_compute; reflexivity).
    rewrite forallb_forall in Hall. apply Hall, list_elem_of_In.
    apply (list_elem_of_lookup_2 _ (Z.to_nat i)).
    rewrite lookup_take_lt by (unfold NPRIMES in Hi; lia).
    apply prime_at_lookup. lia.
  - reflexivity.
  - exists 6148914691236517205%Z. reflexivity.
  - intros [_ Hp]. apply (Hp 3%Z); [unfold SIZE_MAX; lia|].
    exists 6148914691236517205%Z. reflexivity.
Qed.

(** The capacity at rung 3 is the prime 43, above the one at rung 2. *)
Lemma ladder_of_primes_witness :
  (prime_at 2 < prime_at 3)%Z ∧ Z.prime (prime_at 3).
Proof.
  destruct ladder_of_primes as (Hup & Hprime & _).
  split; [apply Hup|apply Hprime]; unfold NPRIMES; lia.
Defined.

(** ** Insertion order, and insertion followed by removal *)

(** X21: a chain sorts what is inserted: enqueueing pairwise distinct keys
    into the chain that [queues_new] returns, in any order, gives a chain
    whose traversal is the one ascending arrangement of the keys. *)
Theorem queues_enqueu_any_order {A Y : Type} (cmp : A → A → Z)
    (cmp_r : option (A → A → Y → Z)) (q0 : queues_t A Y) (ks ks' : list A) :
  LinearOrder cmp →
  queues_new (Some cmp) cmp_r = Done q0 →
  distinct_keys cmp ks →
  ks ≡ₚ ks' →
  ∃ q q' xs,
    run_ops q0 (Enqueu <$> ks) = Done q ∧
    run_ops q0 (Enqueu <$> ks') = Done q' ∧
    queues_to_list q = Done xs ∧ queues_to_list q' = Done xs ∧
    xs ≡ₚ ks ∧ ascending cmp xs.
Proof.
  intros Hlo Hnew Hd Hp.
  destruct (queues_new_ok cmp cmp_r) as (q1 & Hnew1 & Hq0 & _).
  rewrite Hnew in Hnew1. injection Hnew1 as <-.
  destruct (enqueu_all_ok cmp Hlo ks q0 [] Hq0) as (q & Hrun & Hq).
  destruct (enqueu_all_ok cmp Hlo ks' q0 [] Hq0) as (q' & Hrun' & Hq').
  pose proof (foldl_ins_perm cmp ks [] Hd) as Hperm.
  pose proof (foldl_ins_perm cmp ks' []
                (distinct_keys_perm cmp ks ks' Hp Hd)) as Hperm'.
  cbn [app] in Hperm, Hperm'.
  assert (Hs : ascending cmp (foldl (λ acc x, ins cmp x acc) [] ks))
    by (by destruct Hq as (l & _ & _ & ?)).
  assert (Hs' : ascending cmp (foldl (λ acc x, ins cmp x acc) [] ks'))
    by (by destruct Hq' as (l & _ & _ & ?)).
  assert (E : foldl (λ acc x, ins cmp x acc) [] ks'
              = foldl (λ acc x, ins cmp x acc) [] ks).
  { apply (ascending_perm_eq cmp Hlo); try done.
    by rewrite Hperm, Hperm', Hp. }
  rewrite E in Hq'.
  eexists q, q', _. split_and!; try done.
  - by apply (queues_to_list_ok cmp).
  - by apply (queues_to_list_ok cmp).
Qed.

Lemma queues_enqueu_any_order_witness :
  ∃ q q',
    run_ops zchain [Enqueu 5; Enqueu 1; Enqueu 3]%Z = Done q ∧
    run_ops zchain [Enqueu 3; Enqueu 5; Enqueu 1]%Z = Done q' ∧
    queues_to_list q = Done [1; 3; 5]%Z ∧
    queues_to_list q' = Done [1; 3; 5]%Z.
Proof.
  destruct (queues_enqueu_any_order zcmp None zchain [5; 1; 3]%Z [3; 5; 1]%Z
              zcmp_linear eq_refl)
    as (q & q' & xs & Hrun & Hrun' & Hlist & Hlist' & _ & _).
  { apply zcmp_distinct.
    repeat (apply NoDup_cons; split; [set_solver|]). apply NoDup_nil_2. }
  { change [3; 5; 1]%Z with ([3%Z] ++ [5; 1]%Z).
    change [5; 1; 3]%Z with ([5; 1]%Z ++ [3%Z]). apply Permutation_app_comm. }
  assert (Hq : q = returned zchain (run_ops zchain (Enqueu <$> [5; 1; 3]%Z)))
    by (by rewrite Hrun).
  assert (xs = [1; 3; 5]%Z) as ->.
  { rewrite Hq in Hlist. vm_compute in Hlist. by injection Hlist. }
  exists q, q'. split; [exact Hrun|]. split; [exact Hrun'|].
  split; [exact Hlist|exact Hlist'].
Defined.

(** X22: on a chain built from [queues_new] by chain operations,
    [queues_remove] undoes [queues_enqueu] of a key that [queues_find] does
    not find: it returns the key, and the traversal and [queues_size] are
    as before the insertion. *)
Theorem queues_enqueu_then_remove {A Y : Type} (cmp : A → A → Z)
    (cmp_r : option (A → A → Y → Z)) (q0 q : queues_t A Y)
    (ops : list (chain_op A)) (x : A) :
  LinearOrder cmp →
  queues_new (Some cmp) cmp_r = Done q0 →
  (Z.of_nat (length ops) < SIZE_MAX)%Z →
  run_ops q0 ops = Done q →
  queues_find (Some q) x = Done None →
  ∃ q1 q2,
    queues_enqueu q x = Done q1 ∧
    queues_remove (Some q1) x = Done (Some q2, Some x) ∧
    queues_to_list q2 = queues_to_list q ∧
    queues_size q2 = queues_size q.
Proof.
  intros Hlo Hnew Hlen Hrun Hfind.
  destruct (run_ops_new_sized_k cmp Hlo cmp_r q0 ops 1 q Hnew)
    as (xs & Hsized); [lia|done|].
  pose proof Hsized as (Hq & Hsz & _ & Hk).
  assert (Hs : ascending cmp xs) by (by destruct Hq as (l & _ & _ & ?)).
  rewrite (queues_find_ok cmp q xs x Hq) in Hfind. injection Hfind as Hfind.
  pose proof (find_vals_None cmp Hlo x xs Hs Hfind) as Hne.
  destruct (queues_enqueu_sized cmp Hlo 0 q xs x Hsized)
    as (q1 & Henq & Hq1 & Hsz1 & _ & _).
  destruct (queues_remove_ok cmp Hlo q1 _ x Hq1)
    as (q2 & Hrem & Hq2 & _ & _ & Hdec).
  rewrite (del_ins cmp Hlo x xs Hs Hne) in Hrem, Hq2, Hdec.
  cbn [fst snd] in *.
  exists q1, q2. split_and!; try done.
  - by rewrite (queues_to_list_ok cmp q2 xs Hq2),
      (queues_to_list_ok cmp q xs Hq).
  - unfold queues_size in *. rewrite Hdec by done. rewrite Hsz1, Hsz.
    rewrite (Permutation_length (ins_new cmp x xs Hne)). simpl.
    rewrite size_decr_small by lia. lia.
Qed.

Lemma queues_enqueu_then_remove_witness :
  ∃ q1 q2,
    queues_enqueu zchain_135 4%Z = Done q1 ∧
    queues_remove (Some q1) 4%Z = Done (Some q2, Some 4%Z) ∧
    queues_to_list q2 = Done [1; 3; 5]%Z ∧ queues_size q2 = 3%Z.
Proof.
  destruct (queues_enqueu_then_remove zcmp None zchain zchain_135
              [Enqueu 5; Enqueu 1; Enqueu 3]%Z 4%Z zcmp_linear eq_refl)
    as (q1 & q2 & Henq & Hrem & Hlist & Hsz).
  { vm_compute. reflexivity. }
  { vm_compute. reflexivity. }
  { vm_compute. reflexivity. }
  exists q1, q2. split; [exact Henq|]. split; [exact Hrem|]. split.
  - rewrite Hlist. vm_compute. reflexivity.
  - rewrite Hsz. vm_compute. reflexivity.
Defined.

(** X23: on a well-formed directory, [hashtabs_remove] undoes
    [hashtabs_insert] of a key that [hashtabs_find] does not find: it returns
    the key, and the size, the capacity, the full traversal and the result
    of every lookup are as before the insertion. *)
Theorem hashtabs_insert_then_remove {A Y H : Type} (cmp : A → A → Z)
    (hash : A → Z) (t : hashtabs_t A Y H) (bs : list (list A)) (x : A) :
  LinearOrder cmp →
  hashtabs_ok cmp hash t bs →
  hashtabs_find t x = Done None →
  ∃ t1 t2,
    hashtabs_insert t x = Done t1 ∧
    hashtabs_remove t1 x = Done (t2, Some x) ∧
    hashtabs_size t2 = hashtabs_size t ∧
    hashtabs_capacity t2 = hashtabs_capacity t ∧
    hashtabs_to_list t2 = hashtabs_to_list t ∧
    ∀ y, hashtabs_find t2 y = hashtabs_find t y.
Proof.
  intros Hlo Hok Hfind.
  pose proof (hashtabs_ok_ascending cmp hash t bs Hok) as Hs.
  rewrite (hashtabs_find_ok cmp hash t bs x Hok) in Hfind.
  injection Hfind as Hfind.
  pose proof (find_buckets_None_inv cmp Hlo x bs Hs Hfind) as Hne.
  destruct (hashtabs_insert_ok cmp hash Hlo t bs x Hok)
    as (t1 & s & b & _ & Eb & Hins & Hok1 & Hsz1 & _ & Hcap1 & _).
  destruct (hashtabs_remove_ok cmp hash Hlo t1 _ x Hok1)
    as (t2 & Hrem & Hok2 & Hcap2 & Hsz2).
  rewrite (remove_buckets_insert cmp Hlo x bs _ b Hs Eb Hne)
    in Hrem, Hok2, Hsz2.
  cbn [fst snd] in *.
  exists t1, t2. split_and!; try done.
  - unfold hashtabs_size. rewrite Hsz2, Hsz1. apply size_decr_incr.
    by destruct Hok.
  - unfold hashtabs_capacity. congruence.
  - by rewrite (hashtabs_to_list_ok cmp hash t2 bs Hok2),
      (hashtabs_to_list_ok cmp hash t bs Hok).
  - intros y. by rewrite (hashtabs_find_ok cmp hash t2 bs y Hok2),
      (hashtabs_find_ok cmp hash t bs y Hok).
Qed.

Lemma hashtabs_insert_then_remove_witness :
  ∃ t1 t2,
    hashtabs_insert ztable_513 12%Z = Done t1 ∧
    hashtabs_remove t1 12%Z = Done (t2, Some 12%Z) ∧
    hashtabs_size t2 = 3%Z ∧
    hashtabs_to_list t2 = Done [1; 3; 5]%Z.
Proof.
  destruct ztable_513_ok as (Hok & _ & _).
  destruct (hashtabs_insert_then_remove zcmp zhash ztable_513 _ 12%Z
              zcmp_linear Hok)
    as (t1 & t2 & Hins & Hrem & Hsz & _ & Hlist & _).
  { vm_compute. reflexivity. }
  exists t1, t2. split; [exact Hins|]. split; [exact Hrem|]. split.
  - rewrite Hsz. vm_compute. reflexivity.
  - rewrite Hlist. vm_compute. reflexivity.
Defined.

(** ** Reentrant twins and directory traversals *)

(** X24: [queues_enqueu_r], [queues_find_r] and [queues_remove_r] with
    context [y] compute what [queues_enqueu], [queues_find] and
    [queues_remove] compute on the chain whose plain comparator is
    [cmp_r] with its third argument fixed to [y]; the comparator fields of
    the chain are left as they were. *)
Theorem queues_r_as_plain {A Y : Type} (q : queues_t A Y) (x : A) (y : Y) :
  queues_enqueu_r q x y
    = (q' ← queues_enqueu (set_cmp (close_cmp (q_cmp_r q) y) q) x;
       Done (set_cmp (q_cmp q) q')) ∧
  queues_find_r (Some q) x y
    = queues_find (Some (set_cmp (close_cmp (q_cmp_r q) y) q)) x ∧
  queues_remove_r (Some q) x y
    = ('(q', r) ← queues_remove
                    (Some (set_cmp (close_cmp (q_cmp_r q) y) q)) x;
       Done (fmap (M:=option) (set_cmp (q_cmp q)) q', r)).
Proof.
  split_and!.
  - apply queues_enqueu_r_plain.
  - apply queues_find_r_plain.
  - apply queues_remove_r_plain.
Qed.

(** X25: on a well-formed directory, [hashtabs_map_r] with a callback that
    leaves the entries as they are runs it on the entries in the order of
    the full traversal, passing the context along; it stops after the first
    call that returns a negative value, in whichever chain, and then returns
    [-1], and returns [1] when it has visited every entry.  The directory
    is left exactly as it was. *)
Theorem hashtabs_map_r_read {A Y H St : Type} (cmp : A → A → Z)
    (hash : A → Z) (t : hashtabs_t A Y H) (bs : list (list A))
    (apply : A → St → outcome (A * St * Z))
    (g : A → St → outcome (St * Z)) (y : St) :
  hashtabs_ok cmp hash t bs →
  (∀ v y, apply v y = '(y', r) ← g v y; Done (v, y', r)) →
  ∃ xs,
    hashtabs_to_list t = Done xs ∧
    hashtabs_map_r t apply y
      = ('(y', r) ← visit_until g xs y; Done (t, y', r)).
Proof.
  intros Hok Happ. exists (concat bs).
  split; [by apply (hashtabs_to_list_ok cmp hash)|].
  pose proof Hok as [_ _ _ Hl Hs _ _]. unfold hashtabs_map_r.
  rewrite (map_r_slots_read cmp hash apply g t bs Happ Hok _ 0)
    by (by rewrite <-Hl, (Forall2_length _ _ _ Hs)).
  by rewrite drop_0.
Qed.

(** Summing the entries 1, 3, 5 of the directory up to the first one above
    2. *)
Lemma hashtabs_map_r_read_witness :
  hashtabs_map_r ztable_513
    (λ v acc, Done (v, acc + v, if 2 <? v then -1 else 1)%Z) 0%Z
  = Done (ztable_513, 4%Z, (-1)%Z).
Proof.
  destruct ztable_513_ok as (Hok & _ & _).
  destruct (hashtabs_map_r_read zcmp zhash ztable_513 _
              (λ v acc, Done (v, acc + v, if 2 <? v then -1 else 1)%Z)
              (λ v acc, Done (acc + v, if 2 <? v then -1 else 1)%Z)
              0%Z Hok) as (xs & Hlist & Hmap); [reflexivity|].
  assert (xs = [1; 3; 5]%Z) as ->
    by (vm_compute in Hlist; by injection Hlist).
  rewrite Hmap. reflexivity.
Defined.

(** X26: [hashtabs_map] is [hashtabs_map_r] with a callback that takes no
    context: same calls in the same order, same entries stored, same
    result. *)
Theorem hashtabs_map_as_map_r {A Y H : Type} (t : hashtabs_t A Y H)
    (apply : A → outcome (A * Z)) :
  hashtabs_map t apply
  = '(t', _, r) ← hashtabs_map_r t
        (λ v (_ : unit), '(v', r) ← apply v; Done (v', (), r)) ();
    Done (t', r).
Proof. apply map_slots_map_r. Qed.

(** ** The standard hash function *)

(** X27: on an array of [n] words of 32 bits, [hashtabs_stdhash] returns a
    value of 64 bits, and two arrays of the same length that differ only in
    their last word get different values; so the hash is injective on
    single words.  Asking for more words than the array has reads past its
    end. *)
Theorem hashtabs_stdhash_last_word (a : list Z) (w w' : Z) :
  (0 ≤ w < 2 ^ 32)%Z → (0 ≤ w' < 2 ^ 32)%Z →
  (Z.of_nat (length a) + 1 < 2 ^ 64)%Z →
  (∃ h, hashtabs_stdhash (a ++ [w]) (Z.of_nat (length a) + 1) = Done h ∧
        (0 ≤ h < 2 ^ 64)%Z) ∧
  (hashtabs_stdhash (a ++ [w]) (Z.of_nat (length a) + 1)
   = hashtabs_stdhash (a ++ [w']) (Z.of_nat (length a) + 1) → w = w') ∧
  hashtabs_stdhash a (Z.of_nat (length a) + 1) = Undefined.
Proof.
  intros Hw Hw' Hn. unfold hashtabs_stdhash.
  replace (Z.to_nat (Z.of_nat (length a) + 1)) with (S (length a)) by lia.
  set (n := (Z.of_nat (length a) + 1)%Z) in *.
  destruct (stdhash_loop_range (length a) a 0 n) as (h & Hloop & Hh);
    [lia|lia|].
  rewrite !stdhash_loop_snoc, !stdhash_loop_prefix, Hloop, !bind_Done by lia.
  unfold array_get. cbn [Nat.add].
  rewrite !lookup_app_r, Nat.sub_diag by lia. cbn [lookup list_lookup].
  rewrite lookup_ge_None_2 by lia. rewrite !bind_Done.
  split_and!; [|intros [= E]|done].
  - eexists. split; [done|]. by apply stdhash_step_range.
  - apply stdhash_step_inj in E; [|apply stdhash_mix_range..].
    apply stdhash_mix_inj in E; [done|lia..].
Qed.

(** Single words: 5 and 7 hash to different values. *)
Lemma hashtabs_stdhash_last_word_witness :
  hashtabs_stdhash [5%Z] 1 ≠ hashtabs_stdhash [7%Z] 1 ∧
  hashtabs_stdhash [] 1 = Undefined.
Proof.
  destruct (hashtabs_stdhash_last_word [] 5 7) as (_ & Hinj & Hover);
    [lia|lia|simpl; lia|].
  split; [|exact Hover]. intros E. specialize (Hinj E). discriminate.
Defined.

(** ** Draining a chain, and the record size of the deep directory *)

(** X28: dequeueing at the front of a well-formed chain as many times as it
    has entries returns the entries in ascending order, dequeueing at the
    back returns them in descending order, and either way the chain is left
    empty; after the front dequeues both the head and the tail pointer are
    [NULL]. *)
Theorem queues_drain_in_order {A Y : Type} (cmp : A → A → Z)
    (q : queues_t A Y) (xs : list A) :
  chain_ok cmp q xs →
  (∃ q', drain_front (length xs) q = Done (q', Some <$> xs) ∧
         queues_to_list q' = Done [] ∧
         (xs ≠ [] → q_head q' = None ∧ q_tail q' = None)) ∧
  (∃ q', drain_back (length xs) q = Done (q', Some <$> reverse xs) ∧
         queues_to_list q' = Done []).
Proof.
  intros Hq. split.
  - destruct (drain_front_ok cmp xs q Hq) as (q' & Hrun & Hq' & Hend).
    exists q'. split_and!; try done. by apply (queues_to_list_ok cmp).
  - destruct (drain_back_ok cmp xs q Hq) as (q' & Hrun & Hq').
    exists q'. split; [done|]. by apply (queues_to_list_ok cmp).
Qed.

Lemma queues_drain_in_order_witness :
  (∃ q', drain_front 3 zchain_135 = Done (q', [Some 1; Some 3; Some 5]%Z)) ∧
  (∃ q', drain_back 3 zchain_135 = Done (q', [Some 5; Some 3; Some 1]%Z)).
Proof.
  destruct (queues_drain_in_order zcmp zchain_135 [1; 3; 5]%Z zchain_135_ok)
    as [(q1 & Hfront & _) (q2 & Hback & _)].
  split; [exists q1; exact Hfront|exists q2; exact Hback].
Defined.

(** X29: [dhashtabs_insert] adds one to the field that holds the record
    size.  So once an insert has returned, a [dhashtabs_insert] of a record
    of the size the directory had before, into a slot that is still [NULL],
    allocates a chain for records one byte longer and reads past the end of
    the record. *)
Theorem dhashtabs_insert_reads_past_record {Y H : Type}
    (t t' : dhashtabs_t Y H) (x y : bytes) (cmp : bytes → bytes → Z)
    (hash : bytes → Z) :
  dhashtabs_insert t x = Done t' →
  Z.of_nat (length y) = dt_size t →
  (dt_size t < SIZE_MAX)%Z →
  dt_cmp t = Some cmp →
  dt_hash t = Some hash →
  dt_A t' !! Z.to_nat (to_size_t (hash y) mod prime_at (dt_cap_index t))
    = Some None →
  dhashtabs_size t' = (dhashtabs_size t + 1)%Z ∧
  dhashtabs_insert t' y = Undefined.
Proof.
  intros Hrun Hy Hsz Hc Hh Hslot.
  assert (Hfields : dt_size t' = size_incr (dt_size t) ∧
                    dt_hash t' = dt_hash t ∧
                    dt_cap_index t' = dt_cap_index t ∧
                    dt_cmp t' = dt_cmp t).
  { unfold dhashtabs_insert in Hrun.
    apply bind_Done_inv in Hrun as (h & _ & Hrun).
    apply bind_Done_inv in Hrun as (s & _ & Hrun).
    apply bind_Done_inv in Hrun as ([ld q] & _ & Hrun).
    by apply bind_Done_inv in Hrun as (q' & _ & [= <-]). }
  destruct Hfields as (Hsz' & Hh' & Hcap' & Hc').
  rewrite size_incr_small in Hsz' by lia.
  split; [done|].
  unfold dhashtabs_insert. rewrite Hh', Hh, Hcap'. cbn [call].
  rewrite bind_Done. unfold array_get. rewrite Hslot, bind_Done.
  rewrite Hc', Hc. cbn [dqueues_new]. rewrite !bind_Done.
  unfold dqueues_enqueu. cbn [dq_head dq_size]. unfold memcpy.
  rewrite Hsz'. destruct (Z.leb_spec (dt_size t + 1) (Z.of_nat (length y)));
    [lia|done].
Qed.

(** The directory for four-byte records, after the record 5 went in: the
    record 7 hashes to a slot that is still [NULL]. *)
Lemma dhashtabs_insert_reads_past_record_witness :
  ∃ t',
    dhashtabs_insert dtable rec5 = Done t' ∧
    dhashtabs_size t' = 5%Z ∧ dhashtabs_insert t' rec7 = Undefined.
Proof.
  destruct (dhashtabs_insert dtable rec5) as [t'| | |] eqn:Hrun;
    try (vm_compute in Hrun; discriminate).
  destruct (dhashtabs_insert_reads_past_record dtable t' rec5 rec7 bcmp bhash
              Hrun) as [Hsz Hover]; try reflexivity.
  { assert (Ht : t' = returned dtable (dhashtabs_insert dtable rec5))
      by (by rewrite Hrun).
    rewrite Ht. vm_compute. reflexivity. }
  exists t'. split; [reflexivity|]. split; [exact Hsz|exact Hover].
Defined.
